(** * Flight price tracker: the hybrid ranking engine

    A shallow embedding of the search router, the module with the
    [/hybrid] and [/advanced] handlers in [src/backend/routes/prices.js],
    and the properties of the ranking engine that the specification
    states about it; then the [/suggestions] handler of the same router
    and the price router of the same file (the history of a flight and of
    a route, the posting of a price, the statistics and the latest
    prices), with the properties that their code shows.

    Conventions of the embedding.
    - JavaScript numbers are IEEE doubles.  Finite doubles are idealised as
      real numbers ([R]); the three special values that the handlers can
      produce or receive ([Infinity], [-Infinity], [NaN]) are explicit
      constructors of [JS.number].  Rounding and signed zeros are not
      modelled.
    - Strings are sequences of ASCII code units; [toLowerCase],
      [toUpperCase] and the regular-expression class [\s] are modelled on
      that range.
    - A JavaScript [Map] is an association list in insertion order, a [Set]
      a duplicate-free list in insertion order.
    - Counts, lengths and indices are [nat]; page numbers and page sizes
      (results of [parseInt]) are [Z]; dates are milliseconds since the
      epoch, in [Z]. *)

From Stdlib Require Import Reals Lra Lia List String Ascii ZArith Bool Arith.
From Stdlib Require Import Permutation Sorted.
Import ListNotations.

Set Implicit Arguments.

(* ================================================================== *)
(** * JavaScript primitives used by the handlers *)
(* ================================================================== *)

Module JS.

Local Open Scope string_scope.

(** ** Strings *)

(** Truthiness of an optional string value: [undefined] and [''] are
    falsy, every other string is truthy. *)
Definition truthy (o : option string) : bool :=
  match o with
  | Some (String _ _) => true
  | _ => false
  end.

(** [x || ''] *)
Definition orEmpty (o : option string) : string :=
  match o with
  | Some s => s
  | None => ""
  end.

Definition code (c : ascii) : nat := nat_of_ascii c.

Definition between (lo hi : nat) (c : ascii) : bool :=
  (lo <=? code c)%nat && (code c <=? hi)%nat.

Definition isUpper (c : ascii) : bool := between 65 90 c.
Definition isLower (c : ascii) : bool := between 97 122 c.
Definition isDigit (c : ascii) : bool := between 48 57 c.

(** [\s] on ASCII: tab, line feed, vertical tab, form feed, carriage
    return, space. *)
Definition isSpace (c : ascii) : bool := between 9 13 c || (code c =? 32)%nat.

Definition isHyphen (c : ascii) : bool := (code c =? 45)%nat.

Definition lowerChar (c : ascii) : ascii :=
  if isUpper c then ascii_of_nat (code c + 32) else c.

Definition upperChar (c : ascii) : ascii :=
  if isLower c then ascii_of_nat (code c - 32) else c.

Fixpoint mapChars (f : ascii -> ascii) (s : string) : string :=
  match s with
  | EmptyString => EmptyString
  | String c r => String (f c) (mapChars f r)
  end.

(** [s.toLowerCase()], [s.toUpperCase()] *)
Definition toLowerCase (s : string) : string := mapChars lowerChar s.
Definition toUpperCase (s : string) : string := mapChars upperChar s.

(** The character class [[a-z0-9\s-]]. *)
Definition inClass (c : ascii) : bool :=
  isLower c || isDigit c || isSpace c || isHyphen c.

(** [s.replace(/[^a-z0-9\s-]/g, ' ')] *)
Definition replaceOutsideClass (s : string) : string :=
  mapChars (fun c => if inClass c then c else " "%char) s.

(** [s.split(/\s+/)]: the pieces between maximal runs of whitespace.  A
    run at the start or at the end of [s] yields an empty first or last
    piece, and the empty string yields one empty piece.  [inRun] tells
    that the previous character was whitespace. *)
Fixpoint splitGo (inRun : bool) (s : string) : list string :=
  match s with
  | EmptyString => [EmptyString]
  | String c r =>
      if isSpace c then
        if inRun then splitGo true r else EmptyString :: splitGo true r
      else
        match splitGo false r with
        | p :: ps => String c p :: ps
        | [] => [String c EmptyString]
        end
  end.

Definition splitWs (s : string) : list string := splitGo false s.

Definition nonEmpty (s : string) : bool :=
  match s with
  | EmptyString => false
  | String _ _ => true
  end.

(** [arr.filter(Boolean)] on an array of strings *)
Definition filterBoolean (l : list string) : list string := filter nonEmpty l.

(** [[a, b, c].filter(Boolean)] on optional strings *)
Fixpoint filterTruthy (l : list (option string)) : list string :=
  match l with
  | [] => []
  | o :: r => if truthy o then orEmpty o :: filterTruthy r else filterTruthy r
  end.

(** [arr.join(sep)] *)
Fixpoint join (sep : string) (l : list string) : string :=
  match l with
  | [] => ""
  | [x] => x
  | x :: r => x ++ sep ++ join sep r
  end.

Fixpoint trimStart (s : string) : string :=
  match s with
  | EmptyString => EmptyString
  | String c r => if isSpace c then trimStart r else s
  end.

Fixpoint allSpace (s : string) : bool :=
  match s with
  | EmptyString => true
  | String c r => isSpace c && allSpace r
  end.

Fixpoint trimEnd (s : string) : string :=
  match s with
  | EmptyString => EmptyString
  | String c r => if allSpace s then EmptyString else String c (trimEnd r)
  end.

(** [s.trim()] *)
Definition trim (s : string) : string := trimEnd (trimStart s).

(** ** Numbers *)

Inductive number : Type :=
| Fin (r : R)
| PInf
| NInf
| NaN.

Definition Rltb (x y : R) : bool := if Rlt_dec x y then true else false.
Definition Rleb (x y : R) : bool := if Rle_dec x y then true else false.
Definition Reqb (x y : R) : bool := if Req_dec_T x y then true else false.

Local Open Scope R_scope.

(** [Math.min(a, b)], [Math.max(a, b)] *)
Definition Math_min (a b : number) : number :=
  match a, b with
  | NaN, _ | _, NaN => NaN
  | NInf, _ | _, NInf => NInf
  | PInf, x | x, PInf => x
  | Fin x, Fin y => Fin (Rmin x y)
  end.

Definition Math_max (a b : number) : number :=
  match a, b with
  | NaN, _ | _, NaN => NaN
  | PInf, _ | _, PInf => PInf
  | NInf, x | x, NInf => x
  | Fin x, Fin y => Fin (Rmax x y)
  end.

(** [a <= b] and [a >= b]; every comparison with [NaN] is false. *)
Definition le (a b : number) : bool :=
  match a, b with
  | NaN, _ | _, NaN => false
  | NInf, _ => true
  | _, PInf => true
  | Fin x, Fin y => Rleb x y
  | _, _ => false
  end.

Definition ge (a b : number) : bool := le b a.

(** [v > 0], the test a sort applies to the value of its comparator. *)
Definition positive (v : number) : bool :=
  match v with
  | Fin r => Rltb 0 r
  | PInf => true
  | _ => false
  end.

Definition neg (a : number) : number :=
  match a with
  | Fin x => Fin (- x)
  | PInf => NInf
  | NInf => PInf
  | NaN => NaN
  end.

Definition add (a b : number) : number :=
  match a, b with
  | NaN, _ | _, NaN => NaN
  | PInf, NInf | NInf, PInf => NaN
  | PInf, _ | _, PInf => PInf
  | NInf, _ | _, NInf => NInf
  | Fin x, Fin y => Fin (x + y)
  end.

Definition sub (a b : number) : number := add a (neg b).

(** The sign of a finite factor decides the product with an infinity;
    [0 * Infinity] is [NaN]. *)
Definition scaleInf (x : R) (inf : number) : number :=
  if Rltb 0 x then inf else if Rltb x 0 then neg inf else NaN.

Definition mul (a b : number) : number :=
  match a, b with
  | NaN, _ | _, NaN => NaN
  | Fin x, Fin y => Fin (x * y)
  | Fin x, inf => scaleInf x inf
  | inf, Fin y => scaleInf y inf
  | PInf, PInf | NInf, NInf => PInf
  | PInf, NInf | NInf, PInf => NInf
  end.

(** [x ?? d] on an optional finite number *)
Definition orElse (o : option R) (d : number) : number :=
  match o with
  | Some x => Fin x
  | None => d
  end.

(** ** Arrays *)

(** A stable sort: [after x y] tells that [x] has to come behind [y].
    An element moves behind those following it only as far as [after]
    demands, so elements that [after] does not order keep their input
    order. *)
Fixpoint insertBy (A : Type) (after : A -> A -> bool) (x : A) (l : list A)
  : list A :=
  match l with
  | [] => [x]
  | y :: r => if after x y then y :: insertBy after x r else x :: l
  end.

Definition stableSort (A : Type) (after : A -> A -> bool) (l : list A)
  : list A :=
  fold_right (insertBy after) [] l.

(** [arr.sort(cmp)].  The sort is stable, and an element comes behind
    another one when the comparator, called on the pair, is positive.  For
    a comparator that is a consistent order this is the result of every
    conforming implementation. *)
Definition sort (A : Type) (cmp : A -> A -> number) (l : list A) : list A :=
  stableSort (fun x y => positive (cmp x y)) l.

(** [arr.slice(start, end)]: a negative index counts from the end, and
    both indices are clipped to the array. *)
Definition clipIndex (len i : Z) : Z :=
  if (i <? 0)%Z then Z.max (len + i) 0 else Z.min i len.

Definition slice (A : Type) (l : list A) (s e : Z) : list A :=
  let len := Z.of_nat (List.length l) in
  let k := clipIndex len s in
  let f := clipIndex len e in
  firstn (Z.to_nat (f - k)) (skipn (Z.to_nat k) l).

End JS.

(* ================================================================== *)
(** * [Map] and [Set] objects with string keys *)
(* ================================================================== *)

Module JSMap.

Section WithValues.
Variable V : Type.

(** The entries of a [Map], oldest first. *)
Definition t : Type := list (string * V).

Definition empty : t := [].

(** [m.get(k)] *)
Fixpoint get (m : t) (k : string) : option V :=
  match m with
  | [] => None
  | (k', v) :: r => if String.eqb k k' then Some v else get r k
  end.

(** [m.has(k)] *)
Definition has (m : t) (k : string) : bool :=
  match get m k with
  | Some _ => true
  | None => false
  end.

(** [m.set(k, v)]: a present key keeps its position. *)
Fixpoint set (m : t) (k : string) (v : V) : t :=
  match m with
  | [] => [(k, v)]
  | (k', v') :: r =>
      if String.eqb k k' then (k, v) :: r else (k', v') :: set r k v
  end.

(** [m.size], [Array.from(m.keys())] *)
Definition size (m : t) : nat := List.length m.
Definition keys (m : t) : list string := map fst m.

(** [new Map(entries)] *)
Definition ofEntries (es : list (string * V)) : t :=
  fold_left (fun m e => set m (fst e) (snd e)) es empty.

End WithValues.

(** [m.get(k) || 0] for a map of counters *)
Definition getOr0 (m : t nat) (k : string) : nat :=
  match get m k with
  | Some n => n
  | None => 0
  end.

(** [s.has(k)], [s.add(k)] for a [Set] of strings *)
Definition setHas (s : list string) (k : string) : bool :=
  existsb (String.eqb k) s.

Definition setAdd (s : list string) (k : string) : list string :=
  if setHas s k then s else s ++ [k].

(** [Array.from(new Set(xs))] *)
Definition dedup (xs : list string) : list string :=
  fold_left setAdd xs [].

End JSMap.

(* ================================================================== *)
(** * The stored collections and the aggregation operators *)
(* ================================================================== *)

Module Store.

(** A document of the [flights] collection ([models/Flight.js]); only the
    fields the search handlers read.  A raw document may lack any string
    field. *)
Record Flight : Type := mkFlight {
  _id : nat;
  route_from : option string;
  route_to : option string;
  airline : option string;
  aircraft : option string;
  class : option string;
  flightDate : Z;
  isActive : bool
}.

(** A document of the [pricehistories] collection
    ([models/PriceHistory.js]). *)
Record PriceHistory : Type := mkPrice {
  flightId : nat;
  price : R;
  timestamp : Z
}.

(** The database: both collections, each in the order in which the
    server yields its documents to a scan or to a join.  MongoDB does not
    promise that this is the order of insertion. *)
Record DB : Type := mkDB {
  flights : list Flight;
  pricehistories : list PriceHistory
}.

End Store.

Module Mongo.

Import Store.
Local Open Scope R_scope.

(** [$lookup] from [pricehistories] with [localField: '_id'] and
    [foreignField: 'flightId']: the matching documents, in the order the
    collection yields them. *)
Definition lookup (ps : list PriceHistory) (f : Flight) : list PriceHistory :=
  filter (fun p => Nat.eqb (flightId p) (_id f)) ps.

(** [$arrayElemAt]: a negative index counts from the end; out of bounds
    there is no result and the field stays missing. *)
Definition arrayElemAt (A : Type) (l : list A) (i : Z) : option A :=
  if (i <? 0)%Z then
    let k := (Z.of_nat (List.length l) + i)%Z in
    if (k <? 0)%Z then None else nth_error l (Z.to_nat k)
  else nth_error l (Z.to_nat i).

Definition sum (l : list R) : R := fold_left Rplus l 0.

(** [$avg], [$min], [$max] over an array of numbers: [null] on the empty
    array. *)
Definition avg (l : list R) : option R :=
  match l with
  | [] => None
  | _ :: _ => Some (sum l / INR (List.length l))
  end.

Definition min (l : list R) : option R :=
  match l with
  | [] => None
  | x :: r => Some (fold_left Rmin r x)
  end.

Definition max (l : list R) : option R :=
  match l with
  | [] => None
  | x :: r => Some (fold_left Rmax r x)
  end.

(** [$stdDevPop]: the population standard deviation. *)
Definition stdDevPop (l : list R) : option R :=
  match avg l with
  | None => None
  | Some m =>
      Some (sqrt (sum (map (fun x => (x - m) * (x - m)) l)
                  / INR (List.length l)))
  end.

(** The condition a [$match] puts on one numeric field: [None] is the
    absence of the field from the filter object, [Some (g, l)] the object
    [{ $gte: g, $lte: l }] with either bound optional. *)
Definition Range : Type := (option JS.number * option JS.number)%type.

(** [$gte] and [$lte] of a stored number against a query bound; a bound
    that is [NaN] is matched by no number. *)
Definition gte (x : R) (b : JS.number) : bool :=
  match b with
  | JS.Fin y => JS.Rleb y x
  | JS.NInf => true
  | JS.PInf | JS.NaN => false
  end.

Definition lte (x : R) (b : JS.number) : bool :=
  match b with
  | JS.Fin y => JS.Rleb x y
  | JS.PInf => true
  | JS.NInf | JS.NaN => false
  end.

Definition optAll (A : Type) (p : A -> bool) (o : option A) : bool :=
  match o with
  | Some a => p a
  | None => true
  end.

(** A range condition is only met by a document that has the field: a
    missing field matches no [$gte] and no [$lte] against a number. *)
Definition matchRange (cond : option Range) (field : option R) : bool :=
  match cond with
  | None => true
  | Some (g, l) =>
      match field with
      | None => false
      | Some x => optAll (gte x) g && optAll (lte x) l
      end
  end.

End Mongo.

(* ================================================================== *)
(** * The join shared by both handlers *)
(* ================================================================== *)

Module Pipeline.

Import Store.

(** A flight after [$lookup] and [$addFields]: the candidate of one
    request. *)
Record Candidate : Type := mkCandidate {
  flight : Flight;
  prices : list PriceHistory;
  latestPrice : option R;
  priceCount : nat;
  avgPrice : option R;
  minPrice : option R;
  maxPrice : option R
}.

(** The stages
    [{ $lookup: { from: 'pricehistories', ..., as: 'prices' } }] and
    [{ $addFields: { latestPrice: { $arrayElemAt: ['$prices.price', -1] },
       priceCount: { $size: '$prices' }, avgPrice: { $avg: ... },
       minPrice: { $min: ... }, maxPrice: { $max: ... } } }]. *)
Definition joinPrices (db : DB) (f : Flight) : Candidate :=
  let ps := Mongo.lookup (pricehistories db) f in
  let values := map price ps in
  {| flight := f;
     prices := ps;
     latestPrice := Mongo.arrayElemAt values (-1);
     priceCount := List.length ps;
     avgPrice := Mongo.avg values;
     minPrice := Mongo.min values;
     maxPrice := Mongo.max values |}.

End Pipeline.

(* ================================================================== *)
(** * Tokenisation, term statistics, BM25, cosine, fusion *)
(* ================================================================== *)

Module Scoring.

Local Open Scope R_scope.

(** [const tokenize = (s) =>
      (s || '').replace(/[^a-z0-9\s-]/g, ' ').split(/\s+/).filter(Boolean)] *)
Definition tokenize (s : string) : list string :=
  JS.filterBoolean (JS.splitWs (JS.replaceOutsideClass s)).

(** [if (!vocab.has(t)) vocab.set(t, vocab.size)] *)
Definition addVocab (vocab : JSMap.t nat) (t : string) : JSMap.t nat :=
  if JSMap.has vocab t then vocab else JSMap.set vocab t (JSMap.size vocab).

(** The body of the inner [tokens.forEach] of the vocabulary loop; the
    state is [(vocab, df, seen)]. *)
Definition tokenStep (st : JSMap.t nat * JSMap.t nat * list string)
  (t : string) : JSMap.t nat * JSMap.t nat * list string :=
  let '(vocab, df, seen) := st in
  let vocab' := addVocab vocab t in
  if JSMap.setHas seen t then (vocab', df, seen)
  else (vocab', JSMap.set df t (JSMap.getOr0 df t + 1)%nat,
        JSMap.setAdd seen t).

(** The body of the outer [docTokens.forEach]: a fresh [seen] per
    document. *)
Definition docStep (st : JSMap.t nat * JSMap.t nat) (tokens : list string)
  : JSMap.t nat * JSMap.t nat :=
  let '(vocab, df, _) := fold_left tokenStep tokens (fst st, snd st, []) in
  (vocab, df).

Definition corpusStats (docTokens : list (list string))
  : JSMap.t nat * JSMap.t nat :=
  fold_left docStep docTokens (JSMap.empty nat, JSMap.empty nat).

(** [tf]: [tokens.forEach(t => tf.set(t, (tf.get(t) || 0) + 1))] *)
Definition termFreq (tokens : list string) : JSMap.t nat :=
  fold_left (fun tf t => JSMap.set tf t (JSMap.getOr0 tf t + 1)%nat)
    tokens (JSMap.empty nat).

(** [x.length || 1] *)
Definition lengthOr1 (A : Type) (l : list A) : nat :=
  match List.length l with
  | O => 1%nat
  | n => n
  end.

Definition k1 : R := 1.5.
Definition b : R := 0.75.
Definition epsilon : R := 1e-12.

(** [a.reduce((s, v, i) => s + v * (b[i] || 0), 0)] *)
Fixpoint dotFrom (i : nat) (s : R) (a b : list R) : R :=
  match a with
  | [] => s
  | v :: r => dotFrom (S i) (s + v * nth i b 0) r b
  end.

Definition dot (a b : list R) : R := dotFrom 0 0 a b.

(** [Math.sqrt(dot(a, a)) || 1e-12] *)
Definition norm (a : list R) : R :=
  let n := sqrt (dot a a) in
  if JS.Reqb n 0 then epsilon else n.

(** Min-max scaling of one score array. *)
Definition normalize (arr : list R) : list R :=
  match arr with
  | [] => arr
  | x :: r =>
      let mn := fold_left Rmin r x in
      let mx := fold_left Rmax r x in
      if JS.Rltb (mx - mn) epsilon then map (fun _ => 0) arr
      else map (fun x => (x - mn) / (mx - mn)) arr
  end.

Section Corpus.

Variable docTokens : list (list string).
Variable qTokens : list string.

Definition vocab : JSMap.t nat :=
  fold_left addVocab qTokens (fst (corpusStats docTokens)).

Definition df : JSMap.t nat := snd (corpusStats docTokens).

Definition N : nat := lengthOr1 docTokens.

Definition avgdl : R :=
  INR (fold_left (fun s t => (s + List.length t)%nat) docTokens 0%nat) / INR N.

Definition idf (t : string) : R :=
  ln (1 + (INR N - INR (JSMap.getOr0 df t) + 0.5)
          / (INR (JSMap.getOr0 df t) + 0.5)).

(** The BM25 score of one document. *)
Definition bm25Doc (tokens : list string) : R :=
  let tf := termFreq tokens in
  let dl := lengthOr1 tokens in
  fold_left
    (fun score t =>
       match JSMap.getOr0 tf t with
       | O => score
       | f =>
           score + idf t * ((INR f * (k1 + 1))
                            / (INR f + k1 * (1 - b + b * (INR dl / avgdl))))
       end)
    qTokens 0.

Definition bm25 : list R := map bm25Doc docTokens.

Definition terms : list string :=
  JSMap.dedup (qTokens ++ JSMap.keys vocab).

Definition idfTf : JSMap.t R :=
  JSMap.ofEntries
    (map (fun t => (t, ln ((INR N + 1) / (INR (JSMap.getOr0 df t) + 1)) + 1))
       terms).

(** [idfTf.get(t) || 0] *)
Definition idfTfOr0 (t : string) : R :=
  match JSMap.get idfTf t with
  | Some w => w
  | None => 0
  end.

Definition vec (tokens : list string) : list R :=
  let tf := termFreq tokens in
  map (fun t => INR (JSMap.getOr0 tf t) * idfTfOr0 t) terms.

Definition qv : list R := vec qTokens.

Definition cos : list R :=
  map (fun toks => let dv := vec toks in dot qv dv / (norm qv * norm dv))
    docTokens.

Definition bm25N : list R := normalize bm25.
Definition cosN : list R := normalize cos.

(** An array element used as an operand: [undefined] makes the
    arithmetic yield [NaN]. *)
Definition operand (o : option R) : JS.number :=
  match o with
  | Some x => JS.Fin x
  | None => JS.NaN
  end.

(** [alphaNum*b + (1-alphaNum)*cosN[i]] *)
Definition fuse (alphaNum : JS.number) (bScore : R) (c : option R)
  : JS.number :=
  JS.add (JS.mul alphaNum (JS.Fin bScore))
         (JS.mul (JS.sub (JS.Fin 1) alphaNum) (operand c)).

Fixpoint mapiFrom (A B : Type) (f : A -> nat -> B) (i : nat) (l : list A)
  : list B :=
  match l with
  | [] => []
  | x :: r => f x i :: mapiFrom f (S i) r
  end.

(** [arr.map((x, i) => f(x, i))] *)
Definition mapi (A B : Type) (f : A -> nat -> B) (l : list A) : list B :=
  mapiFrom f 0 l.

Definition hybrid (alphaNum : JS.number) : list JS.number :=
  mapi (fun bScore i => fuse alphaNum bScore (nth_error cosN i)) bm25N.

End Corpus.

End Scoring.

(* ================================================================== *)
(** * [router.get('/hybrid')] *)
(* ================================================================== *)

Module Hybrid.

Import Store Pipeline.
Local Open Scope string_scope.

(** The query parameters after the conversions the handler applies to
    them.
    - [minPrice], [maxPrice]: [None] when the parameter is absent or
      empty (falsy), otherwise the value of [parseFloat].
    - [startDate], [endDate]: [None] when absent or empty, otherwise the
      time value of [new Date(...)].
    - [limit], [page]: [None] when absent, otherwise the value of
      [parseInt].
    - [alpha]: [None] when absent, otherwise the value of [Number]. *)
Record Params : Type := mkParams {
  query : option string;
  from : option string;
  to : option string;
  airline : option string;
  minPrice : option JS.number;
  maxPrice : option JS.number;
  startDate : option Z;
  endDate : option Z;
  sortBy : option string;
  limit : option Z;
  page : option Z;
  alpha : option JS.number
}.

(** One element of [withScores]. *)
Record Scored : Type := mkScored {
  doc : Candidate;
  bm25 : option R;
  cosine : option R;
  hybrid : option JS.number;
  scoreAlpha : JS.number
}.

(** The value of a ratio of two integers after [Math.ceil]. *)
Inductive count : Type :=
| Count (n : Z)
| CountInf
| CountNaN.

Record Pagination : Type := mkPagination {
  currentPage : Z;
  totalPages : count;
  totalResults : nat;
  hasNext : bool;
  hasPrev : bool
}.

(** The [filters] object of the response. *)
Record Applied : Type := mkApplied {
  a_query : option string;
  a_from : option string;
  a_to : option string;
  a_airline : option string;
  a_minPrice : option JS.number;
  a_maxPrice : option JS.number;
  a_startDate : option Z;
  a_endDate : option Z;
  a_sortBy : option string;
  a_alpha : JS.number
}.

(** [res.json({ success: true, ... })], or the [catch] branch
    [res.status(500)]. *)
Inductive Response : Type :=
| Success (data : list Scored) (pagination : Pagination) (filters : Applied)
| Failure (status : nat).

Definition isSome (A : Type) (o : option A) : bool :=
  match o with
  | Some _ => true
  | None => false
  end.

(** A string field of a stored document equals a given string. *)
Definition fieldIs (field : option string) (v : string) : bool :=
  match field with
  | Some s => String.eqb s v
  | None => false
  end.

(** A string field of a stored document matches a regular expression. *)
Definition fieldMatches (test : string -> bool) (field : option string)
  : bool :=
  match field with
  | Some s => test s
  | None => false
  end.

Definition msPerDay : Z := 86400000.

(** [d.setUTCHours(0, 0, 0, 0)], [d.setUTCHours(23, 59, 59, 999)] *)
Definition startOfDayUTC (t : Z) : Z := (t - t mod msPerDay)%Z.
Definition endOfDayUTC (t : Z) : Z := (t - t mod msPerDay + (msPerDay - 1))%Z.

(** [from && from.trim()] *)
Definition given (o : option string) : bool :=
  JS.truthy o && JS.nonEmpty (JS.trim (JS.orEmpty o)).

(** [baseFilter] *)
Definition baseFilter (p : Params) (f : Flight) : bool :=
  isActive f
  && (if given (from p)
      then fieldIs (route_from f) (JS.toUpperCase (JS.orEmpty (from p)))
      else true)
  && (if given (to p)
      then fieldIs (route_to f) (JS.toUpperCase (JS.orEmpty (to p)))
      else true)
  && (if JS.truthy (airline p)
      then fieldIs (Store.airline f) (JS.orEmpty (airline p))
      else true)
  && (if isSome (startDate p) || isSome (endDate p)
      then Mongo.optAll (fun s => (startOfDayUTC s <=? flightDate f)%Z)
             (startDate p)
           && Mongo.optAll (fun e => (flightDate f <=? endOfDayUTC e)%Z)
                (endDate p)
      else true).

(** [textSearchFilter], given the compiled expression. *)
Definition textSearchFilter (test : string -> bool) (f : Flight) : bool :=
  fieldMatches test (Store.airline f)
  || fieldMatches test (route_from f)
  || fieldMatches test (route_to f)
  || fieldMatches test (aircraft f)
  || fieldMatches test (class f).

(** The [$match] on [latestPrice] pushed when [minPrice || maxPrice]. *)
Definition priceFilter (p : Params) : option Mongo.Range :=
  if isSome (minPrice p) || isSome (maxPrice p)
  then Some (minPrice p, maxPrice p)
  else None.

(** [(d.latestPrice ?? Infinity) >= minP &&
     (d.latestPrice ?? -Infinity) <= maxP] *)
Definition inRange (minP maxP : JS.number) (d : Candidate) : bool :=
  JS.ge (JS.orElse (latestPrice d) JS.PInf) minP
  && JS.le (JS.orElse (latestPrice d) JS.NInf) maxP.

Definition orDefault (A : Type) (o : option A) (d : A) : A :=
  match o with
  | Some a => a
  | None => d
  end.

(** [Flight.aggregate(pipeline)] *)
Definition aggregate (db : DB) (combined : Flight -> bool) (p : Params)
  : list Candidate :=
  filter (fun d => Mongo.matchRange (priceFilter p) (latestPrice d))
    (map (joinPrices db) (filter combined (flights db))).

(** [filtered] *)
Definition filterFetched (p : Params) (candidates : list Candidate)
  : list Candidate :=
  if isSome (minPrice p) || isSome (maxPrice p)
  then filter (inRange (orDefault (minPrice p) JS.NInf)
                       (orDefault (maxPrice p) JS.PInf)) candidates
  else candidates.

(** [Math.max(0, Math.min(1, Number(alpha)))], with the default 0.5 *)
Definition alphaNum (p : Params) : JS.number :=
  JS.Math_max (JS.Fin 0)
    (JS.Math_min (JS.Fin 1) (orDefault (alpha p) (JS.Fin 0.5))).

(** The text of a candidate before [.toLowerCase()]:
    [[d.airline || '', d.route?.from || '', d.route?.to || '',
      d.aircraft || '', d.class || ''].join(' ')] *)
Definition fieldsOf (d : Candidate) : string :=
  JS.join " " [JS.orEmpty (Store.airline (flight d));
               JS.orEmpty (route_from (flight d));
               JS.orEmpty (route_to (flight d));
               JS.orEmpty (aircraft (flight d));
               JS.orEmpty (class (flight d))].

(** [textOf] *)
Definition textOf (d : Candidate) : string := JS.toLowerCase (fieldsOf d).

(** The query text before [.toLowerCase()]:
    [query || [from, to, airline].filter(Boolean).join(' ')] *)
Definition queryFields (p : Params) : string :=
  if JS.truthy (query p) then JS.orEmpty (query p)
  else JS.join " " (JS.filterTruthy [from p; to p; airline p]).

(** [q] *)
Definition queryText (p : Params) : string := JS.toLowerCase (queryFields p).

Definition docTokens (filtered : list Candidate) : list (list string) :=
  map Scoring.tokenize (map textOf filtered).

Definition qTokens (p : Params) : list string :=
  Scoring.tokenize (queryText p).

(** [withScores] *)
Definition withScores (p : Params) (filtered : list Candidate)
  : list Scored :=
  let dts := docTokens filtered in
  let qts := qTokens p in
  let a := alphaNum p in
  Scoring.mapi
    (fun d i =>
       {| doc := d;
          bm25 := nth_error (Scoring.bm25N dts qts) i;
          cosine := nth_error (Scoring.cosN dts qts) i;
          hybrid := nth_error (Scoring.hybrid dts qts a) i;
          scoreAlpha := a |})
    filtered.

(** A property read in a comparator: [undefined] yields [NaN]. *)
Definition numOf (o : option JS.number) : JS.number :=
  orDefault o JS.NaN.

Definition byPriceAsc (x y : Scored) : JS.number :=
  JS.sub (JS.orElse (latestPrice (doc x)) JS.PInf)
         (JS.orElse (latestPrice (doc y)) JS.PInf).

Definition byPriceDesc (x y : Scored) : JS.number :=
  JS.sub (JS.orElse (latestPrice (doc y)) JS.NInf)
         (JS.orElse (latestPrice (doc x)) JS.NInf).

Definition byDateAsc (x y : Scored) : JS.number :=
  JS.Fin (IZR (flightDate (flight (doc x)) - flightDate (flight (doc y)))).

Definition byDateDesc (x y : Scored) : JS.number :=
  JS.Fin (IZR (flightDate (flight (doc y)) - flightDate (flight (doc x)))).

(** [(a,b) => b._scores.hybrid - a._scores.hybrid] *)
Definition byRelevance (x y : Scored) : JS.number :=
  JS.sub (numOf (hybrid y)) (numOf (hybrid x)).

(** The [switch (sortBy)]. *)
Definition comparator (sortBy : string) : Scored -> Scored -> JS.number :=
  if String.eqb sortBy "price_asc" then byPriceAsc
  else if String.eqb sortBy "price_desc" then byPriceDesc
  else if String.eqb sortBy "date_asc" then byDateAsc
  else if String.eqb sortBy "date_desc" then byDateDesc
  else byRelevance.

Definition sorted (p : Params) (ws : list Scored) : list Scored :=
  JS.sort (comparator (orDefault (sortBy p) "relevance")) ws.

(** [Math.ceil(total / limit)] on integers *)
Definition ceilDiv (total lim : Z) : count :=
  if (lim =? 0)%Z then
    if (total =? 0)%Z then CountNaN else CountInf
  else Count (- ((- total) / lim))%Z.

(** [pageNum < totalPages] *)
Definition below (n : Z) (c : count) : bool :=
  match c with
  | Count m => (n <? m)%Z
  | CountInf => true
  | CountNaN => false
  end.

Definition limitOf (p : Params) : Z := orDefault (limit p) 20%Z.
Definition pageOf (p : Params) : Z := orDefault (page p) 1%Z.

Definition paginate (p : Params) (items : list Scored)
  : list Scored * Pagination :=
  let total := List.length items in
  let tp := ceilDiv (Z.of_nat total) (limitOf p) in
  let pageNum := pageOf p in
  (JS.slice items ((pageNum - 1) * limitOf p)%Z (pageNum * limitOf p)%Z,
   {| currentPage := pageNum;
      totalPages := tp;
      totalResults := total;
      hasNext := below pageNum tp;
      hasPrev := (1 <? pageNum)%Z |}).

Definition applied (p : Params) : Applied :=
  {| a_query := query p; a_from := from p; a_to := to p;
     a_airline := airline p; a_minPrice := minPrice p;
     a_maxPrice := maxPrice p; a_startDate := startDate p;
     a_endDate := endDate p; a_sortBy := sortBy p;
     a_alpha := alphaNum p |}.

Section Handler.

(** [new RegExp(source, 'i')]: [None] when the constructor throws on the
    source, otherwise the test of a string against the expression. *)
Variable RegExp_i : string -> option (string -> bool).

(** [combinedFilter]: the conjunction of [baseFilter] and
    [textSearchFilter]; [None] when the expression does not compile. *)
Definition combinedFilter (p : Params) : option (Flight -> bool) :=
  if given (query p) then
    match RegExp_i (JS.trim (JS.orEmpty (query p))) with
    | Some test => Some (fun f => baseFilter p f && textSearchFilter test f)
    | None => None
    end
  else Some (baseFilter p).

(** The candidates after retrieval and price filtering. *)
Definition candidates (db : DB) (p : Params) : option (list Candidate) :=
  match combinedFilter p with
  | Some combined => Some (filterFetched p (aggregate db combined p))
  | None => None
  end.

(** The elements of [sorted]: every scored candidate of the request, in
    the order of the selected strategy. *)
Definition ranked (db : DB) (p : Params) : option (list Scored) :=
  match candidates db p with
  | Some filtered => Some (sorted p (withScores p filtered))
  | None => None
  end.

(** The handler. *)
Definition handle (db : DB) (p : Params) : Response :=
  match ranked db p with
  | Some items =>
      let '(paged, pg) := paginate p items in
      Success paged pg (applied p)
  | None => Failure 500
  end.

End Handler.

(** A constructor of regular expressions for sources without
    metacharacters: the case-insensitive search of the source in the
    subject. *)
Fixpoint isPrefix (pat s : string) : bool :=
  match pat, s with
  | EmptyString, _ => true
  | String a pr, String c sr => Ascii.eqb a c && isPrefix pr sr
  | String _ _, EmptyString => false
  end.

Fixpoint contains (pat s : string) : bool :=
  isPrefix pat s
  || match s with
     | EmptyString => false
     | String _ r => contains pat r
     end.

Definition literalRegExp (source : string) : option (string -> bool) :=
  Some (fun s => contains (JS.toLowerCase source) (JS.toLowerCase s)).

End Hybrid.

(* ================================================================== *)
(** * [router.get('/advanced')] *)
(* ================================================================== *)

Module Advanced.

Import Store Pipeline.
Local Open Scope R_scope.

(** The request body.  Numbers of a JSON body are finite; a bound of the
    price range counts as given when it is truthy, that is, not [0].
    [routes] are pairs of origin and destination, [dateRange] holds the
    time values of [new Date(...)], [limit] is the value of [parseInt]
    ([None] when absent). *)
Record Body : Type := mkBody {
  routes : option (list (string * string));
  airlines : option (list string);
  priceRange : option (option R * option R);
  dateRange : option (option Z * option Z);
  flightClass : option string;
  sortBy : option string;
  limit : option Z
}.

(** A candidate with the fields the second [$addFields] stages add;
    [null] is [None]. *)
Record Ranked : Type := mkRanked {
  cand : Candidate;
  priceVariance : option R;
  relevanceScore : option R
}.

(** A truthy number of the body. *)
Definition truthyNum (o : option R) : option JS.number :=
  match o with
  | Some x => if JS.Reqb x 0 then None else Some (JS.Fin x)
  | None => None
  end.

(** [priceFilter]: an empty object when neither bound is given. *)
Definition priceFilter (body : Body) : option (option Mongo.Range) :=
  match priceRange body with
  | None => None
  | Some (mn, mx) =>
      match truthyNum mn, truthyNum mx with
      | None, None => Some None
      | g, l => Some (Some (g, l))
      end
  end.

(** The BSON order on a numeric field that may be [null] or missing:
    [null] is below every number. *)
Definition bsonLt (x y : option R) : bool :=
  match x, y with
  | None, Some _ => true
  | Some a, Some c => JS.Rltb a c
  | _, None => false
  end.

(** [$divide]: [null] when an operand is [null]; the aggregation fails on
    a zero divisor (outer [None]). *)
Definition divide (x y : option R) : option (option R) :=
  match x, y with
  | Some a, Some c => if JS.Reqb c 0 then None else Some (Some (a / c))
  | _, _ => Some None
  end.

(** The [relevanceScore] expression; [now] is [new Date()]. *)
Definition score (now : Z) (d : Candidate) (variance : option R) : option R :=
  let base := if (0 <? priceCount d)%nat then 5 else 0 in
  let stability :=
    if bsonLt variance (Some 0.1) then 3
    else if bsonLt variance (Some 0.2) then 2 else 1 in
  let recency := if (now <=? flightDate (flight d))%Z then 2 else 0 in
  match latestPrice d with
  | Some lp => Some (base + stability + recency + (1000 - lp) * 0.001)
  | None => None
  end.

Definition rank (now : Z) (d : Candidate) : option Ranked :=
  match divide (Mongo.stdDevPop (map price (prices d)))
               (Mongo.avg (map price (prices d))) with
  | Some v =>
      Some {| cand := d; priceVariance := v; relevanceScore := score now d v |}
  | None => None
  end.

Fixpoint traverse (A B : Type) (f : A -> option B) (l : list A)
  : option (list B) :=
  match l with
  | [] => Some []
  | x :: r =>
      match f x, traverse f r with
      | Some y, Some ys => Some (y :: ys)
      | _, _ => None
      end
  end.

(** [x] comes behind [y] under [{ relevanceScore: -1, latestPrice: 1 }]. *)
Definition afterRelevance (x y : Ranked) : bool :=
  bsonLt (relevanceScore x) (relevanceScore y)
  || (negb (bsonLt (relevanceScore y) (relevanceScore x))
      && bsonLt (latestPrice (cand y)) (latestPrice (cand x))).

Definition afterPriceAsc (x y : Ranked) : bool :=
  bsonLt (latestPrice (cand y)) (latestPrice (cand x)).

Definition afterPriceDesc (x y : Ranked) : bool :=
  bsonLt (latestPrice (cand x)) (latestPrice (cand y)).

Definition afterDateAsc (x y : Ranked) : bool :=
  (flightDate (flight (cand y)) <? flightDate (flight (cand x)))%Z.

Definition afterDateDesc (x y : Ranked) : bool :=
  (flightDate (flight (cand x)) <? flightDate (flight (cand y)))%Z.

(** The [switch (sortBy)] that chooses [sortStage]. *)
Definition sortStage (sortBy : string) : Ranked -> Ranked -> bool :=
  if String.eqb sortBy "price_asc" then afterPriceAsc
  else if String.eqb sortBy "price_desc" then afterPriceDesc
  else if String.eqb sortBy "date_asc" then afterDateAsc
  else if String.eqb sortBy "date_desc" then afterDateDesc
  else afterRelevance.

Definition limitOf (body : Body) : Z := Hybrid.orDefault (limit body) 20%Z.

Section Handler.

(** The evaluation of [matchStage] (routes, airlines, class and date
    range of the body) on a stored flight. *)
Variable matchStage : Body -> Flight -> bool.

(** The time of the request, [new Date()]. *)
Variable now : Z.

(** The documents entering [$sort]: [$match], [$lookup], the first
    [$addFields] (whose [$divide] fails the aggregation on a zero
    average, for every matched flight), the optional [$match] on
    [latestPrice], and the [$addFields] of the score, which cannot fail
    and is evaluated here together with the first one. *)
Definition scored (db : DB) (body : Body) : option (list Ranked) :=
  let joined := map (joinPrices db) (filter (matchStage body) (flights db)) in
  match traverse (fun d => rank now d) joined with
  | Some ds =>
      Some match priceFilter body with
           | Some cond =>
               filter (fun r => Mongo.matchRange cond (latestPrice (cand r)))
                 ds
           | None => ds
           end
  | None => None
  end.

(** The result of the pipeline: [$sort], then [$limit] (which demands a
    positive limit).  Documents that the sort keys do not order are kept
    in their input order. *)
Definition results (db : DB) (body : Body) : option (list Ranked) :=
  match scored db body with
  | Some ds =>
      if (0 <? limitOf body)%Z then
        Some (firstn (Z.to_nat (limitOf body))
                (JS.stableSort
                   (sortStage (Hybrid.orDefault (sortBy body) "relevance"%string))
                   ds))
      else None
  | None => None
  end.

End Handler.

End Advanced.

(* ================================================================== *)
(** * The specification's own wording, for comparison with the code *)
(* ================================================================== *)

Module Spec.

Import Store.

(** Section 3: the observation with the maximum capture timestamp among
    the observations of a record (the earliest stored one when several
    share that timestamp). *)
Fixpoint maxByTimestamp (ps : list PriceHistory) : option PriceHistory :=
  match ps with
  | [] => None
  | p :: r =>
      match maxByTimestamp r with
      | None => Some p
      | Some q => if (timestamp q <=? timestamp p)%Z then Some p else Some q
      end
  end.

(** Section 4.2, "split on runs of whitespace, drop empty tokens": the
    maximal runs of characters that are not whitespace.  [cur] is the run
    being read. *)
Fixpoint wordsFrom (cur : string) (s : string) : list string :=
  match s with
  | EmptyString => if JS.nonEmpty cur then [cur] else []
  | String c r =>
      if JS.isSpace c then
        if JS.nonEmpty cur then cur :: wordsFrom EmptyString r
        else wordsFrom EmptyString r
      else wordsFrom (cur ++ String c EmptyString) r
  end.

(** Section 4.2, "replace every character outside [[a-z0-9\s-]] with a
    space". *)
Fixpoint blankOutside (s : string) : string :=
  match s with
  | EmptyString => EmptyString
  | String c r =>
      String (if JS.isLower c || JS.isDigit c || JS.isSpace c || JS.isHyphen c
              then c else " "%char)
             (blankOutside r)
  end.

(** Section 4.2: the Tokenizer. *)
Definition tokenizer (s : string) : list string :=
  wordsFrom EmptyString (blankOutside (JS.toLowerCase s)).

(** A character a token may contain. *)
Definition tokenChar (c : ascii) : bool :=
  JS.isLower c || JS.isDigit c || JS.isHyphen c.

Definition wellFormedToken (t : string) : bool :=
  JS.nonEmpty t && forallb tokenChar (list_ascii_of_string t).

(** Section 4.3, document frequency: the number of candidate documents
    that contain the term at least once. *)
Definition contains (t : string) (tokens : list string) : bool :=
  existsb (String.eqb t) tokens.

Definition docCount (t : string) (docs : list (list string)) : nat :=
  List.length (filter (contains t) docs).

(** Section 4.8, the [relevance] order: a candidate precedes another one
    only if its score is greater, or the scores are equal and its latest
    value is not greater.  A missing latest value is given by [None]. *)
Definition precedes (sx sy : R) (lx ly : option R) : Prop :=
  (sy < sx)%R
  \/ (sx = sy /\ match lx, ly with
                | Some a, Some b => (a <= b)%R
                | _, _ => True
                end).

(** Section 8: the order of the pure lexical ranking and of the pure
    vector ranking, by the normalised component score, descending. *)
Definition byBm25 (x y : Hybrid.Scored) : JS.number :=
  JS.sub (Scoring.operand (Hybrid.bm25 y)) (Scoring.operand (Hybrid.bm25 x)).

Definition byCosine (x y : Hybrid.Scored) : JS.number :=
  JS.sub (Scoring.operand (Hybrid.cosine y))
         (Scoring.operand (Hybrid.cosine x)).

(** Section 4.8, "total pages (ceil)": [n] is the ceiling of
    [total / size]. *)
Definition isCeil (total size n : Z) : Prop :=
  ((n - 1) * size < total <= n * size)%Z.

End Spec.

(* ================================================================== *)
(** * Concrete requests and databases *)
(* ================================================================== *)

Module Examples.

Import Store.
Local Open Scope string_scope.
Local Open Scope R_scope.

(** A request without any parameter. *)
Definition noParams : Hybrid.Params :=
  {| Hybrid.query := None; Hybrid.from := None; Hybrid.to := None;
     Hybrid.airline := None; Hybrid.minPrice := None;
     Hybrid.maxPrice := None; Hybrid.startDate := None;
     Hybrid.endDate := None; Hybrid.sortBy := None; Hybrid.limit := None;
     Hybrid.page := None; Hybrid.alpha := None |}.

Definition withAlpha (a : JS.number) (p : Hybrid.Params) : Hybrid.Params :=
  {| Hybrid.query := Hybrid.query p; Hybrid.from := Hybrid.from p;
     Hybrid.to := Hybrid.to p; Hybrid.airline := Hybrid.airline p;
     Hybrid.minPrice := Hybrid.minPrice p;
     Hybrid.maxPrice := Hybrid.maxPrice p;
     Hybrid.startDate := Hybrid.startDate p;
     Hybrid.endDate := Hybrid.endDate p; Hybrid.sortBy := Hybrid.sortBy p;
     Hybrid.limit := Hybrid.limit p; Hybrid.page := Hybrid.page p;
     Hybrid.alpha := Some a |}.

Definition withMinPrice (v : JS.number) (p : Hybrid.Params) : Hybrid.Params :=
  {| Hybrid.query := Hybrid.query p; Hybrid.from := Hybrid.from p;
     Hybrid.to := Hybrid.to p; Hybrid.airline := Hybrid.airline p;
     Hybrid.minPrice := Some v;
     Hybrid.maxPrice := Hybrid.maxPrice p;
     Hybrid.startDate := Hybrid.startDate p;
     Hybrid.endDate := Hybrid.endDate p; Hybrid.sortBy := Hybrid.sortBy p;
     Hybrid.limit := Hybrid.limit p; Hybrid.page := Hybrid.page p;
     Hybrid.alpha := Hybrid.alpha p |}.

Definition withPaging (pg lim : Z) (p : Hybrid.Params) : Hybrid.Params :=
  {| Hybrid.query := Hybrid.query p; Hybrid.from := Hybrid.from p;
     Hybrid.to := Hybrid.to p; Hybrid.airline := Hybrid.airline p;
     Hybrid.minPrice := Hybrid.minPrice p;
     Hybrid.maxPrice := Hybrid.maxPrice p;
     Hybrid.startDate := Hybrid.startDate p;
     Hybrid.endDate := Hybrid.endDate p; Hybrid.sortBy := Hybrid.sortBy p;
     Hybrid.limit := Some lim; Hybrid.page := Some pg;
     Hybrid.alpha := Hybrid.alpha p |}.

Definition emirates : Flight :=
  {| _id := 1; route_from := Some "DXB"; route_to := Some "LHR";
     airline := Some "Emirates"; aircraft := Some "A380";
     class := Some "Economy"; flightDate := 1772323200000;
     isActive := true |}.

Definition singapore : Flight :=
  {| _id := 2; route_from := Some "SIN"; route_to := Some "BKK";
     airline := Some "Singapore"; aircraft := Some "A350";
     class := Some "Economy"; flightDate := 1772409600000;
     isActive := true |}.

(** Two observations of flight 1, the one captured on 2026-01-02 stored
    before the one captured on 2026-01-01. *)
Definition outOfOrder : DB :=
  {| flights := [emirates];
     pricehistories :=
       [ {| flightId := 1; price := 450; timestamp := 1767312000000 |};
         {| flightId := 1; price := 400; timestamp := 1767225600000 |} ] |}.

(** Flight 1 with one observation of 200, flight 2 with one of 100. *)
Definition twoPriced : DB :=
  {| flights := [emirates; singapore];
     pricehistories :=
       [ {| flightId := 1; price := 200; timestamp := 1767225600000 |};
         {| flightId := 2; price := 100; timestamp := 1767225600000 |} ] |}.

(** Flight 1 with one observation, flight 2 with none. *)
Definition onePriced : DB :=
  {| flights := [emirates; singapore];
     pricehistories :=
       [ {| flightId := 1; price := 200; timestamp := 1767225600000 |} ] |}.

(** A scored candidate, for arrays of a given length. *)
Definition scoredEmirates : Hybrid.Scored :=
  {| Hybrid.doc := Pipeline.joinPrices twoPriced emirates;
     Hybrid.bm25 := Some 0; Hybrid.cosine := Some 0;
     Hybrid.hybrid := Some (JS.Fin 0); Hybrid.scoreAlpha := JS.Fin 0.5 |}.

(** The token lists of section 8's example. *)
Definition docA : list string := Scoring.tokenize "emirates dxb lhr".
Definition docB : list string := Scoring.tokenize "singapore sin bkk".
Definition queryAB : list string := Scoring.tokenize "emirates lhr".

(** A body without any field. *)
Definition noBody : Advanced.Body :=
  {| Advanced.routes := None; Advanced.airlines := None;
     Advanced.priceRange := None; Advanced.dateRange := None;
     Advanced.flightClass := None; Advanced.sortBy := None;
     Advanced.limit := None |}.

(** A [matchStage] for bodies without route, airline, class and date
    conditions: the active flights. *)
Definition activeOnly (_ : Advanced.Body) (f : Flight) : bool := isActive f.

End Examples.

(* ================================================================== *)
(** * Auxiliary notions of the proofs *)
(* ================================================================== *)

(** The pieces of a JavaScript split, the first one continuing [cur]. *)
Definition continued (cur : string) (pieces : list string) : list string :=
  match pieces with
  | p :: ps => (cur ++ p)%string :: ps
  | [] => [cur]
  end.

Local Open Scope R_scope.

(** One summand of the BM25 score. *)
Definition bm25Term (docs : list (list string)) (tokens : list string)
  (t : string) : R :=
  match JSMap.getOr0 (Scoring.termFreq tokens) t with
  | O => 0
  | (S _) as f =>
      Scoring.idf docs t
      * ((INR f * (Scoring.k1 + 1))
         / (INR f + Scoring.k1
                    * (1 - Scoring.b
                       + Scoring.b * (INR (Scoring.lengthOr1 tokens)
                                      / Scoring.avgdl docs))))
  end.

Local Close Scope R_scope.

(* ================================================================== *)
(** * Notions used to state further properties of the handlers *)
(* ================================================================== *)

Module Props.

Local Open Scope R_scope.

(** The string consists of ASCII characters, the range on which
    [toUpperCase], [toLowerCase] and [trim] are modelled as JavaScript
    defines them. *)
Definition plainAscii (s : string) : bool :=
  forallb (fun c => (JS.code c <? 128)%nat) (list_ascii_of_string s).

(** [lx] may stand before [ly] where latest prices ascend and the
    candidates without price come last. *)
Definition priceAscending (lx ly : option R) : Prop :=
  match lx, ly with
  | Some u, Some v => u <= v
  | None, Some _ => False
  | _, None => True
  end.

(** [lx] may stand before [ly] where latest prices descend and the
    candidates without price come last. *)
Definition priceDescending (lx ly : option R) : Prop :=
  match lx, ly with
  | Some u, Some v => v <= u
  | None, Some _ => False
  | _, None => True
  end.

(** The fused score of a scored candidate, when it is a finite number. *)
Definition fusedIs (x : Hybrid.Scored) (u : R) : Prop :=
  Hybrid.hybrid x = Some (JS.Fin u).

(** The items of page [k] (counted from 1) of size [size]. *)
Definition pageItems (A : Type) (size : nat) (items : list A) (k : nat)
  : list A :=
  firstn size (skipn ((k - 1) * size) items).

(** The values of a vocabulary are the positions of its entries. *)
Definition indexed (m : JSMap.t nat) : Prop :=
  map snd m = seq 0 (List.length m).

(** The sum of [h] over the elements of a list. *)
Definition sumOver (A : Type) (h : A -> R) (l : list A) : R :=
  fold_right (fun t acc => h t + acc) 0 l.

(** The BSON order on a numeric field that may be missing: a missing
    value is below every number. *)
Definition bsonLe (x y : option R) : Prop :=
  match x, y with
  | None, _ => True
  | Some u, Some v => u <= v
  | Some _, None => False
  end.

(** A document with score [sx] and latest price [lx] may stand before one
    with [sy] and [ly] under [{ relevanceScore: -1, latestPrice: 1 }]. *)
Definition advancedBefore (sx sy lx ly : option R) : Prop :=
  match sx, sy with
  | Some a, Some c => c < a \/ (a = c /\ bsonLe lx ly)
  | Some _, None => True
  | None, Some _ => False
  | None, None => bsonLe lx ly
  end.

(** The UTC day (days since the epoch) of a time value. *)
Definition utcDay (t : Z) : Z := (t / Hybrid.msPerDay)%Z.

End Props.

Module Samples.

Import Store.
Local Open Scope string_scope.

(** A request that names a sort strategy and nothing else. *)
Definition sortedBy (s : string) : Hybrid.Params :=
  {| Hybrid.query := None; Hybrid.from := None; Hybrid.to := None;
     Hybrid.airline := None; Hybrid.minPrice := None;
     Hybrid.maxPrice := None; Hybrid.startDate := None;
     Hybrid.endDate := None; Hybrid.sortBy := Some s; Hybrid.limit := None;
     Hybrid.page := None; Hybrid.alpha := None |}.

(** A request for the flights of one UTC day. *)
Definition onDay (t : Z) : Hybrid.Params :=
  {| Hybrid.query := None; Hybrid.from := None; Hybrid.to := None;
     Hybrid.airline := None; Hybrid.minPrice := None;
     Hybrid.maxPrice := None; Hybrid.startDate := Some t;
     Hybrid.endDate := Some t; Hybrid.sortBy := None; Hybrid.limit := None;
     Hybrid.page := None; Hybrid.alpha := None |}.

(** A request for the flights from the UTC day of [t] on. *)
Definition since (t : Z) : Hybrid.Params :=
  {| Hybrid.query := None; Hybrid.from := None; Hybrid.to := None;
     Hybrid.airline := None; Hybrid.minPrice := None;
     Hybrid.maxPrice := None; Hybrid.startDate := Some t;
     Hybrid.endDate := None; Hybrid.sortBy := None; Hybrid.limit := None;
     Hybrid.page := None; Hybrid.alpha := None |}.

(** The request [p] without its date bounds. *)
Definition withoutDates (p : Hybrid.Params) : Hybrid.Params :=
  {| Hybrid.query := Hybrid.query p; Hybrid.from := Hybrid.from p;
     Hybrid.to := Hybrid.to p; Hybrid.airline := Hybrid.airline p;
     Hybrid.minPrice := Hybrid.minPrice p;
     Hybrid.maxPrice := Hybrid.maxPrice p;
     Hybrid.startDate := None; Hybrid.endDate := None;
     Hybrid.sortBy := Hybrid.sortBy p;
     Hybrid.limit := Hybrid.limit p; Hybrid.page := Hybrid.page p;
     Hybrid.alpha := Hybrid.alpha p |}.

(** A request for a route, with the origin in lower case. *)
Definition fromDxb : Hybrid.Params :=
  {| Hybrid.query := None; Hybrid.from := Some "dxb"; Hybrid.to := None;
     Hybrid.airline := None; Hybrid.minPrice := None;
     Hybrid.maxPrice := None; Hybrid.startDate := None;
     Hybrid.endDate := None; Hybrid.sortBy := None; Hybrid.limit := None;
     Hybrid.page := None; Hybrid.alpha := None |}.

(** A request with both price bounds. *)
Definition pricedBetween (lo hi : R) : Hybrid.Params :=
  {| Hybrid.query := None; Hybrid.from := None; Hybrid.to := None;
     Hybrid.airline := None; Hybrid.minPrice := Some (JS.Fin lo);
     Hybrid.maxPrice := Some (JS.Fin hi); Hybrid.startDate := None;
     Hybrid.endDate := None; Hybrid.sortBy := None; Hybrid.limit := None;
     Hybrid.page := None; Hybrid.alpha := None |}.

(** The request [p] with another origin. *)
Definition withFrom (s : option string) (p : Hybrid.Params) : Hybrid.Params :=
  {| Hybrid.query := Hybrid.query p; Hybrid.from := s;
     Hybrid.to := Hybrid.to p; Hybrid.airline := Hybrid.airline p;
     Hybrid.minPrice := Hybrid.minPrice p;
     Hybrid.maxPrice := Hybrid.maxPrice p;
     Hybrid.startDate := Hybrid.startDate p;
     Hybrid.endDate := Hybrid.endDate p; Hybrid.sortBy := Hybrid.sortBy p;
     Hybrid.limit := Hybrid.limit p; Hybrid.page := Hybrid.page p;
     Hybrid.alpha := Hybrid.alpha p |}.

End Samples.

(* ================================================================== *)
(** * The price router: the first module of [routes/prices.js] *)
(* ================================================================== *)

Module Prices.

Import Store.
Local Open Scope string_scope.

(** [filter.timestamp = { $gte: new Date(startDate), $lte: new Date(endDate) }],
    each bound present when its parameter is given. *)
Definition inWindow (startDate endDate : option Z) (p : PriceHistory) : bool :=
  Mongo.optAll (fun s => (s <=? timestamp p)%Z) startDate
  && Mongo.optAll (fun e => (timestamp p <=? e)%Z) endDate.

(** [.sort({ timestamp: -1 })] and [.sort({ timestamp: 1 })]; documents
    with equal timestamps are kept in storage order. *)
Definition newestFirst (l : list PriceHistory) : list PriceHistory :=
  JS.stableSort (fun x y => (timestamp x <? timestamp y)%Z) l.

Definition oldestFirst (l : list PriceHistory) : list PriceHistory :=
  JS.stableSort (fun x y => (timestamp y <? timestamp x)%Z) l.

(** [.limit(n)]: no limit for 0, the absolute value for a negative
    number. *)
Definition limitTo (A : Type) (n : Z) (l : list A) : list A :=
  if (n =? 0)%Z then l else firstn (Z.to_nat (Z.abs n)) l.

(** [.populate('flightId', ...)]: the flight document beside the price
    document, when it exists. *)
Definition populate (db : DB) (p : PriceHistory)
  : PriceHistory * option Flight :=
  (p, find (fun f => Nat.eqb (_id f) (flightId p)) (flights db)).

(** A flight identifier as a request carries it: a string that is the
    24 hexadecimal digits of an [ObjectId], or any other non-empty
    string, which makes the cast of a query or of a document fail. *)
Inductive FlightRef : Type :=
| ObjectId (id : nat)
| NotAnId.

(** ** [router.get('/flight/:flightId')], for an identifier that is an
    [ObjectId] *)

Definition flightHistory (db : DB) (id : nat) (startDate endDate : option Z)
  (limit : option Z) : list (PriceHistory * option Flight) :=
  map (populate db)
    (limitTo (Hybrid.orDefault limit 100%Z)
       (newestFirst
          (filter (fun p => Nat.eqb (flightId p) id
                            && inWindow startDate endDate p)
             (pricehistories db)))).

(** ** [router.get('/route/:from-:to')] *)

(** [flightFilter]: the second assignment to [flightFilter.flightDate]
    replaces the first one. *)
Definition flightDateCondition (startDate endDate : option Z) (f : Flight)
  : bool :=
  match endDate with
  | Some e => (flightDate f <=? e)%Z
  | None =>
      match startDate with
      | Some s => (s <=? flightDate f)%Z
      | None => true
      end
  end.

Definition flightFilter (from to : string) (airline : option string)
  (startDate endDate : option Z) (f : Flight) : bool :=
  Hybrid.fieldIs (route_from f) (JS.toUpperCase from)
  && Hybrid.fieldIs (route_to f) (JS.toUpperCase to)
  && isActive f
  && (if JS.truthy airline
      then Hybrid.fieldIs (Store.airline f) (JS.orEmpty airline)
      else true)
  && flightDateCondition startDate endDate f.

Inductive RouteResponse : Type :=
| NoFlights
| RoutePrices (data : list (PriceHistory * option Flight)).

Definition routeHistory (db : DB) (from to : string) (airline : option string)
  (startDate endDate : option Z) (limit : option Z) : RouteResponse :=
  let flightIds :=
    map _id (filter (flightFilter from to airline startDate endDate)
               (flights db)) in
  match flightIds with
  | [] => NoFlights
  | _ :: _ =>
      RoutePrices
        (map (populate db)
           (limitTo (Hybrid.orDefault limit 100%Z)
              (newestFirst
                 (filter (fun p => existsb (Nat.eqb (flightId p)) flightIds
                                   && inWindow startDate endDate p)
                    (pricehistories db)))))
  end.

(** ** [router.post('/')] *)

(** The body, for a JSON body whose [price] is a number and whose optional
    fields ([currency], [source], [metadata]) are absent or of the types
    of the schema: [None] is a missing field. *)
Record NewPrice : Type := mkNewPrice {
  np_flightId : option FlightRef;
  np_price : option R
}.

Inductive PostResponse : Type :=
| Created (saved : PriceHistory)
| BadRequest
| NotFound
| ServerError.

(** The handler: the response and the database after it.  [flightId] is
    falsy when it is missing, [price] when it is missing or 0.
    [Flight.findById] rejects an identifier that is no [ObjectId], which
    the [catch] answers with status 500.  [now] is [Date.now()], the
    default of the [timestamp] field.  The new document is listed last;
    the properties below do not depend on its place. *)
Definition addPrice (now : Z) (db : DB) (body : NewPrice)
  : PostResponse * DB :=
  match np_flightId body, np_price body with
  | Some ref, Some x =>
      if JS.Reqb x 0 then (BadRequest, db)
      else
        match ref with
        | NotAnId => (ServerError, db)
        | ObjectId id =>
            match find (fun f => Nat.eqb (_id f) id) (flights db) with
            | None => (NotFound, db)
            | Some _ =>
                let saved :=
                  {| flightId := id; price := x; timestamp := now |} in
                (Created saved,
                 {| flights := flights db;
                    pricehistories := (pricehistories db ++ [saved])%list |})
            end
        end
  | _, _ => (BadRequest, db)
  end.

(** ** [router.get('/stats/:flightId')] *)

(** The quotient [(last - first) / first * 100] that [toFixed(2)]
    formats. *)
Definition percentChange (change first : R) : JS.number :=
  if JS.Reqb first 0 then
    if JS.Rltb 0 change then JS.PInf
    else if JS.Rltb change 0 then JS.NInf else JS.NaN
  else JS.Fin (change / first * 100)%R.

Record Stats : Type := mkStats {
  count : nat;
  min : R;
  max : R;
  avg : R;
  latest : R;
  first : R;
  priceChange : R;
  priceChangePercent : JS.number;
  data : list PriceHistory
}.

Inductive StatsResponse : Type :=
| StatsFailure
| NoPriceData
| Statistics (st : Stats).

(** The handler.  [PriceHistory.find] rejects an identifier that is no
    [ObjectId], which the [catch] answers with status 500
    ([StatsFailure]). *)
Definition stats (db : DB) (ref : FlightRef) (startDate endDate : option Z)
  : StatsResponse :=
  match ref with
  | NotAnId => StatsFailure
  | ObjectId id =>
      let prices :=
        oldestFirst
          (filter (fun p => Nat.eqb (flightId p) id
                            && inWindow startDate endDate p)
             (pricehistories db)) in
      match prices with
      | [] => NoPriceData
      | p0 :: rest =>
          let priceValues := map price prices in
          let lastPrice := price (last rest p0) in
          Statistics
            {| count := List.length prices;
               min := fold_left Rmin (map price rest) (price p0);
               max := fold_left Rmax (map price rest) (price p0);
               avg := (fold_left Rplus priceValues 0
                       / INR (List.length priceValues))%R;
               latest := lastPrice;
               first := price p0;
               priceChange := (lastPrice - price p0)%R;
               priceChangePercent :=
                 percentChange (lastPrice - price p0)%R (price p0);
               data := prices |}
      end
  end.

(** ** [router.get('/latest')] *)

(** [s.split('-')] *)
Fixpoint splitOnHyphen (s : string) : list string :=
  match s with
  | EmptyString => [EmptyString]
  | String c r =>
      if JS.isHyphen c then EmptyString :: splitOnHyphen r
      else
        match splitOnHyphen r with
        | p :: ps => String c p :: ps
        | [] => [String c EmptyString]
        end
  end.

(** [$lookup] of the flight and [$unwind]: one document per price and
    matching flight. *)
Definition withFlight (db : DB) : list (PriceHistory * Flight) :=
  flat_map
    (fun p => map (fun f => (p, f))
                (filter (fun f => Nat.eqb (_id f) (flightId p)) (flights db)))
    (pricehistories db).

(** [$group: { _id: '$flightId', latestPrice: { $first: '$$ROOT' } }] and
    [$replaceRoot]: the first document of every flight, in the order in
    which the flights first occur. *)
Fixpoint firstPerFlight (seen : list nat) (l : list (PriceHistory * Flight))
  : list (PriceHistory * Flight) :=
  match l with
  | [] => []
  | x :: r =>
      if existsb (Nat.eqb (flightId (fst x))) seen then firstPerFlight seen r
      else x :: firstPerFlight (flightId (fst x) :: seen) r
  end.

(** The [$match] on the route: [None] when [to] is [undefined] and
    [to.toUpperCase()] throws. *)
Definition routeMatch (route : option string)
  : option (PriceHistory * Flight -> bool) :=
  if JS.truthy route then
    match splitOnHyphen (JS.orEmpty route) with
    | from :: to :: _ =>
        Some (fun x => Hybrid.fieldIs (route_from (snd x)) (JS.toUpperCase from)
                       && Hybrid.fieldIs (route_to (snd x))
                            (JS.toUpperCase to))
    | _ => None
    end
  else Some (fun _ => true).

Definition airlineMatch (airline : option string)
  (x : PriceHistory * Flight) : bool :=
  if JS.truthy airline
  then Hybrid.fieldIs (Store.airline (snd x)) (JS.orEmpty airline)
  else true.

(** The handler; [None] is the response with status 500. *)
Definition latestPrices (db : DB) (route airline : option string)
  : option (list (PriceHistory * Flight)) :=
  match routeMatch route with
  | None => None
  | Some onRoute =>
      Some
        (JS.stableSort
           (fun x y => (flightDate (snd y) <? flightDate (snd x))%Z)
           (firstPerFlight []
              (JS.stableSort
                 (fun x y => (timestamp (fst x) <? timestamp (fst y))%Z)
                 (filter (airlineMatch airline)
                    (filter onRoute
                       (filter (fun x => isActive (snd x))
                          (withFlight db)))))))
  end.

End Prices.

(* ================================================================== *)
(** * Properties of the price router, and sample data *)
(* ================================================================== *)

Module PriceProps.

Import Store.
Local Open Scope string_scope.

(** A bound of the request that is given holds. *)
Definition fromBound (bound : option Z) (v : Z) : Prop :=
  forall s, bound = Some s -> (s <= v)%Z.

Definition toBound (bound : option Z) (v : Z) : Prop :=
  forall e, bound = Some e -> (v <= e)%Z.

(** [p] is a stored observation of flight [id] captured inside the
    window. *)
Definition observed (db : DB) (id : nat) (startDate endDate : option Z)
  (p : PriceHistory) : Prop :=
  In p (pricehistories db) /\ flightId p = id
  /\ fromBound startDate (timestamp p) /\ toBound endDate (timestamp p).

(** [f] is an active flight of the route, and of the airline when one is
    asked for. *)
Definition onRoute (from to : string) (airline : option string) (f : Flight)
  : Prop :=
  route_from f = Some (JS.toUpperCase from)
  /\ route_to f = Some (JS.toUpperCase to)
  /\ isActive f = true
  /\ (forall a, airline = Some a -> a <> "" -> Store.airline f = Some a).

Definition newerFirst (a c : PriceHistory) : Prop :=
  (timestamp c <= timestamp a)%Z.

Definition olderFirst (a c : PriceHistory) : Prop :=
  (timestamp a <= timestamp c)%Z.

(** Flight 1 with three observations that are not stored in the order of
    their capture, flight 2 with one. *)
Definition history : DB :=
  {| flights := [Examples.emirates; Examples.singapore];
     pricehistories :=
       [ {| flightId := 1; price := 450; timestamp := 1767312000000 |};
         {| flightId := 1; price := 400; timestamp := 1767225600000 |};
         {| flightId := 2; price := 100; timestamp := 1767225600000 |};
         {| flightId := 1; price := 500; timestamp := 1767398400000 |} ] |}.

(** The string has no hyphen. *)
Definition hyphenFree (s : string) : Prop :=
  forall c, In c (list_ascii_of_string s) -> JS.isHyphen c = false.

(** The flight passes the [$match] stages of the latest prices. *)
Definition listed (airline : option string) (f : Flight) : Prop :=
  isActive f = true
  /\ (forall a, airline = Some a -> a <> "" -> Store.airline f = Some a).

(** The route parameter [r] names the origin [from] and the destination
    [to]: it is [from-to], possibly followed by a hyphen and more text. *)
Definition names (r from to : string) : Prop :=
  hyphenFree from /\ hyphenFree to
  /\ (r = from ++ "-" ++ to \/ exists tail, r = from ++ "-" ++ to ++ "-" ++ tail).

(** The flight is on the route that the request asks for, if any. *)
Definition routeAsked (route : option string) (f : Flight) : Prop :=
  match route with
  | None => True
  | Some r =>
      r = ""
      \/ exists from to,
           names r from to
           /\ route_from f = Some (JS.toUpperCase from)
           /\ route_to f = Some (JS.toUpperCase to)
  end.

(** A body that posts the price 250 for flight 1. *)
Definition posted : Prices.NewPrice :=
  {| Prices.np_flightId := Some (Prices.ObjectId 1);
     Prices.np_price := Some 250%R |}.

(** A body whose flight identifier is no [ObjectId]. *)
Definition postedNowhere : Prices.NewPrice :=
  {| Prices.np_flightId := Some Prices.NotAnId;
     Prices.np_price := Some 250%R |}.

End PriceProps.

(* ================================================================== *)
(** * Search suggestions: [router.get('/suggestions')] *)
(* ================================================================== *)

Module Suggestions.

Import Store.
Local Open Scope string_scope.

Inductive Kind : Type := RouteKind | AirlineKind.

(** A suggestion: its [type] and its [value].  The [label], a second
    rendering of the same fields for display, is left out. *)
Record Suggestion : Type := mkSuggestion {
  kind : Kind;
  value : string
}.

(** A field inside a template literal: a missing one prints as
    [undefined]. *)
Definition show (o : option string) : string :=
  match o with
  | Some s => s
  | None => "undefined"
  end.

Definition optEqb (a c : option string) : bool :=
  match a, c with
  | Some x, Some y => String.eqb x y
  | None, None => true
  | _, _ => false
  end.

Definition pairEqb (a c : option string * option string) : bool :=
  optEqb (fst a) (fst c) && optEqb (snd a) (snd c).

(** [$group] by a key: one document per key, in the order in which the
    keys first occur. *)
Fixpoint distinctBy (A : Type) (eqb : A -> A -> bool) (seen l : list A)
  : list A :=
  match l with
  | [] => []
  | x :: r =>
      if existsb (eqb x) seen then distinctBy eqb seen r
      else x :: distinctBy eqb (x :: seen) r
  end.

(** The strings among field values; a field that matched a regular
    expression is one. *)
Definition strings (l : list (option string)) : list string :=
  flat_map (fun o => match o with Some s => [s] | None => [] end) l.

(** The aggregation over the routes:
    [$match] active, [$group] by origin and destination, [$match] the
    expression on either of them, [$limit: 10]. *)
Definition routes (db : DB) (test : string -> bool)
  : list (option string * option string) :=
  firstn 10
    (filter (fun g => Hybrid.fieldMatches test (fst g)
                      || Hybrid.fieldMatches test (snd g))
       (distinctBy pairEqb []
          (map (fun f => (route_from f, route_to f))
             (filter isActive (flights db))))).

(** The aggregation over the airlines: [$match] active and the expression
    on the airline, [$group] by airline, [$limit: 10]. *)
Definition airlines (db : DB) (test : string -> bool) : list string :=
  firstn 10
    (strings
       (distinctBy optEqb []
          (map airline
             (filter (fun f => isActive f
                               && Hybrid.fieldMatches test (airline f))
                (flights db))))).

Definition routeSuggestion (g : option string * option string) : Suggestion :=
  {| kind := RouteKind; value := show (fst g) ++ "-" ++ show (snd g) |}.

Definition airlineSuggestion (a : string) : Suggestion :=
  {| kind := AirlineKind; value := a |}.

Section Handler.

(** [new RegExp(source, 'i')], as for the hybrid handler. *)
Variable RegExp_i : string -> option (string -> bool).

(** The handler; [None] is the response with status 500. *)
Definition suggestions (db : DB) (q type : option string)
  : option (list Suggestion) :=
  if negb (JS.truthy q) || (String.length (JS.orEmpty q) <? 2)%nat
  then Some []
  else
    match RegExp_i (JS.orEmpty q) with
    | None => None
    | Some searchRegex =>
        let t := Hybrid.orDefault type "all" in
        let fromRoutes :=
          if String.eqb t "all" || String.eqb t "routes"
          then map routeSuggestion (routes db searchRegex) else [] in
        let fromAirlines :=
          if String.eqb t "all" || String.eqb t "airlines"
          then map airlineSuggestion (airlines db searchRegex) else [] in
        Some (JS.slice (fromRoutes ++ fromAirlines)%list 0 20)
    end.

End Handler.

End Suggestions.

(* ================================================================== *)
(** * The match stage of the advanced search *)
(* ================================================================== *)

Module AdvancedFilter.

Import Store.
Local Open Scope string_scope.

(** [matchStage]: active flights, on one of the routes when the array is
    given and not empty, of one of the airlines likewise, of the class
    when it is truthy, and inside the date range, each bound of which
    counts when it is given.  A date range without any bound leaves
    [matchStage.flightDate = {}], the comparison with the empty document,
    which no flight date meets. *)
Definition matchStage (body : Advanced.Body) (f : Flight) : bool :=
  isActive f
  && match Advanced.routes body with
     | Some (r :: rs) =>
         existsb
           (fun route =>
              Hybrid.fieldIs (route_from f) (JS.toUpperCase (fst route))
              && Hybrid.fieldIs (route_to f) (JS.toUpperCase (snd route)))
           (r :: rs)
     | _ => true
     end
  && match Advanced.airlines body with
     | Some (a :: l) => existsb (Hybrid.fieldIs (airline f)) (a :: l)
     | _ => true
     end
  && (if JS.truthy (Advanced.flightClass body)
      then Hybrid.fieldIs (class f) (JS.orEmpty (Advanced.flightClass body))
      else true)
  && match Advanced.dateRange body with
     | Some (None, None) => false
     | Some (start, finish) =>
         Mongo.optAll (fun s => (s <=? flightDate f)%Z) start
         && Mongo.optAll (fun e => (flightDate f <=? e)%Z) finish
     | None => true
     end.

(** What the body asks of a flight. *)
Definition asked (body : Advanced.Body) (f : Flight) : Prop :=
  isActive f = true
  /\ (forall rs, Advanced.routes body = Some rs -> rs <> [] ->
        exists route, In route rs
          /\ route_from f = Some (JS.toUpperCase (fst route))
          /\ route_to f = Some (JS.toUpperCase (snd route)))
  /\ (forall l, Advanced.airlines body = Some l -> l <> [] ->
        exists a, In a l /\ airline f = Some a)
  /\ (forall c, Advanced.flightClass body = Some c -> c <> "" ->
        class f = Some c)
  /\ (forall start finish, Advanced.dateRange body = Some (start, finish) ->
        (start <> None \/ finish <> None)
        /\ (forall s, start = Some s -> (s <= flightDate f)%Z)
        /\ (forall e, finish = Some e -> (flightDate f <= e)%Z)).

End AdvancedFilter.

(* ================================================================== *)
(** * Tokenizer *)
(* ================================================================== *)

Unset Implicit Arguments.
Local Open Scope string_scope.

Lemma append_empty_r (s : string) : s ++ "" = s.
Proof. induction s as [|c s IH]; simpl; [reflexivity | now rewrite IH]. Qed.

Lemma append_snoc (cur p : string) (c : ascii) :
  (cur ++ String c "") ++ p = cur ++ String c p.
Proof. induction cur as [|a cur IH]; simpl; [reflexivity | now rewrite IH]. Qed.

Lemma splitGo_cons (inRun : bool) (s : string) :
  exists p ps, JS.splitGo inRun s = p :: ps.
Proof.
  revert inRun; induction s as [|c s IH]; intros inRun; simpl.
  - now exists "", [].
  - destruct (JS.isSpace c).
    + destruct inRun; [apply IH | eexists; eexists; reflexivity].
    + destruct (IH false) as (p & ps & ->). eexists; eexists; reflexivity.
Qed.

(** Inside a run of whitespace the split yields no empty piece for the
    run; outside, it yields one, which [filter(Boolean)] drops. *)
Lemma filterBoolean_splitGo (s : string) :
  JS.filterBoolean (JS.splitGo true s) = JS.filterBoolean (JS.splitGo false s).
Proof.
  destruct s as [|c s]; simpl; [reflexivity|].
  destruct (JS.isSpace c); reflexivity.
Qed.

Lemma wordsFrom_split (s cur : string) :
  Spec.wordsFrom cur s
  = JS.filterBoolean (continued cur (JS.splitWs s)).
Proof.
  unfold JS.splitWs. revert cur.
  induction s as [|c s IH]; intros cur; simpl.
  - rewrite append_empty_r. destruct (JS.nonEmpty cur); reflexivity.
  - destruct (JS.isSpace c) eqn:Hc.
    + simpl. rewrite append_empty_r, filterBoolean_splitGo.
      rewrite (IH ""). unfold continued.
      destruct (splitGo_cons false s) as (p & ps & ->). simpl.
      destruct (JS.nonEmpty cur); reflexivity.
    + rewrite IH. destruct (splitGo_cons false s) as (p & ps & ->).
      simpl. now rewrite append_snoc.
Qed.

Lemma blankOutside_replace (s : string) :
  Spec.blankOutside s = JS.replaceOutsideClass s.
Proof.
  unfold JS.replaceOutsideClass.
  induction s as [|c s IH]; simpl; [reflexivity|].
  now rewrite IH.
Qed.

Lemma tokenize_words (s : string) :
  Scoring.tokenize s = Spec.wordsFrom "" (Spec.blankOutside s).
Proof.
  unfold Scoring.tokenize. rewrite wordsFrom_split, blankOutside_replace.
  unfold continued.
  destruct (splitGo_cons false (JS.replaceOutsideClass s)) as (p & ps & E).
  unfold JS.splitWs. now rewrite E.
Qed.

(** Characters of the pieces of a split: none is whitespace, and each
    satisfies what every character of the subject satisfies. *)
Lemma splitGo_chars (P : ascii -> bool) (s : string) (inRun : bool) :
  forallb P (list_ascii_of_string s) = true ->
  Forall (fun piece =>
            forallb (fun c => P c && negb (JS.isSpace c))
              (list_ascii_of_string piece) = true)
    (JS.splitGo inRun s).
Proof.
  revert inRun; induction s as [|c s IH]; intros inRun H; simpl in *.
  - now repeat constructor.
  - apply andb_true_iff in H as [Hc Hs].
    destruct (JS.isSpace c) eqn:Hsp.
    + destruct inRun; [now apply IH|]. constructor; [reflexivity | now apply IH].
    + specialize (IH false Hs).
      destruct (JS.splitGo false s) as [|p ps].
      * constructor; [|constructor]. simpl. now rewrite Hc, Hsp.
      * inversion IH; subst. constructor; [|assumption].
        simpl. now rewrite Hc, Hsp.
Qed.

Lemma replaceOutsideClass_inClass (s : string) :
  forallb JS.inClass (list_ascii_of_string (JS.replaceOutsideClass s)) = true.
Proof.
  unfold JS.replaceOutsideClass.
  induction s as [|c s IH]; simpl; [reflexivity|].
  rewrite IH, andb_true_r.
  destruct (JS.inClass c) eqn:E; [assumption | reflexivity].
Qed.

Lemma inClass_not_space (c : ascii) :
  JS.inClass c && negb (JS.isSpace c) = true -> Spec.tokenChar c = true.
Proof.
  unfold JS.inClass, Spec.tokenChar.
  destruct (JS.isLower c), (JS.isDigit c), (JS.isSpace c), (JS.isHyphen c);
    simpl; congruence.
Qed.

Lemma tokenize_wellFormed (s t : string) :
  In t (Scoring.tokenize s) -> Spec.wellFormedToken t = true.
Proof.
  unfold Scoring.tokenize, JS.filterBoolean. intros H.
  apply filter_In in H as [Hin Hne].
  unfold Spec.wellFormedToken. rewrite Hne. simpl.
  pose proof (splitGo_chars JS.inClass _ false
                (replaceOutsideClass_inClass s)) as HF.
  rewrite Forall_forall in HF. specialize (HF t Hin).
  rewrite forallb_forall in HF |- *.
  intros c Hc. apply inClass_not_space. now apply HF.
Qed.

(** C6. The Tokenizer, as the engine applies it (lower-casing of the text
    at both call sites, then [tokenize]), yields for every input string the
    tokens the specification describes: those of the lower-cased string
    with every character outside [[a-z0-9\s-]] blanked, split on runs of
    whitespace, without empty tokens.  It is a function of the input alone;
    every token is non-empty and made of [[a-z0-9-]]; the document and query
    token lists are obtained in this way; and an input with upper-case
    letters yields the tokens of its lower-cased form. *)
Theorem tokenizer_matches_spec :
  (forall s, Scoring.tokenize (JS.toLowerCase s) = Spec.tokenizer s)
  /\ (forall s t, In t (Scoring.tokenize (JS.toLowerCase s)) ->
                  Spec.wellFormedToken t = true)
  /\ (forall ds, Hybrid.docTokens ds
                 = map (fun d => Spec.tokenizer (Hybrid.fieldsOf d)) ds)
  /\ (forall p, Hybrid.qTokens p = Spec.tokenizer (Hybrid.queryFields p))
  /\ Scoring.tokenize (JS.toLowerCase "Emirates DXB-LHR, A380!")
     = ["emirates"; "dxb-lhr"; "a380"].
Proof.
  assert (E : forall s, Scoring.tokenize (JS.toLowerCase s) = Spec.tokenizer s)
    by (intros s; apply tokenize_words).
  split; [exact E|].
  split; [intros s t; apply tokenize_wellFormed|].
  split; [|split].
  - intros ds. unfold Hybrid.docTokens. rewrite map_map.
    apply map_ext. intros d. apply E.
  - intros p. apply E.
  - reflexivity.
Qed.

Lemma tokenizer_matches_spec_witness :
  Spec.wellFormedToken "dxb-lhr" = true.
Proof.
  apply (proj1 (proj2 tokenizer_matches_spec) "Emirates DXB-LHR" "dxb-lhr").
  vm_compute. right. left. reflexivity.
Defined.

(** Without the lower-casing of its callers, [tokenize] alone blanks the
    upper-case letters. *)
Example tokenize_alone_blanks_upper_case :
  Scoring.tokenize "Emirates DXB" = ["mirates"].
Proof. reflexivity. Qed.

(* ================================================================== *)
(** * Tests on real numbers *)
(* ================================================================== *)

Local Open Scope R_scope.

Lemma Rleb_true (x y : R) : x <= y -> JS.Rleb x y = true.
Proof. intros H. unfold JS.Rleb. destruct (Rle_dec x y); [reflexivity | contradiction]. Qed.

Lemma Rleb_false (x y : R) : y < x -> JS.Rleb x y = false.
Proof. intros H. unfold JS.Rleb. destruct (Rle_dec x y); [lra | reflexivity]. Qed.

Lemma Rltb_true (x y : R) : x < y -> JS.Rltb x y = true.
Proof. intros H. unfold JS.Rltb. destruct (Rlt_dec x y); [reflexivity | contradiction]. Qed.

Lemma Rltb_false (x y : R) : y <= x -> JS.Rltb x y = false.
Proof. intros H. unfold JS.Rltb. destruct (Rlt_dec x y); [lra | reflexivity]. Qed.

Lemma Reqb_true (x y : R) : x = y -> JS.Reqb x y = true.
Proof. intros H. unfold JS.Reqb. destruct (Req_dec_T x y); [reflexivity | contradiction]. Qed.

Lemma Reqb_false (x y : R) : x <> y -> JS.Reqb x y = false.
Proof. intros H. unfold JS.Reqb. destruct (Req_dec_T x y); [contradiction | reflexivity]. Qed.

(** Decides the tests on concrete reals that occur in the goal. *)
Ltac real_tests :=
  repeat match goal with
  | |- context [JS.Rleb ?x ?y] =>
      first [ rewrite (Rleb_true x y) by lra | rewrite (Rleb_false x y) by lra ]
  | |- context [JS.Rltb ?x ?y] =>
      first [ rewrite (Rltb_true x y) by lra | rewrite (Rltb_false x y) by lra ]
  | |- context [JS.Reqb ?x ?y] =>
      first [ rewrite (Reqb_true x y) by lra | rewrite (Reqb_false x y) by lra ]
  end.

(* ================================================================== *)
(** * Candidate retrieval *)
(* ================================================================== *)

Lemma last_cons_default (A : Type) (r : list A) (x y : A) :
  last (y :: r) x = last r y.
Proof.
  revert x y; induction r as [|z r IH]; intros x y; [reflexivity|].
  change (last (y :: z :: r) x) with (last (z :: r) x).
  now rewrite (IH x z), (IH y z).
Qed.

Lemma nth_error_last (A : Type) (r : list A) (x : A) :
  nth_error (x :: r) (List.length r) = Some (last r x).
Proof.
  revert x; induction r as [|y r IH]; intros x; [reflexivity|].
  rewrite last_cons_default. simpl List.length. simpl nth_error. apply IH.
Qed.

Lemma arrayElemAt_last (A : Type) (l : list A) :
  Mongo.arrayElemAt l (-1)
  = match l with
    | [] => None
    | x :: r => Some (last r x)
    end.
Proof.
  unfold Mongo.arrayElemAt. simpl (_ <? _)%Z. cbv iota.
  destruct l as [|x r]; [reflexivity|].
  replace (Z.of_nat (List.length (x :: r)) + -1)%Z
    with (Z.of_nat (List.length r)) by (simpl List.length; lia).
  destruct (Z.ltb_spec (Z.of_nat (List.length r)) 0) as [H|_]; [lia|].
  rewrite Nat2Z.id. apply nth_error_last.
Qed.

Lemma last_map (A B : Type) (f : A -> B) (r : list A) (x : A) :
  last (map f r) (f x) = f (last r x).
Proof.
  revert x; induction r as [|y r IH]; intros x; [reflexivity|].
  rewrite map_cons, !last_cons_default. apply IH.
Qed.

(** The latest value of a candidate is the price of the observation that
    the join lists last. *)
Lemma latestPrice_is_last_joined (db : Store.DB) (f : Store.Flight) :
  Pipeline.latestPrice (Pipeline.joinPrices db f)
  = match Mongo.lookup (Store.pricehistories db) f with
    | [] => None
    | p :: r => Some (Store.price (last r p))
    end.
Proof.
  unfold Pipeline.joinPrices. simpl. rewrite arrayElemAt_last.
  destruct (Mongo.lookup _ f) as [|p r]; [reflexivity|].
  rewrite map_cons, last_map. reflexivity.
Qed.

Lemma latestPrice_none_iff (db : Store.DB) (f : Store.Flight) :
  Pipeline.latestPrice (Pipeline.joinPrices db f) = None
  <-> Pipeline.prices (Pipeline.joinPrices db f) = [].
Proof.
  rewrite latestPrice_is_last_joined. simpl.
  destruct (Mongo.lookup _ f); split; intros H; congruence.
Qed.

(** When the join lists the observations by strictly increasing capture
    timestamp, its last element is the one with the maximum timestamp. *)
Lemma maxByTimestamp_sorted (p : Store.PriceHistory)
  (r : list Store.PriceHistory) :
  StronglySorted (fun x y => (Store.timestamp x < Store.timestamp y)%Z)
    (p :: r) ->
  Spec.maxByTimestamp (p :: r) = Some (last r p).
Proof.
  revert p; induction r as [|q r IH]; intros p H; [reflexivity|].
  inversion H as [|? ? Hs Hall]; subst.
  change (Spec.maxByTimestamp (p :: q :: r))
    with (match Spec.maxByTimestamp (q :: r) with
          | None => Some p
          | Some m => if (Store.timestamp m <=? Store.timestamp p)%Z
                      then Some p else Some m
          end).
  rewrite (IH q Hs), last_cons_default.
  assert (Hin : In (last r q) (q :: r)).
  { clear. revert q; induction r as [|y r IHr]; intros q; [now left|].
    rewrite last_cons_default. right. apply IHr. }
  rewrite Forall_forall in Hall. specialize (Hall _ Hin).
  destruct (Z.leb_spec (Store.timestamp (last r q)) (Store.timestamp p));
    [lia | reflexivity].
Qed.

(** C1 (the code departs from the claim).  With the two observations of
    flight 1 stored newest first, the candidate that the hybrid request
    produces has latest value 400, the price of the observation stored
    last, while the observation with the maximum capture timestamp has
    price 450; the advanced request joins in the same way. *)
Theorem latestPrice_follows_storage_order :
  exists d,
    Hybrid.candidates Hybrid.literalRegExp Examples.outOfOrder
      Examples.noParams = Some [d]
    /\ Pipeline.latestPrice d = Some 400
    /\ option_map Store.price (Spec.maxByTimestamp (Pipeline.prices d))
       = Some 450
    /\ 400 <> 450
    /\ exists v s,
         Advanced.scored Examples.activeOnly 0 Examples.outOfOrder
           Examples.noBody
         = Some [ {| Advanced.cand := d; Advanced.priceVariance := v;
                     Advanced.relevanceScore := s |} ].
Proof.
  eexists. split; [reflexivity|].
  split; [reflexivity|]. split; [reflexivity|]. split; [lra|].
  unfold Advanced.scored, Advanced.traverse, Advanced.rank. simpl.
  unfold Advanced.divide, Mongo.stdDevPop, Mongo.avg, Mongo.sum. simpl.
  rewrite Reqb_false by lra.
  eexists. eexists. reflexivity.
Qed.

(** What a price bound does to a candidate without observations: the
    [$match] of the pipeline rejects it, while the test applied to the
    fetched candidates alone would keep it for every bound that is a
    number. *)
Lemma matchRange_missing (g l : option JS.number) :
  Mongo.matchRange (Some (g, l)) None = false.
Proof. reflexivity. Qed.

Lemma inRange_missing (d : Pipeline.Candidate) (x y : R) :
  Pipeline.latestPrice d = None ->
  Hybrid.inRange (JS.Fin x) (JS.Fin y) d = true.
Proof. intros H. unfold Hybrid.inRange. now rewrite H. Qed.

Lemma candidates_joined (rx : string -> option (string -> bool))
  (db : Store.DB) (p : Hybrid.Params) (cs : list Pipeline.Candidate)
  (d : Pipeline.Candidate) :
  Hybrid.candidates rx db p = Some cs -> In d cs ->
  exists f, In f (Store.flights db) /\ d = Pipeline.joinPrices db f
            /\ Mongo.matchRange (Hybrid.priceFilter p)
                 (Pipeline.latestPrice d) = true.
Proof.
  unfold Hybrid.candidates. destruct (Hybrid.combinedFilter rx p) as [c|];
    [|discriminate].
  intros [= <-] Hin.
  assert (Hagg : In d (Hybrid.aggregate db c p)).
  { unfold Hybrid.filterFetched in Hin.
    destruct (_ || _); [apply filter_In in Hin as [Hin _]|]; exact Hin. }
  unfold Hybrid.aggregate in Hagg. apply filter_In in Hagg as [Hmap Hm].
  apply in_map_iff in Hmap as (f & <- & Hf).
  apply filter_In in Hf as [Hf _]. now exists f.
Qed.

(** C2. When [minPrice] or [maxPrice] is given, every candidate that
    retrieval and filtering return has a latest value and at least one
    observation: a flight without observations is not among them. *)
Theorem price_bounds_exclude_unpriced
  (rx : string -> option (string -> bool)) (db : Store.DB)
  (p : Hybrid.Params) (cs : list Pipeline.Candidate) :
  Hybrid.isSome (Hybrid.minPrice p) || Hybrid.isSome (Hybrid.maxPrice p)
  = true ->
  Hybrid.candidates rx db p = Some cs ->
  (forall d, In d cs ->
     Pipeline.latestPrice d <> None /\ Pipeline.prices d <> []
     /\ (0 < Pipeline.priceCount d)%nat)
  /\ (forall f, Mongo.lookup (Store.pricehistories db) f = [] ->
        ~ In (Pipeline.joinPrices db f) cs).
Proof.
  intros Hb Hc.
  assert (K : forall d, In d cs -> Pipeline.latestPrice d <> None
                                   /\ Pipeline.prices d <> []).
  { intros d Hin.
    destruct (candidates_joined rx db p cs d Hc Hin) as (f & _ & -> & Hm).
    unfold Hybrid.priceFilter in Hm. rewrite Hb in Hm.
    assert (Hl : Pipeline.latestPrice (Pipeline.joinPrices db f) <> None).
    { intros E. rewrite E in Hm. discriminate. }
    split; [exact Hl|]. intros E. apply Hl. now apply latestPrice_none_iff. }
  split.
  - intros d Hin. destruct (K d Hin) as [H1 H2]. repeat split; trivial.
    destruct (candidates_joined rx db p cs d Hc Hin) as (f & _ & -> & _).
    simpl in *. destruct (Mongo.lookup _ f); [congruence | simpl; lia].
  - intros f Hf Hin. destruct (K _ Hin) as [_ H2]. now apply H2.
Qed.

Lemma price_bounds_exclude_unpriced_witness :
  Hybrid.candidates Hybrid.literalRegExp Examples.onePriced
    (Examples.withMinPrice (JS.Fin 150) Examples.noParams)
  = Some [Pipeline.joinPrices Examples.onePriced Examples.emirates]
  /\ ~ In (Pipeline.joinPrices Examples.onePriced Examples.singapore)
         [Pipeline.joinPrices Examples.onePriced Examples.emirates].
Proof.
  assert (E : Hybrid.candidates Hybrid.literalRegExp Examples.onePriced
                (Examples.withMinPrice (JS.Fin 150) Examples.noParams)
              = Some [Pipeline.joinPrices Examples.onePriced
                        Examples.emirates]).
  { unfold Hybrid.candidates, Hybrid.filterFetched, Hybrid.aggregate.
    simpl. unfold Hybrid.inRange, Mongo.gte. simpl.
    real_tests. simpl. real_tests. reflexivity. }
  split; [exact E|].
  apply (proj2 (price_bounds_exclude_unpriced Hybrid.literalRegExp
                  Examples.onePriced
                  (Examples.withMinPrice (JS.Fin 150) Examples.noParams)
                  _ eq_refl E)).
  reflexivity.
Defined.

(* ================================================================== *)
(** * Maps of counters *)
(* ================================================================== *)

Lemma get_set_same (V : Type) (m : JSMap.t V) (k : string) (v : V) :
  JSMap.get (JSMap.set m k v) k = Some v.
Proof.
  induction m as [|[k' v'] m IH]; simpl.
  - now rewrite String.eqb_refl.
  - destruct (String.eqb k k') eqn:E; simpl.
    + now rewrite String.eqb_refl.
    + now rewrite E.
Qed.

Lemma get_set_other (V : Type) (m : JSMap.t V) (k k' : string) (v : V) :
  k' <> k -> JSMap.get (JSMap.set m k v) k' = JSMap.get m k'.
Proof.
  intros Hne. induction m as [|[k0 v0] m IH]; simpl.
  - destruct (String.eqb_spec k' k); [contradiction | reflexivity].
  - destruct (String.eqb_spec k k0) as [->|Hk]; simpl.
    + destruct (String.eqb_spec k' k0); [contradiction | reflexivity].
    + destruct (String.eqb_spec k' k0); [reflexivity | exact IH].
Qed.

(** The counter that [termFreq] holds for a term is the number of its
    occurrences. *)
Lemma termFreq_from (tokens : list string) (m : JSMap.t nat) (t : string) :
  JSMap.getOr0
    (fold_left (fun tf u => JSMap.set tf u (JSMap.getOr0 tf u + 1)%nat)
       tokens m) t
  = (JSMap.getOr0 m t + count_occ string_dec tokens t)%nat.
Proof.
  revert m; induction tokens as [|u tokens IH]; intros m; simpl.
  - lia.
  - rewrite IH. unfold JSMap.getOr0 at 1.
    destruct (string_dec u t) as [->|Hne].
    + rewrite get_set_same. lia.
    + rewrite get_set_other by congruence. unfold JSMap.getOr0. lia.
Qed.

Lemma termFreq_count (tokens : list string) (t : string) :
  JSMap.getOr0 (Scoring.termFreq tokens) t = count_occ string_dec tokens t.
Proof. unfold Scoring.termFreq. now rewrite termFreq_from. Qed.

Lemma termFreq_absent (tokens : list string) (t : string) :
  ~ In t tokens -> JSMap.getOr0 (Scoring.termFreq tokens) t = 0%nat.
Proof.
  intros H. rewrite termFreq_count. now apply count_occ_not_In.
Qed.

(* ================================================================== *)
(** * BM25 *)
(* ================================================================== *)

(** A query term that the document lacks leaves the running score
    unchanged. *)
Lemma bm25_fold_absent (docTokens : list (list string))
  (tokens qs : list string) (dl : nat) (s : R) :
  (forall t, In t qs -> ~ In t tokens) ->
  fold_left
    (fun score t =>
       match JSMap.getOr0 (Scoring.termFreq tokens) t with
       | O => score
       | (S _) as f =>
           score + Scoring.idf docTokens t
                   * ((INR f * (Scoring.k1 + 1))
                      / (INR f + Scoring.k1
                                 * (1 - Scoring.b
                                    + Scoring.b
                                      * (INR dl / Scoring.avgdl docTokens))))
       end) qs s = s.
Proof.
  revert s; induction qs as [|q qs IH]; intros s H; simpl; [reflexivity|].
  rewrite termFreq_absent by (apply H; now left).
  apply IH. intros t Ht. apply H. now right.
Qed.

Lemma bm25Doc_no_overlap (docTokens : list (list string))
  (qTokens tokens : list string) :
  (forall t, In t qTokens -> ~ In t tokens) ->
  Scoring.bm25Doc docTokens qTokens tokens = 0.
Proof.
  intros H. unfold Scoring.bm25Doc. now apply bm25_fold_absent.
Qed.

(** The example of section 8, evaluated. *)
Lemma docA_tokens : Examples.docA = ["emirates"; "dxb"; "lhr"]%string.
Proof. vm_compute. reflexivity. Qed.

Lemma docB_tokens : Examples.docB = ["singapore"; "sin"; "bkk"]%string.
Proof. vm_compute. reflexivity. Qed.

Lemma queryAB_tokens : Examples.queryAB = ["emirates"; "lhr"]%string.
Proof. vm_compute. reflexivity. Qed.

Lemma exampleAB_counts :
  JSMap.getOr0 (Scoring.termFreq Examples.docA) "emirates" = 1%nat
  /\ JSMap.getOr0 (Scoring.termFreq Examples.docA) "lhr" = 1%nat
  /\ JSMap.getOr0 (Scoring.df [Examples.docA; Examples.docB]) "emirates"
     = 1%nat
  /\ JSMap.getOr0 (Scoring.df [Examples.docA; Examples.docB]) "lhr" = 1%nat
  /\ Scoring.N [Examples.docA; Examples.docB] = 2%nat
  /\ Scoring.lengthOr1 Examples.docA = 3%nat
  /\ fold_left (fun s t => (s + List.length t)%nat)
       [Examples.docA; Examples.docB] 0%nat = 6%nat.
Proof. repeat split; vm_compute; reflexivity. Qed.

Lemma bm25Doc_exampleA :
  Scoring.bm25Doc [Examples.docA; Examples.docB] Examples.queryAB
    Examples.docA = ln 2 + ln 2.
Proof.
  destruct exampleAB_counts as (T1 & T2 & D1 & D2 & HN & HL & HS).
  unfold Scoring.bm25Doc. rewrite queryAB_tokens.
  cbv beta iota delta [fold_left].
  rewrite T1, T2. cbv beta iota.
  unfold Scoring.idf, Scoring.avgdl. rewrite D1, D2, HN, HL, HS.
  unfold Scoring.k1, Scoring.b. simpl INR.
  replace (1 + (1 + 1 - 1 + 0.5) / (1 + 0.5)) with 2 by lra.
  replace (1 * (1.5 + 1)
           / (1 + 1.5 * (1 - 0.75
                         + 0.75 * ((1 + 1 + 1)
                                   / ((1 + 1 + 1 + 1 + 1 + 1) / (1 + 1))))))
    with 1 by (field_simplify; lra).
  lra.
Qed.

Lemma exampleB_no_overlap (t : string) :
  In t Examples.queryAB -> ~ In t Examples.docB.
Proof.
  rewrite queryAB_tokens, docB_tokens. simpl.
  intros [<-|[<-|[]]] [H|[H|[H|[]]]]; discriminate.
Qed.

Lemma ln2_pos : 0 < ln 2.
Proof. rewrite <- ln_1. apply ln_increasing; lra. Qed.

(** C7. A candidate whose document shares no token with the query has raw
    BM25 score exactly 0, whatever the corpus.  For the candidates A
    ("emirates dxb lhr") and B ("singapore sin bkk") and the query
    "emirates lhr", the scores are [2 ln 2] for A, which is positive, and
    [0] for B. *)
Theorem bm25_zero_without_shared_token :
  (forall docTokens qTokens tokens,
      (forall t, In t qTokens -> ~ In t tokens) ->
      Scoring.bm25Doc docTokens qTokens tokens = 0)
  /\ Scoring.bm25 [Examples.docA; Examples.docB] Examples.queryAB
     = [ln 2 + ln 2; 0]
  /\ 0 < ln 2 + ln 2.
Proof.
  split; [exact bm25Doc_no_overlap|]. split.
  - unfold Scoring.bm25. cbv beta iota delta [map].
    rewrite bm25Doc_exampleA.
    now rewrite (bm25Doc_no_overlap _ _ _ exampleB_no_overlap).
  - pose proof ln2_pos. lra.
Qed.

Lemma bm25_zero_without_shared_token_witness :
  Scoring.bm25Doc [Examples.docA; Examples.docB] Examples.queryAB
    Examples.docB = 0.
Proof.
  apply (proj1 bm25_zero_without_shared_token).
  exact exampleB_no_overlap.
Defined.

(* ================================================================== *)
(** * Min-max normalisation *)
(* ================================================================== *)

Lemma fold_Rmin_le (r : list R) (x : R) :
  fold_left Rmin r x <= x /\ forall y, In y r -> fold_left Rmin r x <= y.
Proof.
  revert x; induction r as [|z r IH]; intros x; simpl.
  - split; [lra | contradiction].
  - destruct (IH (Rmin x z)) as [H1 H2].
    pose proof (Rmin_l x z). pose proof (Rmin_r x z).
    split; [lra|]. intros y [<-|Hy]; [lra | now apply H2].
Qed.

Lemma fold_Rmax_ge (r : list R) (x : R) :
  x <= fold_left Rmax r x /\ forall y, In y r -> y <= fold_left Rmax r x.
Proof.
  revert x; induction r as [|z r IH]; intros x; simpl.
  - split; [lra | contradiction].
  - destruct (IH (Rmax x z)) as [H1 H2].
    pose proof (Rmax_l x z). pose proof (Rmax_r x z).
    split; [lra|]. intros y [<-|Hy]; [lra | now apply H2].
Qed.

Lemma fold_Rmin_const (r : list R) (x : R) :
  (forall y, In y r -> y = x) -> fold_left Rmin r x = x.
Proof.
  induction r as [|z r IH]; intros H; simpl; [reflexivity|].
  rewrite (H z) by now left.
  replace (Rmin x x) with x by (unfold Rmin; destruct (Rle_dec x x); reflexivity).
  apply IH. intros y Hy. apply H. now right.
Qed.

Lemma fold_Rmax_const (r : list R) (x : R) :
  (forall y, In y r -> y = x) -> fold_left Rmax r x = x.
Proof.
  induction r as [|z r IH]; intros H; simpl; [reflexivity|].
  rewrite (H z) by now left.
  replace (Rmax x x) with x by (unfold Rmax; destruct (Rle_dec x x); reflexivity).
  apply IH. intros y Hy. apply H. now right.
Qed.

Lemma epsilon_pos : 0 < Scoring.epsilon.
Proof. unfold Scoring.epsilon. lra. Qed.

Lemma normalize_length (arr : list R) :
  List.length (Scoring.normalize arr) = List.length arr.
Proof.
  unfold Scoring.normalize. destruct arr as [|x r]; [reflexivity|].
  destruct (JS.Rltb _ _); now rewrite length_map.
Qed.

Lemma normalize_equal (arr : list R) (x : R) :
  (forall y, In y arr -> y = x) ->
  Scoring.normalize arr = map (fun _ => 0) arr.
Proof.
  intros H. unfold Scoring.normalize. destruct arr as [|z r]; [reflexivity|].
  assert (Hr : forall y, In y r -> y = z).
  { intros y Hy. rewrite (H z) by now left. apply H. now right. }
  rewrite fold_Rmin_const, fold_Rmax_const by exact Hr.
  pose proof epsilon_pos.
  now rewrite Rltb_true by lra.
Qed.

(** The two branches of [normalize]: all zeros, or a division by a range
    that is at least [1e-12]. *)
Lemma normalize_cases (arr : list R) :
  Scoring.normalize arr = map (fun _ => 0) arr
  \/ exists mn mx,
       Scoring.epsilon <= mx - mn
       /\ (forall y, In y arr -> mn <= y <= mx)
       /\ Scoring.normalize arr = map (fun y => (y - mn) / (mx - mn)) arr.
Proof.
  unfold Scoring.normalize. destruct arr as [|x r]; [now left|].
  unfold JS.Rltb.
  destruct (Rlt_dec (fold_left Rmax r x - fold_left Rmin r x) Scoring.epsilon)
    as [Hlt|Hge]; [now left|].
  right. exists (fold_left Rmin r x), (fold_left Rmax r x).
  split; [lra|]. split; [|reflexivity].
  destruct (fold_Rmin_le r x) as [A1 A2].
  destruct (fold_Rmax_ge r x) as [B1 B2].
  intros y [<-|Hy]; [lra|]. split; [now apply A2 | now apply B2].
Qed.

Lemma normalize_range (arr : list R) (v : R) :
  In v (Scoring.normalize arr) -> 0 <= v <= 1.
Proof.
  destruct (normalize_cases arr) as [E|(mn & mx & He & Hb & E)];
    rewrite E; intros Hin; apply in_map_iff in Hin as (y & <- & Hy).
  - lra.
  - pose proof epsilon_pos as Hp. specialize (Hb y Hy).
    assert (Hi : 0 < / (mx - mn)) by (apply Rinv_0_lt_compat; lra).
    assert (Hu : (mx - mn) * / (mx - mn) = 1) by (apply Rinv_r; lra).
    unfold Rdiv. split; nra.
Qed.

(** C8. [normalize] returns an array of the length of its argument for
    every argument; when all raw scores are equal (the empty and the
    singleton array included) every normalised score is 0; a division
    takes place only by a range of at least [1e-12], hence never by zero,
    and every normalised score lies in [0, 1]. *)
Theorem normalize_total_and_guarded :
  (forall arr, List.length (Scoring.normalize arr) = List.length arr)
  /\ (forall arr x, (forall y, In y arr -> y = x) ->
        Scoring.normalize arr = map (fun _ => 0) arr)
  /\ Scoring.normalize [] = []
  /\ (forall x, Scoring.normalize [x] = [0])
  /\ (forall arr,
        Scoring.normalize arr = map (fun _ => 0) arr
        \/ exists mn mx,
             0 < Scoring.epsilon <= mx - mn
             /\ Scoring.normalize arr
                = map (fun y => (y - mn) / (mx - mn)) arr)
  /\ (forall arr v, In v (Scoring.normalize arr) -> 0 <= v <= 1).
Proof.
  split; [exact normalize_length|].
  split; [exact normalize_equal|].
  split; [reflexivity|].
  split.
  { intros x. apply (normalize_equal [x] x). intros y [<-|[]]. reflexivity. }
  split; [|exact normalize_range].
  intros arr. destruct (normalize_cases arr) as [E|(mn & mx & He & _ & E)];
    [now left|].
  right. exists mn, mx. pose proof epsilon_pos. repeat split; trivial.
Qed.

Lemma normalize_total_and_guarded_witness :
  Scoring.normalize [3; 3; 3] = [0; 0; 0].
Proof.
  apply (proj1 (proj2 normalize_total_and_guarded) [3; 3; 3] 3).
  intros y [<-|[<-|[<-|[]]]]; reflexivity.
Defined.

(* ================================================================== *)
(** * Arrays: indexed maps and the stable sort *)
(* ================================================================== *)

Lemma mapiFrom_length (A B : Type) (f : A -> nat -> B) (l : list A) (i : nat) :
  List.length (Scoring.mapiFrom f i l) = List.length l.
Proof.
  revert i; induction l as [|x l IH]; intros i; simpl; [reflexivity|].
  now rewrite IH.
Qed.

Lemma nth_error_mapiFrom (A B : Type) (f : A -> nat -> B) (l : list A)
  (i k : nat) :
  nth_error (Scoring.mapiFrom f i l) k
  = option_map (fun x => f x (i + k)%nat) (nth_error l k).
Proof.
  revert i k; induction l as [|x l IH]; intros i k; simpl.
  - now destruct k.
  - destruct k as [|k]; simpl.
    + now rewrite Nat.add_0_r.
    + rewrite IH. now replace (S i + k)%nat with (i + S k)%nat by lia.
Qed.

Lemma mapiFrom_pointwise (A B : Type) (f : A -> nat -> B) (g : A -> B)
  (l : list A) (i : nat) :
  (forall k x, nth_error l k = Some x -> f x (i + k)%nat = g x) ->
  Scoring.mapiFrom f i l = map g l.
Proof.
  revert i; induction l as [|x l IH]; intros i H; simpl; [reflexivity|].
  f_equal.
  - rewrite <- (H 0%nat x eq_refl). now rewrite Nat.add_0_r.
  - apply IH. intros k y Hk.
    replace (S i + k)%nat with (i + S k)%nat by lia. now apply H.
Qed.

Lemma In_mapi (A B : Type) (f : A -> nat -> B) (l : list A) (y : B) :
  In y (Scoring.mapi f l) ->
  exists k x, nth_error l k = Some x /\ y = f x k.
Proof.
  intros H. apply In_nth_error in H as [k Hk].
  unfold Scoring.mapi in Hk. rewrite nth_error_mapiFrom in Hk.
  destruct (nth_error l k) as [x|] eqn:E; [|discriminate].
  exists k, x. split; [exact E|]. simpl in Hk. congruence.
Qed.

Lemma In_firstn (A : Type) (n : nat) (l : list A) (x : A) :
  In x (firstn n l) -> In x l.
Proof.
  revert l; induction n as [|n IH]; intros [|y l]; simpl; try tauto.
  intros [H|H]; [now left | right; now apply IH].
Qed.

Lemma In_skipn (A : Type) (n : nat) (l : list A) (x : A) :
  In x (skipn n l) -> In x l.
Proof.
  revert l; induction n as [|n IH]; intros [|y l]; simpl; try tauto.
  intros H. right. now apply IH.
Qed.

Lemma insertBy_perm (A : Type) (after : A -> A -> bool) (x : A) (l : list A) :
  Permutation (JS.insertBy after x l) (x :: l).
Proof.
  induction l as [|y l IH]; simpl; [reflexivity|].
  destruct (after x y); [|reflexivity].
  rewrite IH. apply perm_swap.
Qed.

(** The sort rearranges its argument. *)
Lemma stableSort_perm (A : Type) (after : A -> A -> bool) (l : list A) :
  Permutation (JS.stableSort after l) l.
Proof.
  induction l as [|x l IH]; simpl; [reflexivity|].
  rewrite insertBy_perm. now constructor.
Qed.

Lemma stableSort_In (A : Type) (after : A -> A -> bool) (l : list A) (x : A) :
  In x (JS.stableSort after l) <-> In x l.
Proof.
  split; apply Permutation_in;
    [apply stableSort_perm | symmetry; apply stableSort_perm].
Qed.

Lemma insertBy_ext (A : Type) (after after' : A -> A -> bool) (x : A)
  (l : list A) :
  (forall y, In y l -> after x y = after' x y) ->
  JS.insertBy after x l = JS.insertBy after' x l.
Proof.
  induction l as [|y l IH]; intros H; simpl; [reflexivity|].
  rewrite (H y) by now left.
  destruct (after' x y); [|reflexivity].
  f_equal. apply IH. intros z Hz. apply H. now right.
Qed.

(** Two orders that agree on the elements of an array sort it alike. *)
Lemma stableSort_ext (A : Type) (after after' : A -> A -> bool) (l : list A) :
  (forall x y, In x l -> In y l -> after x y = after' x y) ->
  JS.stableSort after l = JS.stableSort after' l.
Proof.
  induction l as [|x l IH]; intros H; simpl; [reflexivity|].
  rewrite IH by (intros; apply H; now right).
  apply insertBy_ext. intros y Hy. apply H; [now left|].
  right. now apply (stableSort_In A after' l y).
Qed.

(** An element that need not come behind any other one stays in front. *)
Lemma insertBy_front (A : Type) (after : A -> A -> bool) (x : A) (l : list A) :
  (forall y, In y l -> after x y = false) ->
  JS.insertBy after x l = x :: l.
Proof.
  destruct l as [|y l]; intros H; simpl; [reflexivity|].
  now rewrite (H y) by now left.
Qed.

(** When the order demands no move at all, the array is unchanged. *)
Lemma stableSort_unordered (A : Type) (after : A -> A -> bool) (l : list A) :
  (forall x y, In x l -> In y l -> after x y = false) ->
  JS.stableSort after l = l.
Proof.
  induction l as [|x l IH]; intros H; simpl; [reflexivity|].
  rewrite IH by (intros; apply H; now right).
  apply insertBy_front. intros y Hy. apply H; [now left | now right].
Qed.

(** For an order in which no two elements come behind each other, no
    element of the sorted array has to come behind its successor. *)
Lemma insertBy_sorted (A : Type) (after : A -> A -> bool) (x : A)
  (l : list A) :
  (forall a c, after a c = true -> after c a = false) ->
  Sorted (fun a c => after a c = false) l ->
  Sorted (fun a c => after a c = false) (JS.insertBy after x l).
Proof.
  intros Hasym Hs. induction Hs as [|y l Hs IH Hd]; simpl.
  - repeat constructor.
  - destruct (after x y) eqn:E.
    + constructor; [exact IH|].
      destruct l as [|z l]; simpl.
      * constructor. now apply Hasym.
      * destruct (after x z); constructor;
          [now inversion Hd | now apply Hasym].
    + constructor; [now constructor | now constructor].
Qed.

Lemma stableSort_sorted (A : Type) (after : A -> A -> bool) (l : list A) :
  (forall a c, after a c = true -> after c a = false) ->
  Sorted (fun a c => after a c = false) (JS.stableSort after l).
Proof.
  intros Hasym. induction l as [|x l IH]; simpl; [constructor|].
  now apply insertBy_sorted.
Qed.

(* ================================================================== *)
(** * Fusion *)
(* ================================================================== *)

Lemma bm25N_length (dts : list (list string)) (qts : list string) :
  List.length (Scoring.bm25N dts qts) = List.length dts.
Proof.
  unfold Scoring.bm25N, Scoring.bm25. now rewrite normalize_length, length_map.
Qed.

Lemma cosN_length (dts : list (list string)) (qts : list string) :
  List.length (Scoring.cosN dts qts) = List.length dts.
Proof.
  unfold Scoring.cosN, Scoring.cos. now rewrite normalize_length, length_map.
Qed.

Lemma docTokens_length (fs : list Pipeline.Candidate) :
  List.length (Hybrid.docTokens fs) = List.length fs.
Proof. unfold Hybrid.docTokens. now rewrite !length_map. Qed.

Lemma nth_error_some_below (A : Type) (l : list A) (k : nat) :
  (k < List.length l)%nat -> exists x, nth_error l k = Some x.
Proof.
  intros H. destruct (nth_error l k) as [x|] eqn:E; [now exists x|].
  apply nth_error_None in E. lia.
Qed.

(** Every element of [withScores] carries the normalised scores of its
    candidate and their fusion. *)
Lemma withScores_In (p : Hybrid.Params) (fs : list Pipeline.Candidate)
  (x : Hybrid.Scored) :
  In x (Hybrid.withScores p fs) ->
  exists bn cn,
    Hybrid.bm25 x = Some bn /\ Hybrid.cosine x = Some cn
    /\ Hybrid.hybrid x = Some (Scoring.fuse (Hybrid.alphaNum p) bn (Some cn))
    /\ Hybrid.scoreAlpha x = Hybrid.alphaNum p
    /\ In (Hybrid.doc x) fs
    /\ 0 <= bn <= 1 /\ 0 <= cn <= 1.
Proof.
  intros H. unfold Hybrid.withScores in H.
  apply In_mapi in H as (k & d & Hk & ->). simpl.
  assert (Hlt : (k < List.length fs)%nat)
    by (apply nth_error_Some; congruence).
  destruct (nth_error_some_below _ (Scoring.bm25N (Hybrid.docTokens fs)
                                      (Hybrid.qTokens p)) k) as [bn Hb].
  { now rewrite bm25N_length, docTokens_length. }
  destruct (nth_error_some_below _ (Scoring.cosN (Hybrid.docTokens fs)
                                      (Hybrid.qTokens p)) k) as [cn Hc].
  { now rewrite cosN_length, docTokens_length. }
  assert (Rb : 0 <= bn <= 1)
    by (eapply normalize_range, nth_error_In; exact Hb).
  assert (Rc : 0 <= cn <= 1)
    by (eapply normalize_range, nth_error_In; exact Hc).
  exists bn, cn. rewrite Hb, Hc.
  split; [reflexivity|]. split; [reflexivity|]. split.
  { unfold Scoring.hybrid, Scoring.mapi.
    rewrite nth_error_mapiFrom, Hb. simpl. now rewrite Hc. }
  split; [reflexivity|]. split; [|now split].
  eapply nth_error_In; eassumption.
Qed.

Lemma fuse_fin (a bn cn : R) :
  Scoring.fuse (JS.Fin a) bn (Some cn) = JS.Fin (a * bn + (1 - a) * cn).
Proof. reflexivity. Qed.

Lemma fuse_nan (bn : R) (c : option R) :
  Scoring.fuse JS.NaN bn c = JS.NaN.
Proof. reflexivity. Qed.

(** The clamp: a number of [0, 1] is kept, a number below becomes 0, a
    number above becomes 1, and [NaN] stays [NaN]. *)
Lemma clamp_inside (a : R) :
  0 <= a <= 1 ->
  JS.Math_max (JS.Fin 0) (JS.Math_min (JS.Fin 1) (JS.Fin a)) = JS.Fin a.
Proof.
  intros H. simpl. f_equal.
  rewrite Rmin_right by lra. now rewrite Rmax_right by lra.
Qed.

Lemma clamp_below (a : R) :
  a < 0 ->
  JS.Math_max (JS.Fin 0) (JS.Math_min (JS.Fin 1) (JS.Fin a)) = JS.Fin 0.
Proof.
  intros H. simpl. f_equal.
  rewrite Rmin_right by lra. now rewrite Rmax_left by lra.
Qed.

Lemma clamp_above (a : R) :
  1 < a ->
  JS.Math_max (JS.Fin 0) (JS.Math_min (JS.Fin 1) (JS.Fin a)) = JS.Fin 1.
Proof.
  intros H. simpl. f_equal.
  rewrite Rmin_left by lra. now rewrite Rmax_right by lra.
Qed.

Lemma alphaNum_cases (p : Hybrid.Params) :
  Hybrid.alphaNum p = JS.NaN
  \/ exists a, 0 <= a <= 1 /\ Hybrid.alphaNum p = JS.Fin a.
Proof.
  unfold Hybrid.alphaNum, Hybrid.orDefault.
  destruct (Hybrid.alpha p) as [[a| | |]|].
  - right. destruct (Rlt_dec a 0) as [H0|H0].
    + exists 0. split; [lra | now apply clamp_below].
    + destruct (Rlt_dec 1 a) as [H1|H1].
      * exists 1. split; [lra | now apply clamp_above].
      * exists a. split; [lra | apply clamp_inside; lra].
  - right. exists 1. split; [lra|]. simpl. f_equal. apply Rmax_right. lra.
  - right. exists 0. split; [lra | reflexivity].
  - now left.
  - right. exists 0.5. split; [lra | apply clamp_inside; lra].
Qed.

Lemma sort_by_component (p : Hybrid.Params) (fs : list Pipeline.Candidate)
  (component : Hybrid.Scored -> option R) :
  (forall x, In x (Hybrid.withScores p fs) ->
     exists v, component x = Some v /\ Hybrid.hybrid x = Some (JS.Fin v)) ->
  JS.sort Hybrid.byRelevance (Hybrid.withScores p fs)
  = JS.sort (fun x y => JS.sub (Scoring.operand (component y))
                               (Scoring.operand (component x)))
      (Hybrid.withScores p fs).
Proof.
  intros H. unfold JS.sort. apply stableSort_ext. intros x y Hx Hy.
  destruct (H x Hx) as (vx & Cx & Ex). destruct (H y Hy) as (vy & Cy & Ey).
  unfold Hybrid.byRelevance. now rewrite Ex, Ey, Cx, Cy.
Qed.

(** The element of [withScores] at an index: the candidate at that index
    with its own normalised scores and their fusion. *)
Lemma withScores_nth (p : Hybrid.Params) (fs : list Pipeline.Candidate)
  (i : nat) (d : Pipeline.Candidate) :
  nth_error fs i = Some d ->
  exists bn cn,
    nth_error (Scoring.normalize
                 (Scoring.bm25 (Hybrid.docTokens fs) (Hybrid.qTokens p))) i
    = Some bn
    /\ nth_error (Scoring.normalize
                    (Scoring.cos (Hybrid.docTokens fs) (Hybrid.qTokens p))) i
       = Some cn
    /\ nth_error (Hybrid.withScores p fs) i
       = Some {| Hybrid.doc := d; Hybrid.bm25 := Some bn;
                 Hybrid.cosine := Some cn;
                 Hybrid.hybrid :=
                   Some (Scoring.fuse (Hybrid.alphaNum p) bn (Some cn));
                 Hybrid.scoreAlpha := Hybrid.alphaNum p |}.
Proof.
  intros Hd.
  assert (Hlt : (i < List.length fs)%nat)
    by (apply nth_error_Some; congruence).
  destruct (nth_error_some_below _ (Scoring.bm25N (Hybrid.docTokens fs)
                                      (Hybrid.qTokens p)) i) as [bn Hb].
  { now rewrite bm25N_length, docTokens_length. }
  destruct (nth_error_some_below _ (Scoring.cosN (Hybrid.docTokens fs)
                                      (Hybrid.qTokens p)) i) as [cn Hc].
  { now rewrite cosN_length, docTokens_length. }
  exists bn, cn. split; [exact Hb|]. split; [exact Hc|].
  unfold Hybrid.withScores, Scoring.mapi.
  rewrite nth_error_mapiFrom, Hd. simpl. rewrite Hb, Hc.
  unfold Scoring.hybrid, Scoring.mapi.
  rewrite nth_error_mapiFrom, Hb. simpl. now rewrite Hc.
Qed.

Lemma withScores_length (p : Hybrid.Params) (fs : list Pipeline.Candidate) :
  List.length (Hybrid.withScores p fs) = List.length fs.
Proof. unfold Hybrid.withScores, Scoring.mapi. apply mapiFrom_length. Qed.

(** C5. An absent [alpha] gives the weight 0.5, and for every [alpha] in
    [0, 1] the weight used is [alpha] itself.  With the weight [a], the
    scored array has one element per candidate, in the order of the
    candidates, and the element of every candidate holds the candidate,
    its normalised BM25 score [bn] and its normalised cosine score [cn]
    (the entries of the two normalised arrays at the candidate's index)
    and the fused score [a * bn + (1 - a) * cn].  With [alpha = 1] the
    relevance order is the order by normalised BM25 score, with
    [alpha = 0] the order by normalised cosine score. *)
Theorem fused_score_is_convex_combination :
  (forall p, Hybrid.alpha p = None -> Hybrid.alphaNum p = JS.Fin 0.5)
  /\ (forall p a, Hybrid.alpha p = Some (JS.Fin a) -> 0 <= a <= 1 ->
        Hybrid.alphaNum p = JS.Fin a)
  /\ (forall p a fs, Hybrid.alphaNum p = JS.Fin a ->
        List.length (Hybrid.withScores p fs) = List.length fs
        /\ forall i d, nth_error fs i = Some d ->
             exists bn cn,
               nth_error
                 (Scoring.normalize
                    (Scoring.bm25 (Hybrid.docTokens fs) (Hybrid.qTokens p))) i
               = Some bn
               /\ nth_error
                    (Scoring.normalize
                       (Scoring.cos (Hybrid.docTokens fs) (Hybrid.qTokens p)))
                    i
                  = Some cn
               /\ nth_error (Hybrid.withScores p fs) i
                  = Some {| Hybrid.doc := d; Hybrid.bm25 := Some bn;
                            Hybrid.cosine := Some cn;
                            Hybrid.hybrid :=
                              Some (JS.Fin (a * bn + (1 - a) * cn));
                            Hybrid.scoreAlpha := JS.Fin a |})
  /\ (forall p fs, Hybrid.alpha p = Some (JS.Fin 1) ->
        JS.sort (Hybrid.comparator "relevance") (Hybrid.withScores p fs)
        = JS.sort Spec.byBm25 (Hybrid.withScores p fs))
  /\ (forall p fs, Hybrid.alpha p = Some (JS.Fin 0) ->
        JS.sort (Hybrid.comparator "relevance") (Hybrid.withScores p fs)
        = JS.sort Spec.byCosine (Hybrid.withScores p fs)).
Proof.
  assert (Hin : forall p a, Hybrid.alpha p = Some (JS.Fin a) -> 0 <= a <= 1 ->
                            Hybrid.alphaNum p = JS.Fin a).
  { intros p a Ha Hr. unfold Hybrid.alphaNum. rewrite Ha.
    now apply clamp_inside. }
  split.
  { intros p Ha. unfold Hybrid.alphaNum. rewrite Ha.
    apply clamp_inside. lra. }
  split; [exact Hin|].
  split.
  { intros p a fs Ha. split; [apply withScores_length|].
    intros i d Hd.
    destruct (withScores_nth p fs i d Hd) as (bn & cn & Hb & Hc & Hw).
    exists bn, cn. split; [exact Hb|]. split; [exact Hc|].
    rewrite Hw, Ha, fuse_fin. reflexivity. }
  split.
  - intros p fs Ha.
    change (Hybrid.comparator "relevance") with Hybrid.byRelevance.
    apply (sort_by_component p fs Hybrid.bm25). intros x Hx.
    destruct (withScores_In p fs x Hx) as (bn & cn & Hb & Hc & Hh & _).
    exists bn. split; [exact Hb|].
    rewrite Hh, (Hin p 1 Ha) by lra. rewrite fuse_fin. do 2 f_equal. ring.
  - intros p fs Ha.
    change (Hybrid.comparator "relevance") with Hybrid.byRelevance.
    apply (sort_by_component p fs Hybrid.cosine). intros x Hx.
    destruct (withScores_In p fs x Hx) as (bn & cn & Hb & Hc & Hh & _).
    exists cn. split; [exact Hc|].
    rewrite Hh, (Hin p 0 Ha) by lra. rewrite fuse_fin. do 2 f_equal. ring.
Qed.

Lemma fused_score_is_convex_combination_witness :
  exists bn cn,
    nth_error
      (Hybrid.withScores (Examples.withAlpha (JS.Fin 0.25) Examples.noParams)
         [Pipeline.joinPrices Examples.twoPriced Examples.emirates;
          Pipeline.joinPrices Examples.twoPriced Examples.singapore]) 1
    = Some {| Hybrid.doc :=
                Pipeline.joinPrices Examples.twoPriced Examples.singapore;
              Hybrid.bm25 := Some bn; Hybrid.cosine := Some cn;
              Hybrid.hybrid := Some (JS.Fin (0.25 * bn + (1 - 0.25) * cn));
              Hybrid.scoreAlpha := JS.Fin 0.25 |}.
Proof.
  pose proof fused_score_is_convex_combination as (_ & Hin & Hall & _).
  assert (Ha : Hybrid.alphaNum
                 (Examples.withAlpha (JS.Fin 0.25) Examples.noParams)
               = JS.Fin 0.25)
    by (apply Hin; [reflexivity | lra]).
  destruct (proj2 (Hall _ _
                     [Pipeline.joinPrices Examples.twoPriced Examples.emirates;
                      Pipeline.joinPrices Examples.twoPriced
                        Examples.singapore] Ha)
              1%nat _ eq_refl) as (bn & cn & _ & _ & Hw).
  exists bn, cn. exact Hw.
Defined.

(* ================================================================== *)
(** * Requests without query text *)
(* ================================================================== *)

Lemma dotFrom_zero (a b : list R) (i : nat) (s : R) :
  (forall v, In v a -> v = 0) -> Scoring.dotFrom i s a b = s.
Proof.
  revert i s; induction a as [|v a IH]; intros i s H; simpl; [reflexivity|].
  rewrite IH by (intros; apply H; now right).
  rewrite (H v) by now left. ring.
Qed.

Lemma qv_empty (dts : list (list string)) (v : R) :
  In v (Scoring.qv dts []) -> v = 0.
Proof.
  unfold Scoring.qv, Scoring.vec. intros H.
  apply in_map_iff in H as (t & <- & _).
  change (JSMap.getOr0 (Scoring.termFreq []) t) with 0%nat.
  simpl. ring.
Qed.

(** Without query tokens the raw BM25 and cosine scores are all 0. *)
Lemma bm25_empty_query (dts : list (list string)) :
  Scoring.bm25 dts [] = map (fun _ => 0) dts.
Proof. reflexivity. Qed.

Lemma cos_empty_query (dts : list (list string)) :
  Scoring.cos dts [] = map (fun _ => 0) dts.
Proof.
  unfold Scoring.cos. apply map_ext. intros toks.
  unfold Scoring.dot. rewrite dotFrom_zero by apply qv_empty.
  unfold Rdiv. ring.
Qed.

Lemma normalize_zeros (A : Type) (l : list A) :
  Scoring.normalize (map (fun _ => 0) l) = map (fun _ => 0) l.
Proof.
  rewrite (normalize_equal _ 0), map_map; [reflexivity|].
  intros y Hy. apply in_map_iff in Hy as (_ & <- & _). reflexivity.
Qed.

Lemma nth_error_zeros (A : Type) (l : list A) (k : nat) (x : R) :
  nth_error (map (fun _ => 0) l) k = Some x ->
  x = 0 /\ (k < List.length l)%nat.
Proof.
  intros H. split.
  - apply nth_error_In, in_map_iff in H as (_ & <- & _). reflexivity.
  - rewrite <- (length_map (fun _ => 0) l). apply nth_error_Some. congruence.
Qed.

Lemma hybrid_empty_query (dts : list (list string)) (a : JS.number) :
  Scoring.hybrid dts [] a
  = map (fun _ => Scoring.fuse a 0 (Some 0)) dts.
Proof.
  unfold Scoring.hybrid, Scoring.mapi, Scoring.bm25N, Scoring.cosN.
  rewrite bm25_empty_query, cos_empty_query, !normalize_zeros.
  rewrite (mapiFrom_pointwise _ _ _ (fun _ => Scoring.fuse a 0 (Some 0))).
  - now rewrite map_map.
  - intros k x Hk. apply nth_error_zeros in Hk as [-> Hlt]. simpl.
    destruct (nth_error_some_below _ (map (fun _ : list string => 0) dts) k)
      as [c Hc]; [now rewrite length_map|].
    rewrite Hc. now apply nth_error_zeros in Hc as [-> _].
Qed.

(** No free text and no origin, destination or airline: the query text
    is empty and there is no query token. *)
Lemma qTokens_no_text (p : Hybrid.Params) :
  JS.truthy (Hybrid.query p) = false ->
  JS.truthy (Hybrid.from p) = false ->
  JS.truthy (Hybrid.to p) = false ->
  JS.truthy (Hybrid.airline p) = false ->
  Hybrid.qTokens p = [].
Proof.
  intros Hq Hf Ht Ha. unfold Hybrid.qTokens, Hybrid.queryText,
    Hybrid.queryFields.
  rewrite Hq. simpl. now rewrite Hf, Ht, Ha.
Qed.

Lemma map_nth_error_const (A B : Type) (l : list A) (c : B) (k : nat)
  (d : A) :
  nth_error l k = Some d -> nth_error (map (fun _ => c) l) k = Some c.
Proof. intros H. now rewrite nth_error_map, H. Qed.

(** The scored candidates of a request without query tokens. *)
Lemma withScores_empty_query (p : Hybrid.Params)
  (fs : list Pipeline.Candidate) :
  Hybrid.qTokens p = [] ->
  Hybrid.withScores p fs
  = map (fun d =>
           {| Hybrid.doc := d; Hybrid.bm25 := Some 0;
              Hybrid.cosine := Some 0;
              Hybrid.hybrid :=
                Some (Scoring.fuse (Hybrid.alphaNum p) 0 (Some 0));
              Hybrid.scoreAlpha := Hybrid.alphaNum p |}) fs.
Proof.
  intros Hq. unfold Hybrid.withScores, Scoring.mapi. rewrite Hq.
  apply mapiFrom_pointwise. intros k d Hk. simpl.
  assert (Hd : exists t, nth_error (Hybrid.docTokens fs) k = Some t).
  { apply nth_error_some_below. rewrite docTokens_length.
    apply nth_error_Some. congruence. }
  destruct Hd as [t Ht].
  rewrite hybrid_empty_query. unfold Scoring.bm25N, Scoring.cosN.
  rewrite bm25_empty_query, cos_empty_query, !normalize_zeros.
  now rewrite !(map_nth_error_const _ _ _ _ _ t Ht).
Qed.

Lemma fuse_zero (a : R) : Scoring.fuse (JS.Fin a) 0 (Some 0) = JS.Fin 0.
Proof. rewrite fuse_fin. f_equal. ring. Qed.

(** Without query tokens and with a numeric weight, every raw and every
    fused score is 0. *)
Lemma scores_zero_without_text (p : Hybrid.Params)
  (fs : list Pipeline.Candidate) (a : R) :
  Hybrid.qTokens p = [] ->
  Hybrid.alphaNum p = JS.Fin a ->
  Scoring.bm25 (Hybrid.docTokens fs) (Hybrid.qTokens p)
  = map (fun _ => 0) (Hybrid.docTokens fs)
  /\ Scoring.cos (Hybrid.docTokens fs) (Hybrid.qTokens p)
     = map (fun _ => 0) (Hybrid.docTokens fs)
  /\ Scoring.hybrid (Hybrid.docTokens fs) (Hybrid.qTokens p)
       (Hybrid.alphaNum p)
     = map (fun _ => JS.Fin 0) (Hybrid.docTokens fs).
Proof.
  intros Hq Ha. rewrite Hq, Ha.
  split; [apply bm25_empty_query|]. split; [apply cos_empty_query|].
  rewrite hybrid_empty_query. apply map_ext. intros _. apply fuse_zero.
Qed.

(** Without query tokens the relevance order is the order of retrieval:
    all fused scores are equal and the sort moves nothing. *)
Lemma relevance_order_without_text (p : Hybrid.Params)
  (fs : list Pipeline.Candidate) :
  Hybrid.qTokens p = [] ->
  JS.sort Hybrid.byRelevance (Hybrid.withScores p fs) = Hybrid.withScores p fs.
Proof.
  intros Hq. unfold JS.sort. apply stableSort_unordered.
  rewrite withScores_empty_query by exact Hq.
  intros x y Hx Hy.
  apply in_map_iff in Hx as (dx & <- & _).
  apply in_map_iff in Hy as (dy & <- & _).
  unfold Hybrid.byRelevance. simpl.
  destruct (alphaNum_cases p) as [->|(a & _ & ->)]; [reflexivity|].
  rewrite fuse_zero. simpl. apply Rltb_false. lra.
Qed.

Lemma candidates_twoPriced (p : Hybrid.Params) :
  Hybrid.query p = None -> Hybrid.from p = None -> Hybrid.to p = None ->
  Hybrid.airline p = None -> Hybrid.minPrice p = None ->
  Hybrid.maxPrice p = None -> Hybrid.startDate p = None ->
  Hybrid.endDate p = None ->
  Hybrid.candidates Hybrid.literalRegExp Examples.twoPriced p
  = Some [Pipeline.joinPrices Examples.twoPriced Examples.emirates;
          Pipeline.joinPrices Examples.twoPriced Examples.singapore].
Proof.
  intros Hq Hf Ht Ha Hmn Hmx Hs He.
  unfold Hybrid.candidates, Hybrid.combinedFilter, Hybrid.given,
    Hybrid.filterFetched, Hybrid.aggregate, Hybrid.priceFilter,
    Hybrid.baseFilter, Hybrid.given.
  rewrite Hq, Hf, Ht, Ha, Hmn, Hmx, Hs, He. reflexivity.
Qed.

(** C3 (the code departs from the claim).  For the request without
    parameters on the database that stores flight 1 (latest value 200)
    before flight 2 (latest value 100), both fused scores are 0 and the
    relevance order returns flight 1 first: the tie is not broken by
    ascending latest value. *)
Theorem hybrid_relevance_ties_keep_retrieval_order :
  exists x y,
    Hybrid.ranked Hybrid.literalRegExp Examples.twoPriced Examples.noParams
    = Some [x; y]
    /\ Hybrid.hybrid x = Some (JS.Fin 0)
    /\ Hybrid.hybrid y = Some (JS.Fin 0)
    /\ Pipeline.latestPrice (Hybrid.doc x) = Some 200
    /\ Pipeline.latestPrice (Hybrid.doc y) = Some 100
    /\ ~ Spec.precedes 0 0 (Pipeline.latestPrice (Hybrid.doc x))
           (Pipeline.latestPrice (Hybrid.doc y)).
Proof.
  assert (Ha : Hybrid.alphaNum Examples.noParams = JS.Fin 0.5).
  { unfold Hybrid.alphaNum. simpl Hybrid.orDefault. apply clamp_inside. lra. }
  assert (Hq : Hybrid.qTokens Examples.noParams = []) by reflexivity.
  unfold Hybrid.ranked.
  rewrite candidates_twoPriced by reflexivity.
  unfold Hybrid.sorted.
  change (Hybrid.comparator
            (Hybrid.orDefault (Hybrid.sortBy Examples.noParams) "relevance"))
    with Hybrid.byRelevance.
  rewrite relevance_order_without_text by exact Hq.
  rewrite withScores_empty_query by exact Hq.
  rewrite Ha, fuse_zero. cbv beta iota delta [map].
  eexists. eexists. split; [reflexivity|].
  split; [reflexivity|]. split; [reflexivity|].
  split; [reflexivity|]. split; [reflexivity|].
  intros [H|[_ H]]; [lra|]. simpl in H. lra.
Qed.

(** C10 (the code departs from the claim).  For the request whose only
    parameter is an [alpha] that is not a number, there is no query token
    and the weight is [NaN]; the fused score of every returned candidate
    is [NaN], not 0. *)
Theorem fused_score_is_nan_for_nan_alpha :
  Hybrid.qTokens (Examples.withAlpha JS.NaN Examples.noParams) = []
  /\ Hybrid.alphaNum (Examples.withAlpha JS.NaN Examples.noParams) = JS.NaN
  /\ exists x y,
       Hybrid.ranked Hybrid.literalRegExp Examples.twoPriced
         (Examples.withAlpha JS.NaN Examples.noParams) = Some [x; y]
       /\ Hybrid.bm25 x = Some 0 /\ Hybrid.cosine x = Some 0
       /\ Hybrid.hybrid x = Some JS.NaN
       /\ Hybrid.bm25 y = Some 0 /\ Hybrid.cosine y = Some 0
       /\ Hybrid.hybrid y = Some JS.NaN.
Proof.
  assert (Hq : Hybrid.qTokens (Examples.withAlpha JS.NaN Examples.noParams)
               = []) by reflexivity.
  split; [exact Hq|]. split; [reflexivity|].
  unfold Hybrid.ranked.
  rewrite candidates_twoPriced by reflexivity.
  unfold Hybrid.sorted.
  change (Hybrid.comparator _) with Hybrid.byRelevance.
  rewrite relevance_order_without_text by exact Hq.
  rewrite withScores_empty_query by exact Hq.
  cbv beta iota delta [map].
  eexists. eexists. split; [reflexivity|].
  repeat split; reflexivity.
Qed.

(* ================================================================== *)
(** * Pagination *)
(* ================================================================== *)

Local Open Scope Z_scope.

Lemma ceilDiv_positive (total size : Z) :
  0 < size ->
  exists n, Hybrid.ceilDiv total size = Hybrid.Count n
            /\ Spec.isCeil total size n.
Proof.
  intros Hs. unfold Hybrid.ceilDiv, Spec.isCeil.
  destruct (Z.eqb_spec size 0) as [E|_]; [lia|].
  eexists. split; [reflexivity|].
  pose proof (Z.mul_div_le (- total) size Hs).
  pose proof (Z.mul_succ_div_gt (- total) size Hs).
  nia.
Qed.

Lemma isCeil_unique (total size n m : Z) :
  0 < size -> Spec.isCeil total size n -> Spec.isCeil total size m -> n = m.
Proof. unfold Spec.isCeil. intros. nia. Qed.

(** A slice between two indices in order, the first one not negative. *)
Lemma slice_window (A : Type) (l : list A) (s e : Z) :
  0 <= s <= e ->
  JS.slice l s e = firstn (Z.to_nat (e - s)) (skipn (Z.to_nat s) l).
Proof.
  intros H. unfold JS.slice, JS.clipIndex.
  destruct (Z.ltb_spec s 0) as [?|_]; [lia|].
  destruct (Z.ltb_spec e 0) as [?|_]; [lia|].
  set (len := Z.of_nat (List.length l)).
  destruct (Z.le_gt_cases len s) as [Hout|Hin].
  - rewrite (Z.min_r s len), (Z.min_r e len) by lia.
    rewrite !skipn_all2 by lia. now rewrite !firstn_nil.
  - rewrite (Z.min_l s len) by lia.
    destruct (Z.le_gt_cases e len) as [He|He].
    + now rewrite (Z.min_l e len) by lia.
    + rewrite (Z.min_r e len) by lia.
      rewrite !firstn_all2; [reflexivity | |]; rewrite length_skipn; lia.
Qed.

(** C9. For a page number of at least 1 and a page size of at least 1:
    [totalPages] is the ceiling of [totalItems / pageSize]; [hasNext] holds
    exactly when the page number is below [totalPages], [hasPrev] exactly
    when it is above 1; the items are those at positions
    [(page - 1) * size] to [page * size - 1]; a page beyond the last one
    has no items and the same totals; and a request whose candidates were
    retrieved is answered with these, not with an error. *)
Theorem pagination_contract (p : Hybrid.Params) (items : list Hybrid.Scored) :
  1 <= Hybrid.pageOf p -> 1 <= Hybrid.limitOf p ->
  exists n,
    Hybrid.totalPages (snd (Hybrid.paginate p items)) = Hybrid.Count n
    /\ Spec.isCeil (Z.of_nat (List.length items)) (Hybrid.limitOf p) n
    /\ Hybrid.totalResults (snd (Hybrid.paginate p items)) = List.length items
    /\ Hybrid.currentPage (snd (Hybrid.paginate p items)) = Hybrid.pageOf p
    /\ Hybrid.hasNext (snd (Hybrid.paginate p items)) = (Hybrid.pageOf p <? n)
    /\ Hybrid.hasPrev (snd (Hybrid.paginate p items)) = (1 <? Hybrid.pageOf p)
    /\ fst (Hybrid.paginate p items)
       = firstn (Z.to_nat (Hybrid.limitOf p))
           (skipn (Z.to_nat ((Hybrid.pageOf p - 1) * Hybrid.limitOf p)) items)
    /\ (n < Hybrid.pageOf p -> fst (Hybrid.paginate p items) = [])
    /\ (forall rx db, Hybrid.ranked rx db p = Some items ->
          Hybrid.handle rx db p
          = Hybrid.Success (fst (Hybrid.paginate p items))
              (snd (Hybrid.paginate p items)) (Hybrid.applied p)).
Proof.
  intros Hp Hl.
  destruct (ceilDiv_positive (Z.of_nat (List.length items)) (Hybrid.limitOf p))
    as (n & En & Hn); [lia|].
  assert (Ew : fst (Hybrid.paginate p items)
               = firstn (Z.to_nat (Hybrid.limitOf p))
                   (skipn (Z.to_nat ((Hybrid.pageOf p - 1) * Hybrid.limitOf p))
                      items)).
  { unfold Hybrid.paginate. simpl fst. rewrite slice_window by nia.
    do 2 f_equal. lia. }
  assert (Eh : forall rx db, Hybrid.ranked rx db p = Some items ->
                 Hybrid.handle rx db p
                 = Hybrid.Success (fst (Hybrid.paginate p items))
                     (snd (Hybrid.paginate p items)) (Hybrid.applied p)).
  { intros rx db Hr. unfold Hybrid.handle. rewrite Hr. reflexivity. }
  assert (Et : Hybrid.totalPages (snd (Hybrid.paginate p items))
               = Hybrid.Count n) by exact En.
  assert (Ex : Hybrid.hasNext (snd (Hybrid.paginate p items))
               = (Hybrid.pageOf p <? n)).
  { unfold Hybrid.paginate. simpl. now rewrite En. }
  exists n.
  split; [exact Et|]. split; [exact Hn|].
  split; [reflexivity|]. split; [reflexivity|].
  split; [exact Ex|]. split; [reflexivity|].
  split; [exact Ew|]. split; [|exact Eh].
  intros Hbeyond. rewrite Ew.
  unfold Spec.isCeil in Hn. rewrite skipn_all2 by nia. apply firstn_nil.
Qed.

(** Five items in pages of two: the third page is the last one and holds
    one item. *)
Lemma pagination_contract_witness :
  let pg := Hybrid.paginate (Examples.withPaging 3 2 Examples.noParams)
              (repeat Examples.scoredEmirates 5) in
  Hybrid.totalPages (snd pg) = Hybrid.Count 3
  /\ Hybrid.hasNext (snd pg) = false
  /\ Hybrid.hasPrev (snd pg) = true
  /\ fst pg = [Examples.scoredEmirates].
Proof.
  destruct (pagination_contract (Examples.withPaging 3 2 Examples.noParams)
              (repeat Examples.scoredEmirates 5))
    as (n & Ht & Hc & _ & _ & Hn & Hv & Hd & _).
  - unfold Hybrid.pageOf. simpl. lia.
  - unfold Hybrid.limitOf. simpl. lia.
  - assert (En : n = 3).
    { unfold Spec.isCeil, Hybrid.limitOf in Hc. simpl in Hc. lia. }
    subst n. cbv zeta. rewrite Ht, Hn, Hv, Hd.
    repeat split; reflexivity.
Defined.

Local Close Scope Z_scope.

(* ================================================================== *)
(** * The weight [alpha] outside [0, 1] *)
(* ================================================================== *)

Local Open Scope R_scope.

(** The response depends on the parameter [alpha] through [alphaNum]
    only. *)
Lemma handle_by_alphaNum (rx : string -> option (string -> bool))
  (db : Store.DB) (p : Hybrid.Params) (a a' : JS.number) :
  Hybrid.alphaNum (Examples.withAlpha a p)
  = Hybrid.alphaNum (Examples.withAlpha a' p) ->
  Hybrid.handle rx db (Examples.withAlpha a p)
  = Hybrid.handle rx db (Examples.withAlpha a' p).
Proof.
  intros H.
  unfold Hybrid.handle, Hybrid.ranked, Hybrid.withScores, Hybrid.applied,
    Hybrid.paginate.
  rewrite H. reflexivity.
Qed.

(** The handler fails only when the query text is no regular
    expression. *)
Lemma handle_failure (rx : string -> option (string -> bool))
  (db : Store.DB) (p : Hybrid.Params) (status : nat) :
  Hybrid.handle rx db p = Hybrid.Failure status ->
  Hybrid.combinedFilter rx p = None.
Proof.
  unfold Hybrid.handle, Hybrid.ranked, Hybrid.candidates.
  destruct (Hybrid.combinedFilter rx p); [|reflexivity].
  unfold Hybrid.paginate. discriminate.
Qed.

Lemma handle_success (rx : string -> option (string -> bool))
  (db : Store.DB) (p : Hybrid.Params) (data : list Hybrid.Scored)
  (pg : Hybrid.Pagination) (f : Hybrid.Applied) :
  Hybrid.handle rx db p = Hybrid.Success data pg f ->
  Hybrid.a_alpha f = Hybrid.alphaNum p
  /\ forall x, In x data -> Hybrid.scoreAlpha x = Hybrid.alphaNum p.
Proof.
  unfold Hybrid.handle, Hybrid.ranked.
  destruct (Hybrid.candidates rx db p) as [fs|]; [|discriminate].
  unfold Hybrid.paginate. intros [= <- _ <-]. split; [reflexivity|].
  intros x Hx. unfold JS.slice in Hx.
  apply In_firstn, In_skipn in Hx.
  unfold Hybrid.sorted, JS.sort in Hx. apply stableSort_In in Hx.
  now destruct (withScores_In p fs x Hx) as (_ & _ & _ & _ & _ & E & _).
Qed.

(** C4, as the code has it.  A request whose [alpha] is a number outside
    [0, 1] is not rejected on that account: the weight is clamped (to 0
    below the interval, to 1 above it), the response is the one of the same
    request with the clamped weight, a success response reports the
    clamped weight in its filters and in the scores of its items, and the
    only failure is the one of a query text that is no regular
    expression. *)
Theorem out_of_range_alpha_is_clamped
  (rx : string -> option (string -> bool)) (db : Store.DB)
  (p : Hybrid.Params) (a c : R) :
  (a < 0 /\ c = 0) \/ (1 < a /\ c = 1) ->
  Hybrid.alphaNum (Examples.withAlpha (JS.Fin a) p) = JS.Fin c
  /\ Hybrid.handle rx db (Examples.withAlpha (JS.Fin a) p)
     = Hybrid.handle rx db (Examples.withAlpha (JS.Fin c) p)
  /\ (forall status,
        Hybrid.handle rx db (Examples.withAlpha (JS.Fin a) p)
        = Hybrid.Failure status ->
        Hybrid.combinedFilter rx p = None)
  /\ (forall data pg f,
        Hybrid.handle rx db (Examples.withAlpha (JS.Fin a) p)
        = Hybrid.Success data pg f ->
        Hybrid.a_alpha f = JS.Fin c
        /\ forall x, In x data -> Hybrid.scoreAlpha x = JS.Fin c).
Proof.
  intros H.
  assert (Ea : Hybrid.alphaNum (Examples.withAlpha (JS.Fin a) p) = JS.Fin c).
  { unfold Hybrid.alphaNum. simpl Hybrid.orDefault.
    destruct H as [[Ha ->]|[Ha ->]];
      [now apply clamp_below | now apply clamp_above]. }
  assert (Ec : Hybrid.alphaNum (Examples.withAlpha (JS.Fin c) p) = JS.Fin c).
  { unfold Hybrid.alphaNum. simpl Hybrid.orDefault.
    apply clamp_inside. destruct H as [[_ ->]|[_ ->]]; lra. }
  split; [exact Ea|]. split.
  { apply handle_by_alphaNum. now rewrite Ea, Ec. }
  split.
  - intros status Hf. exact (handle_failure rx db _ status Hf).
  - intros data pg f Hs. rewrite <- Ea. exact (handle_success rx db _ _ _ _ Hs).
Qed.

Lemma out_of_range_alpha_is_clamped_witness :
  Hybrid.alphaNum (Examples.withAlpha (JS.Fin 2) Examples.noParams)
  = JS.Fin 1.
Proof.
  apply (out_of_range_alpha_is_clamped Hybrid.literalRegExp
           Examples.twoPriced Examples.noParams 2 1).
  right. split; [lra | reflexivity].
Defined.

(** C4, as stated, fails: the request with [alpha = 2] is answered with
    a success response, scored with the weight 1. *)
Lemma alpha_two_is_not_rejected :
  (forall status,
      Hybrid.handle Hybrid.literalRegExp Examples.twoPriced
        (Examples.withAlpha (JS.Fin 2) Examples.noParams)
      <> Hybrid.Failure status)
  /\ exists x y pg f,
       Hybrid.handle Hybrid.literalRegExp Examples.twoPriced
         (Examples.withAlpha (JS.Fin 2) Examples.noParams)
       = Hybrid.Success [x; y] pg f
       /\ Hybrid.a_alpha f = JS.Fin 1
       /\ Hybrid.scoreAlpha x = JS.Fin 1
       /\ Hybrid.scoreAlpha y = JS.Fin 1.
Proof.
  assert (Ea : Hybrid.alphaNum
                 (Examples.withAlpha (JS.Fin 2) Examples.noParams) = JS.Fin 1).
  { unfold Hybrid.alphaNum. simpl Hybrid.orDefault. apply clamp_above. lra. }
  assert (Hq : Hybrid.qTokens
                 (Examples.withAlpha (JS.Fin 2) Examples.noParams) = [])
    by reflexivity.
  assert (E : exists x y pg f,
       Hybrid.handle Hybrid.literalRegExp Examples.twoPriced
         (Examples.withAlpha (JS.Fin 2) Examples.noParams)
       = Hybrid.Success [x; y] pg f
       /\ Hybrid.a_alpha f = JS.Fin 1
       /\ Hybrid.scoreAlpha x = JS.Fin 1
       /\ Hybrid.scoreAlpha y = JS.Fin 1).
  { unfold Hybrid.handle, Hybrid.ranked.
    rewrite candidates_twoPriced by reflexivity.
    unfold Hybrid.sorted.
    change (Hybrid.comparator _) with Hybrid.byRelevance.
    rewrite relevance_order_without_text by exact Hq.
    rewrite withScores_empty_query by exact Hq.
    unfold Hybrid.applied. rewrite Ea. cbv beta iota delta [map].
    eexists. eexists. eexists. eexists.
    split; [reflexivity|]. repeat split; reflexivity. }
  split; [|exact E].
  intros status Hf. destruct E as (x & y & pg & f & Hs & _). congruence.
Qed.

(* ================================================================== *)
(** * The relevance order of both handlers *)
(* ================================================================== *)

Lemma Sorted_weaken (A : Type) (R1 R2 : A -> A -> Prop) (l : list A) :
  (forall a c, In a l -> In c l -> R1 a c -> R2 a c) ->
  Sorted R1 l -> Sorted R2 l.
Proof.
  intros H Hs. induction Hs as [|x l Hs IH Hd]; [constructor|].
  constructor.
  - apply IH. intros a c Ha Hc. apply H; now right.
  - destruct Hd as [|y l Hxy]; constructor.
    apply H; [now left | right; now left | exact Hxy].
Qed.

Lemma Sorted_firstn (A : Type) (R1 : A -> A -> Prop) (n : nat) (l : list A) :
  Sorted R1 l -> Sorted R1 (firstn n l).
Proof.
  revert l; induction n as [|n IH]; intros l Hs; [constructor|].
  destruct Hs as [|x l Hs Hd]; simpl; [constructor|].
  constructor; [now apply IH|].
  destruct Hd as [|y l Hxy]; [destruct n; constructor|].
  destruct n; simpl; constructor. exact Hxy.
Qed.

Lemma positive_sub_asym (u v : JS.number) :
  JS.positive (JS.sub u v) = true -> JS.positive (JS.sub v u) = false.
Proof.
  destruct u as [x| | |], v as [y| | |]; simpl; try congruence.
  unfold JS.Rltb. destruct (Rlt_dec 0 (x + - y)), (Rlt_dec 0 (y + - x));
    try congruence. lra.
Qed.

(** In the hybrid handler the relevance order is by fused score,
    descending, for every numeric weight. *)
Lemma hybrid_relevance_descending (p : Hybrid.Params)
  (fs : list Pipeline.Candidate) (a : R) :
  Hybrid.alphaNum p = JS.Fin a ->
  Sorted (fun x y => exists u v, Hybrid.hybrid x = Some (JS.Fin u)
                                 /\ Hybrid.hybrid y = Some (JS.Fin v)
                                 /\ v <= u)
    (JS.sort Hybrid.byRelevance (Hybrid.withScores p fs)).
Proof.
  intros Ha. unfold JS.sort.
  eapply Sorted_weaken; [|apply stableSort_sorted].
  - intros x y Hx Hy Hxy. apply stableSort_In in Hx, Hy.
    destruct (withScores_In p fs x Hx) as (bx & cx & _ & _ & Ex & _).
    destruct (withScores_In p fs y Hy) as (b' & c' & _ & _ & Ey & _).
    rewrite Ha, fuse_fin in Ex, Ey.
    eexists. eexists. split; [exact Ex|]. split; [exact Ey|].
    unfold Hybrid.byRelevance in Hxy. rewrite Ex, Ey in Hxy. simpl in Hxy.
    unfold JS.Rltb in Hxy. destruct (Rlt_dec _ _); [discriminate | lra].
  - intros x y. unfold Hybrid.byRelevance. apply positive_sub_asym.
Qed.

Lemma bsonLt_asym (x y : option R) :
  Advanced.bsonLt x y = true -> Advanced.bsonLt y x = false.
Proof.
  destruct x as [u|], y as [v|]; simpl; try congruence.
  unfold JS.Rltb. destruct (Rlt_dec u v), (Rlt_dec v u); try congruence. lra.
Qed.

Lemma afterRelevance_asym (x y : Advanced.Ranked) :
  Advanced.afterRelevance x y = true -> Advanced.afterRelevance y x = false.
Proof.
  unfold Advanced.afterRelevance. intros H.
  apply orb_true_iff in H as [H|H].
  - rewrite (bsonLt_asym _ _ H), H. reflexivity.
  - apply andb_true_iff in H as [H1 H2].
    apply negb_true_iff in H1. rewrite H1, (bsonLt_asym _ _ H2).
    simpl. apply andb_false_r.
Qed.

(** In the advanced handler the relevance order is by composite score,
    descending, and among equal scores by latest value, ascending. *)
Lemma advanced_relevance_order (matchStage : Advanced.Body -> Store.Flight -> bool)
  (now : Z) (db : Store.DB) (body : Advanced.Body)
  (rs : list Advanced.Ranked) :
  Hybrid.orDefault (Advanced.sortBy body) "relevance"%string
  = "relevance"%string ->
  Advanced.results matchStage now db body = Some rs ->
  Sorted (fun x y => forall sx sy,
            Advanced.relevanceScore x = Some sx ->
            Advanced.relevanceScore y = Some sy ->
            Spec.precedes sx sy (Pipeline.latestPrice (Advanced.cand x))
              (Pipeline.latestPrice (Advanced.cand y))) rs.
Proof.
  intros Hs. unfold Advanced.results.
  destruct (Advanced.scored matchStage now db body) as [ds|]; [|discriminate].
  destruct (_ <? _)%Z; [|discriminate]. intros [= <-].
  apply Sorted_firstn. rewrite Hs.
  change (Advanced.sortStage "relevance") with Advanced.afterRelevance.
  eapply Sorted_weaken; [|apply stableSort_sorted, afterRelevance_asym].
  intros x y _ _ Hxy sx sy Ex Ey.
  unfold Advanced.afterRelevance in Hxy. rewrite Ex, Ey in Hxy.
  apply orb_false_iff in Hxy as [H1 H2]. simpl in H1, H2.
  unfold JS.Rltb in H1, H2. unfold Spec.precedes.
  destruct (Rlt_dec sx sy) as [?|Hge]; [discriminate|].
  destruct (Rlt_dec sy sx) as [Hlt|Hle]; [now left|].
  right. split; [lra|]. simpl in H2.
  destruct (Pipeline.latestPrice (Advanced.cand x)) as [lx|],
           (Pipeline.latestPrice (Advanced.cand y)) as [ly|]; trivial.
  simpl in H2. unfold JS.Rltb in H2.
  destruct (Rlt_dec ly lx); [discriminate | lra].
Qed.

(** The latest value of a candidate of the advanced handler is, as in
    the hybrid handler, the price that the join lists last. *)
Lemma advanced_latestPrice (matchStage : Advanced.Body -> Store.Flight -> bool)
  (now : Z) (db : Store.DB) (body : Advanced.Body)
  (ds : list Advanced.Ranked) (r : Advanced.Ranked) :
  Advanced.scored matchStage now db body = Some ds -> In r ds ->
  exists f, In f (Store.flights db)
            /\ Advanced.cand r = Pipeline.joinPrices db f.
Proof.
  unfold Advanced.scored.
  set (joined := map (Pipeline.joinPrices db)
                   (filter (matchStage body) (Store.flights db))).
  destruct (Advanced.traverse _ joined) as [rs|] eqn:Ht; [|discriminate].
  intros [= <-] Hr.
  assert (Hrs : In r rs).
  { destruct (Advanced.priceFilter body);
      [now apply filter_In in Hr | exact Hr]. }
  assert (Hc : In (Advanced.cand r) joined).
  { clear Hr. revert rs Ht Hrs. generalize joined as l.
    induction l as [|d l IH]; simpl; intros rs Ht Hr.
    - injection Ht as <-. contradiction.
    - destruct (Advanced.rank now d) as [y|] eqn:Ey; [|discriminate].
      destruct (Advanced.traverse _ l) as [ys|] eqn:El; [|discriminate].
      injection Ht as <-. destruct Hr as [<-|Hr].
      + left. unfold Advanced.rank in Ey.
        destruct (Advanced.divide _ _); [|discriminate].
        now injection Ey as <-.
      + right. now apply (IH ys). }
  unfold joined in Hc.
  apply in_map_iff in Hc as (f & Ef & Hf). apply filter_In in Hf as [Hf _].
  now exists f.
Qed.

(* ================================================================== *)
(** * Term statistics and the sign of the BM25 score *)
(* ================================================================== *)

Lemma setHas_setAdd (s : list string) (k t : string) :
  JSMap.setHas (JSMap.setAdd s k) t = JSMap.setHas s t || String.eqb t k.
Proof.
  unfold JSMap.setAdd. destruct (JSMap.setHas s k) eqn:E.
  - destruct (String.eqb_spec t k) as [->|_];
      [now rewrite E | now rewrite orb_false_r].
  - unfold JSMap.setHas. rewrite existsb_app. simpl. now rewrite orb_false_r.
Qed.

Lemma getOr0_set (m : JSMap.t nat) (k t : string) (v : nat) :
  JSMap.getOr0 (JSMap.set m k v) t
  = if String.eqb t k then v else JSMap.getOr0 m t.
Proof.
  unfold JSMap.getOr0. destruct (String.eqb_spec t k) as [->|Hne].
  - now rewrite get_set_same.
  - now rewrite get_set_other.
Qed.

(** The inner loop over the tokens of one document: the counter of a term
    grows by one exactly when the term occurs among the tokens and was not
    seen before. *)
Lemma tokenStep_fold (tokens : list string) (v d : JSMap.t nat)
  (seen : list string) (t : string) :
  JSMap.getOr0 (snd (fst (fold_left Scoring.tokenStep tokens (v, d, seen)))) t
  = (JSMap.getOr0 d t
     + if negb (JSMap.setHas seen t) && Spec.contains t tokens
       then 1 else 0)%nat.
Proof.
  revert v d seen; induction tokens as [|u tokens IH]; intros v d seen.
  - simpl. rewrite andb_false_r. lia.
  - change (fold_left Scoring.tokenStep (u :: tokens) (v, d, seen))
      with (fold_left Scoring.tokenStep tokens
              (Scoring.tokenStep (v, d, seen) u)).
    unfold Scoring.tokenStep at 2.
    destruct (JSMap.setHas seen u) eqn:Eu.
    + rewrite IH. simpl Spec.contains.
      destruct (String.eqb_spec t u) as [->|_]; [|reflexivity].
      now rewrite Eu.
    + rewrite IH, getOr0_set, setHas_setAdd. simpl Spec.contains.
      destruct (String.eqb_spec t u) as [->|_].
      * rewrite Eu, orb_true_r. simpl. lia.
      * now rewrite orb_false_r.
Qed.

Lemma docStep_df (st : JSMap.t nat * JSMap.t nat) (tokens : list string)
  (t : string) :
  JSMap.getOr0 (snd (Scoring.docStep st tokens)) t
  = (JSMap.getOr0 (snd st) t + if Spec.contains t tokens then 1 else 0)%nat.
Proof.
  unfold Scoring.docStep.
  pose proof (tokenStep_fold tokens (fst st) (snd st) [] t) as H.
  destruct (fold_left Scoring.tokenStep tokens (fst st, snd st, []))
    as [[v d] seen].
  exact H.
Qed.

Lemma corpusStats_from (docs : list (list string))
  (st : JSMap.t nat * JSMap.t nat) (t : string) :
  JSMap.getOr0 (snd (fold_left Scoring.docStep docs st)) t
  = (JSMap.getOr0 (snd st) t + Spec.docCount t docs)%nat.
Proof.
  revert st; induction docs as [|d docs IH]; intros st.
  - simpl. unfold Spec.docCount. simpl. lia.
  - simpl fold_left. rewrite IH, docStep_df. unfold Spec.docCount. simpl.
    destruct (Spec.contains t d); simpl; lia.
Qed.

(** The document frequency that the engine computes is the number of
    candidate documents containing the term. *)
Lemma df_is_docCount (docs : list (list string)) (t : string) :
  JSMap.getOr0 (Scoring.df docs) t = Spec.docCount t docs.
Proof.
  unfold Scoring.df, Scoring.corpusStats. now rewrite corpusStats_from.
Qed.

Lemma df_le_N (docs : list (list string)) (t : string) :
  (JSMap.getOr0 (Scoring.df docs) t <= Scoring.N docs)%nat.
Proof.
  rewrite df_is_docCount. unfold Spec.docCount, Scoring.N, Scoring.lengthOr1.
  pose proof (filter_length_le (Spec.contains t) docs).
  destruct (List.length docs); lia.
Qed.

Local Open Scope R_scope.

(** The argument of the logarithm exceeds 1, so the inverse document
    frequency is positive. *)
Lemma idf_pos (docs : list (list string)) (t : string) :
  0 < Scoring.idf docs t.
Proof.
  unfold Scoring.idf.
  pose proof (le_INR _ _ (df_le_N docs t)) as Hle.
  pose proof (pos_INR (JSMap.getOr0 (Scoring.df docs) t)) as Hd.
  rewrite <- ln_1. apply ln_increasing; [lra|].
  assert (0 < (INR (Scoring.N docs) - INR (JSMap.getOr0 (Scoring.df docs) t)
               + 0.5) / (INR (JSMap.getOr0 (Scoring.df docs) t) + 0.5))
    by (apply Rdiv_lt_0_compat; lra).
  lra.
Qed.

Lemma total_length_ge (docs : list (list string)) (tokens : list string)
  (s : nat) :
  In tokens docs ->
  (s + List.length tokens
   <= fold_left (fun s (t : list string) => s + List.length t) docs s)%nat.
Proof.
  assert (Hmono : forall (l : list (list string)) s0,
             (s0 <= fold_left (fun s t => s + List.length t) l s0)%nat).
  { induction l as [|d l IHl]; intros s0; simpl; [lia|].
    specialize (IHl (s0 + List.length d)%nat). lia. }
  revert s; induction docs as [|d docs IH]; intros s Hin; [contradiction|].
  destruct Hin as [->|Hin]; simpl.
  - apply Hmono.
  - specialize (IH (s + List.length d)%nat Hin). lia.
Qed.

(** The average document length is positive as soon as one document has
    a token; the division by it in the BM25 term is then defined. *)
Lemma avgdl_pos (docs : list (list string)) (tokens : list string) :
  In tokens docs -> tokens <> [] -> 0 < Scoring.avgdl docs.
Proof.
  intros Hin Hne. unfold Scoring.avgdl.
  apply Rdiv_lt_0_compat.
  - apply lt_0_INR. pose proof (total_length_ge docs tokens 0 Hin).
    destruct tokens; [contradiction | simpl in *; lia].
  - apply lt_0_INR. unfold Scoring.N, Scoring.lengthOr1.
    destruct (List.length docs); lia.
Qed.

(** The norms that divide the dot product are positive. *)
Lemma norm_pos (a : list R) : 0 < Scoring.norm a.
Proof.
  unfold Scoring.norm, JS.Reqb.
  destruct (Req_dec_T (sqrt (Scoring.dot a a)) 0) as [_|Hne];
    [apply epsilon_pos|].
  pose proof (sqrt_pos (Scoring.dot a a)). lra.
Qed.

Lemma bm25Doc_sum (docs : list (list string)) (qs tokens : list string) :
  Scoring.bm25Doc docs qs tokens
  = fold_left (fun s t => s + bm25Term docs tokens t) qs 0.
Proof.
  unfold Scoring.bm25Doc. generalize 0 as s.
  induction qs as [|q qs IH]; intros s; simpl; [reflexivity|].
  rewrite IH. f_equal. unfold bm25Term.
  destruct (JSMap.getOr0 (Scoring.termFreq tokens) q); [ring | reflexivity].
Qed.

Lemma bm25Term_sign (docs : list (list string)) (tokens : list string)
  (t : string) :
  In tokens docs ->
  0 <= bm25Term docs tokens t
  /\ (In t tokens -> 0 < bm25Term docs tokens t).
Proof.
  intros Hin. unfold bm25Term.
  destruct (JSMap.getOr0 (Scoring.termFreq tokens) t) as [|f] eqn:Ef.
  - split; [lra|]. intros Ht. rewrite termFreq_count in Ef.
    apply (count_occ_In string_dec) in Ht. lia.
  - assert (Hne : tokens <> []).
    { intros ->. discriminate Ef. }
    pose proof (avgdl_pos docs tokens Hin Hne) as Ha.
    pose proof (idf_pos docs t) as Hi.
    assert (Hf : 0 < INR (S f)) by (apply lt_0_INR; lia).
    assert (Hl : 0 <= INR (Scoring.lengthOr1 tokens)) by apply pos_INR.
    assert (Hq : 0 <= INR (Scoring.lengthOr1 tokens) / Scoring.avgdl docs).
    { unfold Rdiv. apply Rmult_le_pos; [exact Hl|].
      left. now apply Rinv_0_lt_compat. }
    assert (Hpos : 0 < Scoring.idf docs t
                       * ((INR (S f) * (Scoring.k1 + 1))
                          / (INR (S f)
                             + Scoring.k1
                               * (1 - Scoring.b
                                  + Scoring.b
                                    * (INR (Scoring.lengthOr1 tokens)
                                       / Scoring.avgdl docs))))).
    { apply Rmult_lt_0_compat; [exact Hi|].
      unfold Scoring.k1, Scoring.b in *.
      apply Rdiv_lt_0_compat; nra. }
    split; [lra | intros _; exact Hpos].
Qed.

Lemma sum_sign (g : string -> R) (qs : list string) (s : R) :
  (forall t, 0 <= g t) ->
  s <= fold_left (fun s t => s + g t) qs s
  /\ forall t, In t qs -> 0 < g t -> s < fold_left (fun s t => s + g t) qs s.
Proof.
  intros Hg. revert s; induction qs as [|q qs IH]; intros s; simpl.
  - split; [lra | contradiction].
  - destruct (IH (s + g q)) as [H1 H2]. pose proof (Hg q).
    split; [lra|]. intros t [->|Ht] Hp; [lra|].
    specialize (H2 t Ht Hp). lra.
Qed.

(** The BM25 score of a candidate is positive exactly when its document
    shares a token with the query, and 0 otherwise. *)
Lemma bm25Doc_positive_iff (docs : list (list string))
  (qs tokens : list string) :
  In tokens docs ->
  (0 < Scoring.bm25Doc docs qs tokens
   <-> exists t, In t qs /\ In t tokens).
Proof.
  intros Hin. split.
  - intros Hp.
    destruct (existsb (fun t => Spec.contains t tokens) qs) eqn:E.
    + apply existsb_exists in E as (t & Ht & Hc).
      apply existsb_exists in Hc as (u & Hu & Eu).
      apply String.eqb_eq in Eu as ->. now exists u.
    + rewrite bm25Doc_no_overlap in Hp; [lra|].
      intros t Ht Hc.
      assert (existsb (fun t => Spec.contains t tokens) qs = true);
        [|congruence].
      apply existsb_exists. exists t. split; [exact Ht|].
      apply existsb_exists. exists t. split; [exact Hc|].
      apply String.eqb_refl.
  - intros (t & Hq & Ht). rewrite bm25Doc_sum.
    apply (proj2 (sum_sign (bm25Term docs tokens) qs 0
                    (fun u => proj1 (bm25Term_sign docs tokens u Hin))) t Hq).
    now apply (bm25Term_sign docs tokens t Hin).
Qed.

(* ================================================================== *)
(** * Further properties: ranking never loses a candidate *)
(* ================================================================== *)

Local Open Scope R_scope.

Lemma map_mapiFrom (A B C : Type) (f : A -> nat -> B) (g : B -> C)
  (h : A -> C) (l : list A) (i : nat) :
  (forall x k, g (f x k) = h x) ->
  map g (Scoring.mapiFrom f i l) = map h l.
Proof.
  intros H. revert i; induction l as [|x l IH]; intros i; simpl;
    [reflexivity|].
  now rewrite H, IH.
Qed.

Lemma withScores_docs (p : Hybrid.Params) (fs : list Pipeline.Candidate) :
  map Hybrid.doc (Hybrid.withScores p fs) = fs.
Proof.
  unfold Hybrid.withScores, Scoring.mapi.
  rewrite (map_mapiFrom _ _ _ _ Hybrid.doc (fun d => d)); [apply map_id|].
  reflexivity.
Qed.

(** X1. Whatever the sort strategy, the scored items of a request are the
    retrieved candidates, each one exactly once: sorting and scoring drop
    and duplicate nothing. *)
Theorem ranking_keeps_every_candidate
  (rx : string -> option (string -> bool)) (db : Store.DB)
  (p : Hybrid.Params) (cs : list Pipeline.Candidate) :
  Hybrid.candidates rx db p = Some cs ->
  exists items,
    Hybrid.ranked rx db p = Some items
    /\ Permutation (map Hybrid.doc items) cs
    /\ List.length items = List.length cs.
Proof.
  intros Hc. unfold Hybrid.ranked. rewrite Hc.
  eexists. split; [reflexivity|].
  assert (P : Permutation (Hybrid.sorted p (Hybrid.withScores p cs))
                (Hybrid.withScores p cs))
    by apply stableSort_perm.
  split.
  - rewrite <- (withScores_docs p cs) at 2. now apply Permutation_map.
  - rewrite (Permutation_length P).
    rewrite <- (withScores_docs p cs) at 2. now rewrite length_map.
Qed.

Lemma ranking_keeps_every_candidate_witness :
  exists items,
    Hybrid.ranked Hybrid.literalRegExp Examples.twoPriced
      (Samples.sortedBy "price_asc") = Some items
    /\ Permutation (map Hybrid.doc items)
         [Pipeline.joinPrices Examples.twoPriced Examples.emirates;
          Pipeline.joinPrices Examples.twoPriced Examples.singapore]
    /\ List.length items = 2%nat.
Proof.
  apply (ranking_keeps_every_candidate Hybrid.literalRegExp
           Examples.twoPriced (Samples.sortedBy "price_asc")).
  apply candidates_twoPriced; reflexivity.
Defined.

(* ================================================================== *)
(** * Further properties: the sort strategies *)
(* ================================================================== *)

Lemma sorted_by_strategy (p : Hybrid.Params) (ws : list Hybrid.Scored)
  (cmp : Hybrid.Scored -> Hybrid.Scored -> JS.number)
  (rel : Hybrid.Scored -> Hybrid.Scored -> Prop) :
  Hybrid.comparator (Hybrid.orDefault (Hybrid.sortBy p) "relevance") = cmp ->
  (forall x y, JS.positive (cmp x y) = true -> JS.positive (cmp y x) = false) ->
  (forall x y, In x ws -> In y ws -> JS.positive (cmp x y) = false ->
               rel x y) ->
  Relations_1.Transitive rel ->
  StronglySorted rel (Hybrid.sorted p ws).
Proof.
  intros Hc Hasym Hrel Htr. apply Sorted_StronglySorted; [exact Htr|].
  unfold Hybrid.sorted, JS.sort. rewrite Hc.
  eapply Sorted_weaken; [|apply stableSort_sorted; exact Hasym].
  intros x y Hx Hy H. apply stableSort_In in Hx, Hy. now apply Hrel.
Qed.

Lemma priceAscending_trans :
  Relations_1.Transitive
    (fun x y : Hybrid.Scored =>
       Props.priceAscending (Pipeline.latestPrice (Hybrid.doc x))
         (Pipeline.latestPrice (Hybrid.doc y))).
Proof.
  intros x y z. unfold Props.priceAscending.
  destruct (Pipeline.latestPrice (Hybrid.doc x)),
           (Pipeline.latestPrice (Hybrid.doc y)),
           (Pipeline.latestPrice (Hybrid.doc z)); try tauto. lra.
Qed.

Lemma priceDescending_trans :
  Relations_1.Transitive
    (fun x y : Hybrid.Scored =>
       Props.priceDescending (Pipeline.latestPrice (Hybrid.doc x))
         (Pipeline.latestPrice (Hybrid.doc y))).
Proof.
  intros x y z. unfold Props.priceDescending.
  destruct (Pipeline.latestPrice (Hybrid.doc x)),
           (Pipeline.latestPrice (Hybrid.doc y)),
           (Pipeline.latestPrice (Hybrid.doc z)); try tauto. lra.
Qed.

(** X2. Under [price_asc] the items are in ascending order of latest
    price, under [price_desc] in descending order; in both orders the
    candidates without any price come after all the priced ones. *)
Theorem price_strategies_order_by_latest_price (p : Hybrid.Params)
  (ws : list Hybrid.Scored) :
  (Hybrid.sortBy p = Some "price_asc"%string ->
   StronglySorted
     (fun x y => Props.priceAscending (Pipeline.latestPrice (Hybrid.doc x))
                   (Pipeline.latestPrice (Hybrid.doc y)))
     (Hybrid.sorted p ws))
  /\ (Hybrid.sortBy p = Some "price_desc"%string ->
      StronglySorted
        (fun x y => Props.priceDescending
                      (Pipeline.latestPrice (Hybrid.doc x))
                      (Pipeline.latestPrice (Hybrid.doc y)))
        (Hybrid.sorted p ws)).
Proof.
  split; intros Hs.
  - apply (sorted_by_strategy p ws Hybrid.byPriceAsc).
    + now rewrite Hs.
    + intros x y. apply positive_sub_asym.
    + intros x y _ _. unfold Hybrid.byPriceAsc, Props.priceAscending.
      destruct (Pipeline.latestPrice (Hybrid.doc x)) as [u|],
               (Pipeline.latestPrice (Hybrid.doc y)) as [v|]; simpl;
        try tauto; try discriminate.
      unfold JS.Rltb. destruct (Rlt_dec 0 (u + - v)); [discriminate | lra].
    + exact priceAscending_trans.
  - apply (sorted_by_strategy p ws Hybrid.byPriceDesc).
    + now rewrite Hs.
    + intros x y. apply positive_sub_asym.
    + intros x y _ _. unfold Hybrid.byPriceDesc, Props.priceDescending.
      destruct (Pipeline.latestPrice (Hybrid.doc x)) as [u|],
               (Pipeline.latestPrice (Hybrid.doc y)) as [v|]; simpl;
        try tauto; try discriminate.
      unfold JS.Rltb. destruct (Rlt_dec 0 (v + - u)); [discriminate | lra].
    + exact priceDescending_trans.
Qed.

Lemma price_strategies_order_by_latest_price_witness :
  StronglySorted
    (fun x y => Props.priceAscending (Pipeline.latestPrice (Hybrid.doc x))
                  (Pipeline.latestPrice (Hybrid.doc y)))
    (Hybrid.sorted (Samples.sortedBy "price_asc")
       (Hybrid.withScores (Samples.sortedBy "price_asc")
          [Pipeline.joinPrices Examples.twoPriced Examples.emirates;
           Pipeline.joinPrices Examples.twoPriced Examples.singapore])).
Proof.
  apply (proj1 (price_strategies_order_by_latest_price
                  (Samples.sortedBy "price_asc") _)).
  reflexivity.
Defined.

Lemma positive_IZR (n : Z) :
  JS.positive (JS.Fin (IZR n)) = true <-> (0 < n)%Z.
Proof.
  simpl. unfold JS.Rltb. destruct (Rlt_dec 0 (IZR n)) as [H|H]; split;
    intros K; try reflexivity; try discriminate.
  - now apply lt_0_IZR.
  - exfalso. apply H. now apply (IZR_lt 0).
Qed.

Lemma not_positive_IZR (n : Z) :
  JS.positive (JS.Fin (IZR n)) = false <-> (n <= 0)%Z.
Proof.
  pose proof (positive_IZR n) as H.
  destruct (JS.positive (JS.Fin (IZR n))); split; intros K;
    try reflexivity; try discriminate.
  - assert (0 < n)%Z by now apply H. lia.
  - destruct (Z.lt_ge_cases 0 n) as [L|L]; [|exact L].
    apply H in L. discriminate.
Qed.

(** X3. Under [date_asc] the items are in ascending order of flight
    date, under [date_desc] in descending order. *)
Theorem date_strategies_order_by_flight_date (p : Hybrid.Params)
  (ws : list Hybrid.Scored) :
  (Hybrid.sortBy p = Some "date_asc"%string ->
   StronglySorted
     (fun x y => (Store.flightDate (Pipeline.flight (Hybrid.doc x))
                  <= Store.flightDate (Pipeline.flight (Hybrid.doc y)))%Z)
     (Hybrid.sorted p ws))
  /\ (Hybrid.sortBy p = Some "date_desc"%string ->
      StronglySorted
        (fun x y => (Store.flightDate (Pipeline.flight (Hybrid.doc y))
                     <= Store.flightDate (Pipeline.flight (Hybrid.doc x)))%Z)
        (Hybrid.sorted p ws)).
Proof.
  split; intros Hs.
  - apply (sorted_by_strategy p ws Hybrid.byDateAsc).
    + now rewrite Hs.
    + intros x y H. unfold Hybrid.byDateAsc in *.
      apply positive_IZR in H. apply not_positive_IZR. lia.
    + intros x y _ _ H. unfold Hybrid.byDateAsc in H.
      apply not_positive_IZR in H. lia.
    + intros x y z. lia.
  - apply (sorted_by_strategy p ws Hybrid.byDateDesc).
    + now rewrite Hs.
    + intros x y H. unfold Hybrid.byDateDesc in *.
      apply positive_IZR in H. apply not_positive_IZR. lia.
    + intros x y _ _ H. unfold Hybrid.byDateDesc in H.
      apply not_positive_IZR in H. lia.
    + intros x y z. lia.
Qed.

Lemma date_strategies_order_by_flight_date_witness :
  StronglySorted
    (fun x y => (Store.flightDate (Pipeline.flight (Hybrid.doc y))
                 <= Store.flightDate (Pipeline.flight (Hybrid.doc x)))%Z)
    (Hybrid.sorted (Samples.sortedBy "date_desc")
       (Hybrid.withScores (Samples.sortedBy "date_desc")
          [Pipeline.joinPrices Examples.twoPriced Examples.emirates;
           Pipeline.joinPrices Examples.twoPriced Examples.singapore])).
Proof.
  apply (proj2 (date_strategies_order_by_flight_date
                  (Samples.sortedBy "date_desc") _)).
  reflexivity.
Defined.

Lemma comparator_default (s : string) :
  s <> "price_asc"%string -> s <> "price_desc"%string ->
  s <> "date_asc"%string -> s <> "date_desc"%string ->
  Hybrid.comparator s = Hybrid.byRelevance.
Proof.
  intros H1 H2 H3 H4. unfold Hybrid.comparator.
  destruct (String.eqb_spec s "price_asc"); [contradiction|].
  destruct (String.eqb_spec s "price_desc"); [contradiction|].
  destruct (String.eqb_spec s "date_asc"); [contradiction|].
  destruct (String.eqb_spec s "date_desc"); [contradiction|].
  reflexivity.
Qed.

(** X4. When [sortBy] is absent, or is any string other than the four
    price and date strategies, and the weight is a number, the scored
    candidates are in descending order of fused score. *)
Theorem other_strategies_order_by_fused_score (p : Hybrid.Params)
  (fs : list Pipeline.Candidate) (a : R) :
  (forall s, Hybrid.sortBy p = Some s ->
     s <> "price_asc"%string /\ s <> "price_desc"%string
     /\ s <> "date_asc"%string /\ s <> "date_desc"%string) ->
  Hybrid.alphaNum p = JS.Fin a ->
  StronglySorted
    (fun x y => exists u v, Props.fusedIs x u /\ Props.fusedIs y v /\ v <= u)
    (Hybrid.sorted p (Hybrid.withScores p fs)).
Proof.
  intros Hs Ha.
  apply (sorted_by_strategy p _ Hybrid.byRelevance).
  - destruct (Hybrid.sortBy p) as [s|] eqn:E; [|reflexivity].
    destruct (Hs s eq_refl) as (H1 & H2 & H3 & H4).
    now apply comparator_default.
  - intros x y. apply positive_sub_asym.
  - intros x y Hx Hy Hxy.
    destruct (withScores_In p fs x Hx) as (bx & cx & _ & _ & Ex & _).
    destruct (withScores_In p fs y Hy) as (b' & c' & _ & _ & Ey & _).
    rewrite Ha, fuse_fin in Ex, Ey.
    eexists. eexists. split; [exact Ex|]. split; [exact Ey|].
    unfold Hybrid.byRelevance in Hxy. rewrite Ex, Ey in Hxy. simpl in Hxy.
    unfold JS.Rltb in Hxy. destruct (Rlt_dec _ _); [discriminate | lra].
  - intros x y z (u & v & Hx & Hy & L1) (u' & v' & Hy' & Hz & L2).
    unfold Props.fusedIs in *. rewrite Hy in Hy'. injection Hy' as <-.
    exists u, v'. repeat split; trivial. lra.
Qed.

Lemma other_strategies_order_by_fused_score_witness :
  StronglySorted
    (fun x y => exists u v, Props.fusedIs x u /\ Props.fusedIs y v /\ v <= u)
    (Hybrid.sorted (Samples.sortedBy "cheapest")
       (Hybrid.withScores (Samples.sortedBy "cheapest")
          [Pipeline.joinPrices Examples.twoPriced Examples.emirates;
           Pipeline.joinPrices Examples.twoPriced Examples.singapore])).
Proof.
  apply (other_strategies_order_by_fused_score
           (Samples.sortedBy "cheapest") _ 0.5).
  - intros s [= <-]. repeat split; discriminate.
  - unfold Hybrid.alphaNum. simpl Hybrid.orDefault. apply clamp_inside. lra.
Defined.

(* ================================================================== *)
(** * Further properties: the pages partition the result *)
(* ================================================================== *)

Lemma firstn_plus (A : Type) (a c : nat) (l : list A) :
  firstn (a + c) l = (firstn a l ++ firstn c (skipn a l))%list.
Proof.
  revert l; induction a as [|a IH]; intros l; [reflexivity|].
  destruct l as [|x l]; simpl; [now rewrite firstn_nil|].
  now rewrite IH.
Qed.

Lemma pages_up_to (A : Type) (size m : nat) (items : list A) :
  List.concat (map (Props.pageItems size items) (seq 1 m))
  = firstn (m * size) items.
Proof.
  induction m as [|m IH]; [reflexivity|].
  rewrite seq_S, map_app, List.concat_app, IH.
  cbv beta iota delta [map List.concat]. rewrite app_nil_r.
  unfold Props.pageItems.
  replace (S m * size)%nat with (m * size + size)%nat by lia.
  rewrite firstn_plus.
  replace ((1 + m - 1) * size)%nat with (m * size)%nat by lia.
  reflexivity.
Qed.

Lemma paginate_pageItems (p : Hybrid.Params) (items : list Hybrid.Scored)
  (k : nat) :
  (1 <= k)%nat -> (1 <= Hybrid.limitOf p)%Z ->
  fst (Hybrid.paginate
         (Examples.withPaging (Z.of_nat k) (Hybrid.limitOf p) p) items)
  = Props.pageItems (Z.to_nat (Hybrid.limitOf p)) items k.
Proof.
  intros Hk Hl. unfold Hybrid.paginate. simpl fst.
  change (Hybrid.limitOf (Examples.withPaging _ (Hybrid.limitOf p) p))
    with (Hybrid.limitOf p).
  change (Hybrid.pageOf (Examples.withPaging (Z.of_nat k) _ p))
    with (Z.of_nat k).
  rewrite slice_window by nia. unfold Props.pageItems.
  f_equal; [f_equal; lia|]. f_equal. nia.
Qed.

(** X5. For a page size of at least 1, the pages 1 to [totalPages] of a
    request, one after the other, are exactly the sorted items: every item
    is on one page, in order, and none is repeated or left out. *)
Theorem pages_partition_the_items (p : Hybrid.Params)
  (items : list Hybrid.Scored) :
  (1 <= Hybrid.limitOf p)%Z ->
  exists n : nat,
    Hybrid.totalPages (snd (Hybrid.paginate p items))
    = Hybrid.Count (Z.of_nat n)
    /\ List.concat
         (map (fun k =>
                 fst (Hybrid.paginate
                        (Examples.withPaging (Z.of_nat k) (Hybrid.limitOf p) p)
                        items))
            (seq 1 n))
       = items.
Proof.
  intros Hl.
  destruct (ceilDiv_positive (Z.of_nat (List.length items)) (Hybrid.limitOf p))
    as (n & En & Hn); [lia|].
  assert (Hn0 : (0 <= n)%Z) by (unfold Spec.isCeil in Hn; nia).
  exists (Z.to_nat n). rewrite Z2Nat.id by exact Hn0.
  split; [exact En|].
  rewrite (map_ext_in _ (Props.pageItems (Z.to_nat (Hybrid.limitOf p)) items)).
  - rewrite pages_up_to. apply firstn_all2.
    unfold Spec.isCeil in Hn. nia.
  - intros k Hk. apply in_seq in Hk. apply paginate_pageItems; lia.
Qed.

Lemma pages_partition_the_items_witness :
  exists n : nat,
    Hybrid.totalPages
      (snd (Hybrid.paginate (Examples.withPaging 1 2 Examples.noParams)
              (repeat Examples.scoredEmirates 5)))
    = Hybrid.Count (Z.of_nat n)
    /\ List.concat
         (map (fun k =>
                 fst (Hybrid.paginate
                        (Examples.withPaging (Z.of_nat k) 2
                           (Examples.withPaging 1 2 Examples.noParams))
                        (repeat Examples.scoredEmirates 5)))
            (seq 1 n))
       = repeat Examples.scoredEmirates 5.
Proof.
  apply (pages_partition_the_items (Examples.withPaging 1 2 Examples.noParams)
           (repeat Examples.scoredEmirates 5)).
  unfold Hybrid.limitOf. simpl. lia.
Defined.

(* ================================================================== *)
(** * Further properties: what retrieval returns *)
(* ================================================================== *)

Lemma candidates_base (rx : string -> option (string -> bool))
  (db : Store.DB) (p : Hybrid.Params) (cs : list Pipeline.Candidate)
  (d : Pipeline.Candidate) :
  Hybrid.candidates rx db p = Some cs -> In d cs ->
  exists f, In f (Store.flights db) /\ d = Pipeline.joinPrices db f
            /\ Hybrid.baseFilter p f = true
            /\ Hybrid.inRange (Hybrid.orDefault (Hybrid.minPrice p) JS.NInf)
                 (Hybrid.orDefault (Hybrid.maxPrice p) JS.PInf) d = true.
Proof.
  unfold Hybrid.candidates, Hybrid.combinedFilter.
  intros Hc Hin.
  assert (K : exists c, (forall f, c f = true -> Hybrid.baseFilter p f = true)
                        /\ In d (Hybrid.filterFetched p
                                   (Hybrid.aggregate db c p))).
  { destruct (Hybrid.given (Hybrid.query p)).
    - destruct (rx _) as [test|]; [|discriminate].
      injection Hc as <-. eexists. split; [|exact Hin].
      intros f Hf. now apply andb_true_iff in Hf as [Hf _].
    - injection Hc as <-. eexists. split; [|exact Hin]. trivial. }
  destruct K as (c & Hcb & Hd).
  assert (Hagg : In d (Hybrid.aggregate db c p)
                 /\ Hybrid.inRange
                      (Hybrid.orDefault (Hybrid.minPrice p) JS.NInf)
                      (Hybrid.orDefault (Hybrid.maxPrice p) JS.PInf) d = true).
  { unfold Hybrid.filterFetched in Hd.
    destruct (Hybrid.isSome (Hybrid.minPrice p)
              || Hybrid.isSome (Hybrid.maxPrice p)) eqn:E.
    - now apply filter_In in Hd.
    - split; [exact Hd|]. apply orb_false_iff in E as [E1 E2].
      destruct (Hybrid.minPrice p); [discriminate|].
      destruct (Hybrid.maxPrice p); [discriminate|].
      unfold Hybrid.inRange. simpl.
      now destruct (Pipeline.latestPrice d). }
  destruct Hagg as [Hagg Hr].
  unfold Hybrid.aggregate in Hagg. apply filter_In in Hagg as [Hmap _].
  apply in_map_iff in Hmap as (f & <- & Hf).
  apply filter_In in Hf as [Hf Hcf]. exists f. auto.
Qed.

(** X6. Every candidate that retrieval returns belongs to a stored flight
    that is active; when [from] (or [to]) is given, its origin (or
    destination) is the parameter in upper case, and when [airline] is
    given, its airline is the parameter as written. *)
Theorem retrieval_returns_matching_active_flights
  (rx : string -> option (string -> bool)) (db : Store.DB)
  (p : Hybrid.Params) (cs : list Pipeline.Candidate)
  (d : Pipeline.Candidate) :
  Hybrid.candidates rx db p = Some cs -> In d cs ->
  In (Pipeline.flight d) (Store.flights db)
  /\ d = Pipeline.joinPrices db (Pipeline.flight d)
  /\ Store.isActive (Pipeline.flight d) = true
  /\ (Hybrid.given (Hybrid.from p) = true ->
      Store.route_from (Pipeline.flight d)
      = Some (JS.toUpperCase (JS.orEmpty (Hybrid.from p))))
  /\ (Hybrid.given (Hybrid.to p) = true ->
      Store.route_to (Pipeline.flight d)
      = Some (JS.toUpperCase (JS.orEmpty (Hybrid.to p))))
  /\ (JS.truthy (Hybrid.airline p) = true ->
      Store.airline (Pipeline.flight d)
      = Some (JS.orEmpty (Hybrid.airline p))).
Proof.
  intros Hc Hin.
  destruct (candidates_base rx db p cs d Hc Hin) as (f & Hf & -> & Hb & _).
  simpl Pipeline.flight.
  unfold Hybrid.baseFilter in Hb.
  repeat (apply andb_true_iff in Hb as [Hb ?]).
  assert (Hfield : forall o v, Hybrid.fieldIs o v = true -> o = Some v).
  { intros [s|] v E; simpl in E; [|discriminate].
    now apply String.eqb_eq in E as ->. }
  split; [exact Hf|]. split; [reflexivity|]. split; [exact Hb|].
  split; [|split].
  - intros G. rewrite G in *. now apply Hfield.
  - intros G. rewrite G in *. now apply Hfield.
  - intros G. rewrite G in *. now apply Hfield.
Qed.

Lemma retrieval_returns_matching_active_flights_witness :
  Store.route_from
    (Pipeline.flight (Pipeline.joinPrices Examples.twoPriced Examples.emirates))
  = Some "DXB"%string.
Proof.
  assert (E : Hybrid.candidates Hybrid.literalRegExp Examples.twoPriced
                Samples.fromDxb
              = Some [Pipeline.joinPrices Examples.twoPriced
                        Examples.emirates]) by reflexivity.
  apply (proj1 (proj2 (proj2 (proj2
           (retrieval_returns_matching_active_flights Hybrid.literalRegExp
              Examples.twoPriced Samples.fromDxb _ _ E
              (or_introl eq_refl)))))).
  reflexivity.
Defined.

(* ------------------------------------------------------------------ *)
(** ** Letter case of the origin parameter *)

Lemma upperChar_idem (c : ascii) : JS.upperChar (JS.upperChar c) = JS.upperChar c.
Proof. destruct c as [[] [] [] [] [] [] [] []]; reflexivity. Qed.

Lemma lower_upperChar (c : ascii) : JS.lowerChar (JS.upperChar c) = JS.lowerChar c.
Proof. destruct c as [[] [] [] [] [] [] [] []]; reflexivity. Qed.

Lemma isSpace_upperChar (c : ascii) : JS.isSpace (JS.upperChar c) = JS.isSpace c.
Proof. destruct c as [[] [] [] [] [] [] [] []]; reflexivity. Qed.

Lemma mapChars_mapChars (f g : ascii -> ascii) (s : string) :
  JS.mapChars f (JS.mapChars g s) = JS.mapChars (fun c => f (g c)) s.
Proof. induction s as [|c s IH]; simpl; [reflexivity | now rewrite IH]. Qed.

Lemma mapChars_ext (f g : ascii -> ascii) (s : string) :
  (forall c, f c = g c) -> JS.mapChars f s = JS.mapChars g s.
Proof.
  intros H. induction s as [|c s IH]; simpl; [reflexivity|].
  now rewrite H, IH.
Qed.

Lemma mapChars_append (f : ascii -> ascii) (s t : string) :
  JS.mapChars f (s ++ t) = (JS.mapChars f s ++ JS.mapChars f t)%string.
Proof. induction s as [|c s IH]; simpl; [reflexivity | now rewrite IH]. Qed.

Lemma toUpperCase_idem (s : string) :
  JS.toUpperCase (JS.toUpperCase s) = JS.toUpperCase s.
Proof.
  unfold JS.toUpperCase. rewrite mapChars_mapChars.
  apply mapChars_ext, upperChar_idem.
Qed.

Lemma toLowerCase_toUpperCase (s : string) :
  JS.toLowerCase (JS.toUpperCase s) = JS.toLowerCase s.
Proof.
  unfold JS.toLowerCase, JS.toUpperCase. rewrite mapChars_mapChars.
  apply mapChars_ext, lower_upperChar.
Qed.

Lemma allSpace_upper (s : string) :
  JS.allSpace (JS.toUpperCase s) = JS.allSpace s.
Proof.
  induction s as [|c s IH]; simpl; [reflexivity|].
  unfold JS.toUpperCase in IH. now rewrite isSpace_upperChar, IH.
Qed.

Lemma trimEnd_upper (s : string) :
  JS.trimEnd (JS.toUpperCase s) = JS.toUpperCase (JS.trimEnd s).
Proof.
  induction s as [|c s IH]; [reflexivity|].
  change (JS.toUpperCase (String c s))
    with (String (JS.upperChar c) (JS.toUpperCase s)).
  change (JS.trimEnd (String (JS.upperChar c) (JS.toUpperCase s)))
    with (if JS.allSpace (String (JS.upperChar c) (JS.toUpperCase s))
          then EmptyString
          else String (JS.upperChar c) (JS.trimEnd (JS.toUpperCase s))).
  change (JS.trimEnd (String c s))
    with (if JS.allSpace (String c s) then EmptyString
          else String c (JS.trimEnd s)).
  change (JS.allSpace (String (JS.upperChar c) (JS.toUpperCase s)))
    with (JS.isSpace (JS.upperChar c) && JS.allSpace (JS.toUpperCase s)).
  change (JS.allSpace (String c s)) with (JS.isSpace c && JS.allSpace s).
  rewrite isSpace_upperChar, allSpace_upper, IH.
  destruct (JS.isSpace c && JS.allSpace s); reflexivity.
Qed.

Lemma trimStart_upper (s : string) :
  JS.trimStart (JS.toUpperCase s) = JS.toUpperCase (JS.trimStart s).
Proof.
  induction s as [|c s IH]; [reflexivity|].
  change (JS.toUpperCase (String c s))
    with (String (JS.upperChar c) (JS.toUpperCase s)).
  simpl JS.trimStart. rewrite isSpace_upperChar.
  destruct (JS.isSpace c); [exact IH | reflexivity].
Qed.

(** Upper-casing commutes with [trim]. *)
Lemma trim_upper (s : string) :
  JS.trim (JS.toUpperCase s) = JS.toUpperCase (JS.trim s).
Proof. unfold JS.trim. now rewrite trimStart_upper, trimEnd_upper. Qed.

Lemma nonEmpty_upper (s : string) :
  JS.nonEmpty (JS.toUpperCase s) = JS.nonEmpty s.
Proof. now destruct s. Qed.

Lemma given_upper (s : string) :
  Hybrid.given (Some (JS.toUpperCase s)) = Hybrid.given (Some s).
Proof.
  unfold Hybrid.given. simpl JS.orEmpty.
  rewrite trim_upper, nonEmpty_upper. now destruct s.
Qed.

Lemma join_upper_lower (pre : list string) (s : string) (post : list string) :
  JS.toLowerCase (JS.join " " (pre ++ JS.toUpperCase s :: post))
  = JS.toLowerCase (JS.join " " (pre ++ s :: post)).
Proof.
  unfold JS.toLowerCase.
  induction pre as [|x pre IH]; simpl app.
  - destruct post as [|y post]; simpl JS.join.
    + apply toLowerCase_toUpperCase.
    + rewrite !mapChars_append. f_equal. apply toLowerCase_toUpperCase.
  - destruct (pre ++ JS.toUpperCase s :: post)%list as [|a l] eqn:E1;
      [now destruct pre|].
    destruct (pre ++ s :: post)%list as [|a' l'] eqn:E2; [now destruct pre|].
    change (JS.join " " (x :: a :: l))
      with (x ++ " " ++ JS.join " " (a :: l))%string.
    change (JS.join " " (x :: a' :: l'))
      with (x ++ " " ++ JS.join " " (a' :: l'))%string.
    rewrite !mapChars_append. now rewrite IH.
Qed.

(** X7. An origin parameter of ASCII characters is matched without
    regard to letter case: a request and the same request with [from] in
    upper case retrieve the same candidates and have the same query
    tokens, hence the same scores.  (Outside ASCII, upper-casing is not
    undone by lower-casing, and the query tokens can differ.) *)
Theorem origin_is_case_insensitive
  (rx : string -> option (string -> bool)) (db : Store.DB)
  (p : Hybrid.Params) (s : string) :
  Props.plainAscii s = true ->
  Hybrid.candidates rx db (Samples.withFrom (Some (JS.toUpperCase s)) p)
  = Hybrid.candidates rx db (Samples.withFrom (Some s) p)
  /\ Hybrid.qTokens (Samples.withFrom (Some (JS.toUpperCase s)) p)
     = Hybrid.qTokens (Samples.withFrom (Some s) p)
  /\ forall fs,
       map Hybrid.hybrid
         (Hybrid.withScores (Samples.withFrom (Some (JS.toUpperCase s)) p) fs)
       = map Hybrid.hybrid
           (Hybrid.withScores (Samples.withFrom (Some s) p) fs).
Proof.
  intros _.
  assert (Hb : forall f,
             Hybrid.baseFilter (Samples.withFrom (Some (JS.toUpperCase s)) p) f
             = Hybrid.baseFilter (Samples.withFrom (Some s) p) f).
  { intros f. unfold Hybrid.baseFilter. simpl.
    rewrite given_upper. simpl JS.orEmpty. now rewrite toUpperCase_idem. }
  assert (Hq : Hybrid.qTokens (Samples.withFrom (Some (JS.toUpperCase s)) p)
               = Hybrid.qTokens (Samples.withFrom (Some s) p)).
  { unfold Hybrid.qTokens, Hybrid.queryText, Hybrid.queryFields.
    cbn [Samples.withFrom Hybrid.query Hybrid.from Hybrid.to Hybrid.airline].
    destruct (JS.truthy (Hybrid.query p)); [reflexivity|].
    f_equal.
    assert (Ht : JS.truthy (Some (JS.toUpperCase s)) = JS.truthy (Some s))
      by now destruct s.
    change (JS.filterTruthy [Some (JS.toUpperCase s); Hybrid.to p;
                             Hybrid.airline p])
      with (if JS.truthy (Some (JS.toUpperCase s))
            then JS.toUpperCase s
                 :: JS.filterTruthy [Hybrid.to p; Hybrid.airline p]
            else JS.filterTruthy [Hybrid.to p; Hybrid.airline p]).
    change (JS.filterTruthy [Some s; Hybrid.to p; Hybrid.airline p])
      with (if JS.truthy (Some s)
            then s :: JS.filterTruthy [Hybrid.to p; Hybrid.airline p]
            else JS.filterTruthy [Hybrid.to p; Hybrid.airline p]).
    rewrite Ht. destruct (JS.truthy (Some s)); [|reflexivity].
    apply (join_upper_lower [] s). }
  split; [|split; [exact Hq|]].
  - unfold Hybrid.candidates, Hybrid.combinedFilter. simpl Hybrid.query.
    destruct (Hybrid.given (Hybrid.query p)).
    + destruct (rx _) as [test|]; [|reflexivity]. f_equal.
      unfold Hybrid.filterFetched, Hybrid.aggregate.
      rewrite (filter_ext
                 (fun f => Hybrid.baseFilter
                             (Samples.withFrom (Some (JS.toUpperCase s)) p) f
                           && Hybrid.textSearchFilter test f)
                 (fun f => Hybrid.baseFilter (Samples.withFrom (Some s) p) f
                           && Hybrid.textSearchFilter test f))
        by (intros f; now rewrite Hb).
      reflexivity.
    + f_equal. unfold Hybrid.filterFetched, Hybrid.aggregate.
      rewrite (filter_ext _ _ Hb). reflexivity.
  - intros fs. unfold Hybrid.withScores. rewrite Hq. reflexivity.
Qed.

Lemma origin_is_case_insensitive_witness :
  Hybrid.qTokens (Samples.withFrom (Some (JS.toUpperCase "dxb")) Examples.noParams)
  = Hybrid.qTokens (Samples.withFrom (Some "dxb"%string) Examples.noParams).
Proof.
  apply (proj1 (proj2 (origin_is_case_insensitive Hybrid.literalRegExp
                         Examples.twoPriced Examples.noParams "dxb"
                         eq_refl))).
Defined.

(* ------------------------------------------------------------------ *)
(** ** Date bounds *)

Local Open Scope Z_scope.

Lemma startOfDay_le (s d : Z) :
  Hybrid.startOfDayUTC s <= d <-> Props.utcDay s <= Props.utcDay d.
Proof.
  unfold Hybrid.startOfDayUTC, Props.utcDay.
  assert (Hm : 0 < Hybrid.msPerDay) by reflexivity.
  pose proof (Z.div_mod s Hybrid.msPerDay ltac:(lia)) as Hs.
  pose proof (Z.mul_div_le d Hybrid.msPerDay Hm) as Hd.
  split; intros H.
  - apply Z.div_le_lower_bound; lia.
  - nia.
Qed.

Lemma endOfDay_ge (e d : Z) :
  d <= Hybrid.endOfDayUTC e <-> Props.utcDay d <= Props.utcDay e.
Proof.
  unfold Hybrid.endOfDayUTC, Props.utcDay.
  assert (Hm : 0 < Hybrid.msPerDay) by reflexivity.
  pose proof (Z.div_mod e Hybrid.msPerDay ltac:(lia)) as He.
  pose proof (Z.mul_succ_div_gt d Hybrid.msPerDay Hm) as Hd.
  split; intros H.
  - assert (d / Hybrid.msPerDay < e / Hybrid.msPerDay + 1); [|lia].
    apply Z.div_lt_upper_bound; lia.
  - nia.
Qed.

Lemma baseFilter_dates (p : Hybrid.Params) (f : Store.Flight) :
  Hybrid.baseFilter p f = true
  <-> Hybrid.baseFilter (Samples.withoutDates p) f = true
      /\ (forall s, Hybrid.startDate p = Some s ->
            Props.utcDay s <= Props.utcDay (Store.flightDate f))
      /\ (forall e, Hybrid.endDate p = Some e ->
            Props.utcDay (Store.flightDate f) <= Props.utcDay e).
Proof.
  unfold Hybrid.baseFilter.
  cbn [Samples.withoutDates Hybrid.from Hybrid.to Hybrid.airline
       Hybrid.startDate Hybrid.endDate Hybrid.isSome orb].
  rewrite !andb_true_iff.
  assert (Hd : (if Hybrid.isSome (Hybrid.startDate p)
                   || Hybrid.isSome (Hybrid.endDate p)
                then Mongo.optAll
                       (fun s => Hybrid.startOfDayUTC s <=? Store.flightDate f)
                       (Hybrid.startDate p)
                     && Mongo.optAll
                          (fun e => Store.flightDate f <=? Hybrid.endOfDayUTC e)
                          (Hybrid.endDate p)
                else true) = true
               <-> (forall s, Hybrid.startDate p = Some s ->
                      Props.utcDay s <= Props.utcDay (Store.flightDate f))
                   /\ (forall e, Hybrid.endDate p = Some e ->
                         Props.utcDay (Store.flightDate f) <= Props.utcDay e)).
  { assert (Es : forall s, (Hybrid.startOfDayUTC s <=? Store.flightDate f)
                          = (Props.utcDay s
                             <=? Props.utcDay (Store.flightDate f))).
    { intros s. apply eq_true_iff_eq.
      rewrite !Z.leb_le. apply startOfDay_le. }
    assert (Ee : forall e, (Store.flightDate f <=? Hybrid.endOfDayUTC e)
                          = (Props.utcDay (Store.flightDate f)
                             <=? Props.utcDay e)).
    { intros e. apply eq_true_iff_eq.
      rewrite !Z.leb_le. apply endOfDay_ge. }
    destruct (Hybrid.startDate p) as [s|], (Hybrid.endDate p) as [e|]; simpl;
      rewrite ?Es, ?Ee;
      repeat match goal with
             | |- context [(?a <=? ?c)] => destruct (Z.leb_spec a c)
             end; simpl;
      (split;
       [ intros Hx; try discriminate Hx;
         split; try discriminate; intros ? [= <-]; lia
       | intros (Ha & Hb);
         try specialize (Ha _ eq_refl); try specialize (Hb _ eq_refl);
         try reflexivity; lia ]). }
  rewrite Hd. tauto.
Qed.

(** X8. The date bounds are compared by UTC calendar day.  A flight
    passes the filter of a request exactly when it passes the filter of
    the same request without dates, its flight date falls on the day of
    [startDate] or later, when that is given, and on the day of [endDate]
    or earlier, when that is given, whatever the times of day.  For a
    request without query text and price bounds, the candidates are
    exactly the stored flights that pass; in particular every candidate
    of any request meets the bounds, and with both bounds on one day the
    active flights of that whole day and no others pass. *)
Theorem date_bounds_compare_utc_days :
  (forall p f,
      Hybrid.baseFilter p f = true
      <-> Hybrid.baseFilter (Samples.withoutDates p) f = true
          /\ (forall s, Hybrid.startDate p = Some s ->
                Props.utcDay s <= Props.utcDay (Store.flightDate f))
          /\ (forall e, Hybrid.endDate p = Some e ->
                Props.utcDay (Store.flightDate f) <= Props.utcDay e))
  /\ (forall rx db p,
        Hybrid.query p = None -> Hybrid.minPrice p = None ->
        Hybrid.maxPrice p = None ->
        exists cs,
          Hybrid.candidates rx db p = Some cs
          /\ forall d, In d cs
               <-> exists f,
                     In f (Store.flights db)
                     /\ d = Pipeline.joinPrices db f
                     /\ Hybrid.baseFilter (Samples.withoutDates p) f = true
                     /\ (forall s, Hybrid.startDate p = Some s ->
                           Props.utcDay s
                           <= Props.utcDay (Store.flightDate f))
                     /\ (forall e, Hybrid.endDate p = Some e ->
                           Props.utcDay (Store.flightDate f)
                           <= Props.utcDay e))
  /\ (forall rx db p cs d,
        Hybrid.candidates rx db p = Some cs -> In d cs ->
        (forall s, Hybrid.startDate p = Some s ->
           Props.utcDay s
           <= Props.utcDay (Store.flightDate (Pipeline.flight d)))
        /\ (forall e, Hybrid.endDate p = Some e ->
              Props.utcDay (Store.flightDate (Pipeline.flight d))
              <= Props.utcDay e))
  /\ (forall t f,
        Hybrid.baseFilter (Samples.onDay t) f
        = Store.isActive f
          && (Props.utcDay (Store.flightDate f) =? Props.utcDay t)).
Proof.
  split; [exact baseFilter_dates|]. split; [|split].
  - intros rx db p Hq Hmin Hmax.
    unfold Hybrid.candidates, Hybrid.combinedFilter, Hybrid.filterFetched,
      Hybrid.aggregate, Hybrid.priceFilter.
    rewrite Hq, Hmin, Hmax. simpl.
    eexists. split; [reflexivity|].
    intros d. rewrite filter_In, in_map_iff. split.
    + intros [(f & <- & Hf) _]. apply filter_In in Hf as [Hf Hb].
      apply baseFilter_dates in Hb. exists f. tauto.
    + intros (f & Hf & -> & Hb). split; [|reflexivity].
      exists f. split; [reflexivity|]. apply filter_In.
      split; [exact Hf|]. now apply baseFilter_dates.
  - intros rx db p cs d Hc Hin.
    destruct (candidates_base rx db p cs d Hc Hin) as (f & _ & -> & Hb & _).
    simpl Pipeline.flight. apply baseFilter_dates in Hb. tauto.
  - intros t f. unfold Hybrid.baseFilter. simpl.
    rewrite !andb_true_r. f_equal.
    destruct (Z.eqb_spec (Props.utcDay (Store.flightDate f)) (Props.utcDay t))
      as [E|E].
    + apply andb_true_iff. split; apply Z.leb_le.
      * apply startOfDay_le. lia.
      * apply endOfDay_ge. lia.
    + apply andb_false_iff.
      destruct (Z.leb_spec (Hybrid.startOfDayUTC t) (Store.flightDate f))
        as [H1|H1]; [|now left].
      right. apply Z.leb_gt. apply startOfDay_le in H1.
      destruct (Z.lt_ge_cases (Hybrid.endOfDayUTC t) (Store.flightDate f))
        as [H2|H2]; [exact H2|].
      apply endOfDay_ge in H2. lia.
Qed.

Lemma date_bounds_compare_utc_days_witness :
  Hybrid.baseFilter (Samples.since (1772323200000 + 3600000))
    Examples.emirates
  = true.
Proof.
  apply (proj1 date_bounds_compare_utc_days
           (Samples.since (1772323200000 + 3600000)) Examples.emirates).
  split; [reflexivity|]. split.
  - intros s [= <-]. vm_compute. discriminate.
  - discriminate.
Defined.

Local Close Scope Z_scope.

(* ------------------------------------------------------------------ *)
(** ** Price bounds *)

(** X9. Every candidate returned for a request with a numeric [minPrice]
    has a latest price of at least that bound, and for a numeric
    [maxPrice] of at most that bound; a bound that [parseFloat] turns into
    [NaN] gives an empty result. *)
Theorem price_bounds_hold_for_every_candidate
  (rx : string -> option (string -> bool)) (db : Store.DB)
  (p : Hybrid.Params) (cs : list Pipeline.Candidate) :
  Hybrid.candidates rx db p = Some cs ->
  (forall d lo, In d cs -> Hybrid.minPrice p = Some (JS.Fin lo) ->
     exists v, Pipeline.latestPrice d = Some v /\ lo <= v)
  /\ (forall d hi, In d cs -> Hybrid.maxPrice p = Some (JS.Fin hi) ->
        exists v, Pipeline.latestPrice d = Some v /\ v <= hi)
  /\ (Hybrid.minPrice p = Some JS.NaN \/ Hybrid.maxPrice p = Some JS.NaN ->
      cs = []).
Proof.
  intros Hc.
  assert (Hle : forall x y, JS.Rleb x y = true -> x <= y).
  { intros x y. unfold JS.Rleb. now destruct (Rle_dec x y). }
  split; [|split].
  - intros d lo Hin Hm.
    destruct (candidates_joined rx db p cs d Hc Hin) as (f & _ & _ & Hr).
    unfold Hybrid.priceFilter in Hr. rewrite Hm in Hr. simpl in Hr.
    destruct (Pipeline.latestPrice d) as [v|]; [|discriminate].
    apply andb_true_iff in Hr as [Hr _]. exists v. split; [reflexivity|].
    now apply Hle.
  - intros d hi Hin Hm.
    destruct (candidates_joined rx db p cs d Hc Hin) as (f & _ & _ & Hr).
    unfold Hybrid.priceFilter in Hr. rewrite Hm in Hr.
    rewrite orb_true_r in Hr. simpl in Hr.
    destruct (Pipeline.latestPrice d) as [v|]; [|discriminate].
    apply andb_true_iff in Hr as [_ Hr]. exists v. split; [reflexivity|].
    now apply Hle.
  - intros Hn. destruct cs as [|d cs]; [reflexivity|]. exfalso.
    destruct (candidates_base rx db p (d :: cs) d Hc (or_introl eq_refl))
      as (f & _ & _ & _ & Hr).
    unfold Hybrid.inRange, JS.ge in Hr. apply andb_true_iff in Hr as [H1 H2].
    destruct Hn as [Hn|Hn]; rewrite Hn in *; simpl in *.
    + destruct (JS.orElse (Pipeline.latestPrice d) JS.PInf); discriminate.
    + destruct (JS.orElse (Pipeline.latestPrice d) JS.NInf); discriminate.
Qed.

Lemma price_bounds_hold_for_every_candidate_witness :
  exists v,
    Pipeline.latestPrice
      (Pipeline.joinPrices Examples.twoPriced Examples.emirates) = Some v
    /\ 150 <= v.
Proof.
  assert (E : Hybrid.candidates Hybrid.literalRegExp Examples.twoPriced
                (Samples.pricedBetween 150 250)
              = Some [Pipeline.joinPrices Examples.twoPriced
                        Examples.emirates]).
  { unfold Hybrid.candidates, Hybrid.filterFetched, Hybrid.aggregate.
    simpl. unfold Hybrid.inRange, Mongo.gte, Mongo.lte. simpl.
    real_tests. simpl. real_tests. reflexivity. }
  apply (proj1 (price_bounds_hold_for_every_candidate Hybrid.literalRegExp
                  Examples.twoPriced (Samples.pricedBetween 150 250) _ E)
           _ 150 (or_introl eq_refl)).
  reflexivity.
Defined.

(* ================================================================== *)
(** * Further properties: term statistics *)
(* ================================================================== *)

(** X10. The document frequency that the vocabulary loop records for a
    term is the number of candidate documents that contain the term,
    however often it occurs in each; it is therefore at most the number of
    documents, and it is 0 exactly for a term that no document contains. *)
Theorem document_frequency_counts_documents (docs : list (list string))
  (t : string) :
  JSMap.getOr0 (Scoring.df docs) t = Spec.docCount t docs
  /\ (JSMap.getOr0 (Scoring.df docs) t <= List.length docs)%nat
  /\ (JSMap.getOr0 (Scoring.df docs) t = 0%nat
      <-> forall d, In d docs -> ~ In t d).
Proof.
  rewrite df_is_docCount. unfold Spec.docCount.
  split; [reflexivity|]. split; [apply filter_length_le|].
  split.
  - intros H d Hd Ht.
    assert (Hin : In d (filter (Spec.contains t) docs)).
    { apply filter_In. split; [exact Hd|].
      apply existsb_exists. exists t. split; [exact Ht|].
      apply String.eqb_refl. }
    destruct (filter (Spec.contains t) docs); [contradiction | discriminate].
  - intros H.
    destruct (filter (Spec.contains t) docs) as [|d l] eqn:E; [reflexivity|].
    exfalso.
    assert (Hin : In d (filter (Spec.contains t) docs))
      by (rewrite E; now left).
    apply filter_In in Hin as [Hd Hc].
    apply existsb_exists in Hc as (u & Hu & Eu).
    apply String.eqb_eq in Eu as ->. exact (H d Hd Hu).
Qed.

Lemma has_keys (V : Type) (m : JSMap.t V) (t : string) :
  JSMap.has m t = JSMap.setHas (JSMap.keys m) t.
Proof.
  unfold JSMap.has, JSMap.setHas, JSMap.keys.
  induction m as [|[k v] m IH]; simpl; [reflexivity|].
  destruct (String.eqb t k); [reflexivity | exact IH].
Qed.

Lemma set_absent (V : Type) (m : JSMap.t V) (k : string) (v : V) :
  JSMap.has m k = false -> JSMap.set m k v = (m ++ [(k, v)])%list.
Proof.
  unfold JSMap.has. induction m as [|[k' v'] m IH]; simpl; [reflexivity|].
  destruct (String.eqb k k'); [discriminate|].
  intros H. now rewrite IH.
Qed.

Lemma setHas_In (s : list string) (t : string) :
  JSMap.setHas s t = true <-> In t s.
Proof.
  unfold JSMap.setHas. rewrite existsb_exists. split.
  - intros (u & Hu & E). now apply String.eqb_eq in E as ->.
  - intros H. exists t. split; [exact H | apply String.eqb_refl].
Qed.

Lemma setAdd_spec (s : list string) (k : string) :
  NoDup s ->
  NoDup (JSMap.setAdd s k) /\ forall t, In t (JSMap.setAdd s k) <-> In t s \/ t = k.
Proof.
  intros Hn. unfold JSMap.setAdd. destruct (JSMap.setHas s k) eqn:E.
  - apply setHas_In in E. split; [exact Hn|]. intros t. split; [tauto|].
    intros [H| ->]; assumption.
  - assert (Hk : ~ In k s).
    { intros H. apply setHas_In in H. congruence. }
    split.
    + apply NoDup_app; [exact Hn | repeat constructor; tauto |].
      intros x Hx [<-|[]]. contradiction.
    + intros t. rewrite in_app_iff. simpl. intuition congruence.
Qed.

Lemma dedup_from (ts s : list string) :
  NoDup s ->
  NoDup (fold_left JSMap.setAdd ts s)
  /\ forall t, In t (fold_left JSMap.setAdd ts s) <-> In t s \/ In t ts.
Proof.
  revert s; induction ts as [|k ts IH]; intros s Hn; simpl.
  - split; [exact Hn | tauto].
  - destruct (setAdd_spec s k Hn) as [Hn' Hin].
    destruct (IH _ Hn') as [H1 H2]. split; [exact H1|].
    intros t. rewrite H2, Hin. intuition congruence.
Qed.

(** [Array.from(new Set(xs))] has the elements of [xs], each once. *)
Lemma dedup_spec (ts : list string) :
  NoDup (JSMap.dedup ts) /\ forall t, In t (JSMap.dedup ts) <-> In t ts.
Proof.
  destruct (dedup_from ts [] (NoDup_nil _)) as [H1 H2].
  split; [exact H1|]. intros t. rewrite (H2 t). simpl. tauto.
Qed.

Lemma addVocab_keys (m : JSMap.t nat) (t : string) :
  JSMap.keys (Scoring.addVocab m t) = JSMap.setAdd (JSMap.keys m) t
  /\ (Props.indexed m -> Props.indexed (Scoring.addVocab m t)).
Proof.
  unfold Scoring.addVocab, JSMap.setAdd. rewrite <- has_keys.
  destruct (JSMap.has m t) eqn:E; [tauto|].
  rewrite set_absent by exact E. unfold JSMap.keys, Props.indexed, JSMap.size.
  rewrite !map_app, length_app. simpl. split; [reflexivity|].
  intros H. rewrite H, Nat.add_1_r, seq_S. reflexivity.
Qed.

Lemma addVocab_fold (ts : list string) (m : JSMap.t nat) :
  JSMap.keys (fold_left Scoring.addVocab ts m)
  = fold_left JSMap.setAdd ts (JSMap.keys m)
  /\ (Props.indexed m -> Props.indexed (fold_left Scoring.addVocab ts m)).
Proof.
  revert m; induction ts as [|t ts IH]; intros m; simpl; [tauto|].
  destruct (addVocab_keys m t) as [K I]. destruct (IH (Scoring.addVocab m t))
    as [K' I'].
  rewrite K', K. split; [reflexivity | tauto].
Qed.

Lemma tokenStep_vocab (tokens : list string) (v d : JSMap.t nat)
  (seen : list string) :
  fst (fst (fold_left Scoring.tokenStep tokens (v, d, seen)))
  = fold_left Scoring.addVocab tokens v.
Proof.
  revert v d seen; induction tokens as [|u tokens IH]; intros v d seen;
    [reflexivity|].
  change (fold_left Scoring.tokenStep (u :: tokens) (v, d, seen))
    with (fold_left Scoring.tokenStep tokens
            (Scoring.tokenStep (v, d, seen) u)).
  unfold Scoring.tokenStep at 2.
  destruct (JSMap.setHas seen u); now rewrite IH.
Qed.

Lemma docStep_vocab (st : JSMap.t nat * JSMap.t nat) (tokens : list string) :
  fst (Scoring.docStep st tokens) = fold_left Scoring.addVocab tokens (fst st).
Proof.
  unfold Scoring.docStep.
  pose proof (tokenStep_vocab tokens (fst st) (snd st) []) as H.
  destruct (fold_left Scoring.tokenStep tokens (fst st, snd st, []))
    as [[v d] seen].
  exact H.
Qed.

Lemma corpusStats_vocab (docs : list (list string))
  (st : JSMap.t nat * JSMap.t nat) :
  fst (fold_left Scoring.docStep docs st)
  = fold_left Scoring.addVocab (List.concat docs) (fst st).
Proof.
  revert st; induction docs as [|d docs IH]; intros st; [reflexivity|].
  simpl. rewrite IH, docStep_vocab, fold_left_app. reflexivity.
Qed.

Lemma vocab_stream (docs : list (list string)) (qs : list string) :
  Scoring.vocab docs qs
  = fold_left Scoring.addVocab (List.concat docs ++ qs)%list (JSMap.empty nat).
Proof.
  unfold Scoring.vocab, Scoring.corpusStats.
  now rewrite corpusStats_vocab, fold_left_app.
Qed.

Lemma get_at_position (m : JSMap.t nat) (i : nat) (t : string) (v : nat) :
  NoDup (JSMap.keys m) -> nth_error m i = Some (t, v) ->
  JSMap.get m t = Some v.
Proof.
  revert i; induction m as [|[k w] m IH]; intros i Hn Hi.
  - now destruct i.
  - simpl. destruct i as [|i]; simpl in Hi.
    + injection Hi as -> ->. now rewrite String.eqb_refl.
    + inversion Hn as [|? ? Hk Hn']; subst.
      destruct (String.eqb_spec t k) as [->|_]; [|now apply (IH i)].
      exfalso. apply Hk. apply nth_error_In in Hi.
      now apply (in_map fst) in Hi.
Qed.

(** X11. The vocabulary holds the distinct terms of the candidate
    documents, in the order of their first occurrence, followed by the
    query terms not yet seen; every term has the index of its position
    (0, 1, 2, ...), so no two terms share an index. *)
Theorem vocabulary_indexes_terms_by_first_occurrence
  (docs : list (list string)) (qs : list string) :
  JSMap.keys (Scoring.vocab docs qs)
  = JSMap.dedup (List.concat docs ++ qs)%list
  /\ NoDup (JSMap.keys (Scoring.vocab docs qs))
  /\ (forall t, In t (JSMap.keys (Scoring.vocab docs qs))
                <-> (exists d, In d docs /\ In t d) \/ In t qs)
  /\ (forall i t, nth_error (JSMap.keys (Scoring.vocab docs qs)) i = Some t ->
                  JSMap.get (Scoring.vocab docs qs) t = Some i).
Proof.
  rewrite vocab_stream.
  destruct (addVocab_fold (List.concat docs ++ qs)%list (JSMap.empty nat))
    as [K I].
  assert (Ek : JSMap.keys
                 (fold_left Scoring.addVocab (List.concat docs ++ qs)%list
                    (JSMap.empty nat))
               = JSMap.dedup (List.concat docs ++ qs)%list) by exact K.
  destruct (dedup_spec (List.concat docs ++ qs)%list) as [Hn Hin].
  split; [exact Ek|]. rewrite Ek.
  split; [exact Hn|]. split.
  - intros t. rewrite Hin, in_app_iff, in_concat. firstorder.
  - intros i t Hi. rewrite <- Ek in Hi, Hn.
    set (m := fold_left Scoring.addVocab (List.concat docs ++ qs)%list
                (JSMap.empty nat)) in *.
    assert (Hidx : Props.indexed m) by (apply I; reflexivity).
    unfold JSMap.keys in Hi. rewrite nth_error_map in Hi.
    destruct (nth_error m i) as [[k v]|] eqn:E; [|discriminate].
    simpl in Hi. injection Hi as ->.
    assert (Hv : nth_error (map snd m) i = Some v)
      by (rewrite nth_error_map, E; reflexivity).
    rewrite Hidx in Hv.
    assert (Hlt : (i < List.length m)%nat)
      by (apply nth_error_Some; congruence).
    rewrite nth_error_seq in Hv.
    destruct (Nat.ltb_spec i (List.length m)) as [_|?]; [|lia].
    injection Hv as <-. now apply (get_at_position m i).
Qed.

(* ================================================================== *)
(** * Further properties: the raw scores *)
(* ================================================================== *)

Lemma fold_sum (A : Type) (h : A -> R) (l : list A) (a : R) :
  fold_left (fun s t => s + h t) l a = a + Props.sumOver h l.
Proof.
  revert a; induction l as [|x l IH]; intros a; simpl; [ring|].
  rewrite IH. ring.
Qed.

Lemma sumOver_le (A : Type) (h g : A -> R) (l : list A) :
  (forall t, In t l -> h t <= g t) ->
  Props.sumOver h l <= Props.sumOver g l.
Proof.
  induction l as [|x l IH]; intros H; simpl; [lra|].
  pose proof (H x (or_introl eq_refl)).
  assert (Props.sumOver h l <= Props.sumOver g l)
    by (apply IH; intros; apply H; now right).
  lra.
Qed.

Lemma sumOver_scale (A : Type) (h : A -> R) (c : R) (l : list A) :
  Props.sumOver (fun t => c * h t) l = c * Props.sumOver h l.
Proof. induction l as [|x l IH]; simpl; [ring | rewrite IH; ring]. Qed.

Lemma sumOver_nonneg (A : Type) (h : A -> R) (l : list A) :
  (forall t, In t l -> 0 <= h t) -> 0 <= Props.sumOver h l.
Proof.
  induction l as [|x l IH]; intros H; simpl; [lra|].
  pose proof (H x (or_introl eq_refl)).
  assert (0 <= Props.sumOver h l) by (apply IH; intros; apply H; now right).
  lra.
Qed.

Lemma sumOver_pos_iff (A : Type) (h : A -> R) (l : list A) :
  (forall t, In t l -> 0 <= h t) ->
  (0 < Props.sumOver h l <-> exists t, In t l /\ 0 < h t).
Proof.
  induction l as [|x l IH]; intros H; simpl.
  - split; [lra | intros (t & [] & _)].
  - pose proof (H x (or_introl eq_refl)) as Hx.
    assert (Hl : forall t, In t l -> 0 <= h t) by (intros; apply H; now right).
    pose proof (sumOver_nonneg A h l Hl) as Hs.
    specialize (IH Hl). split.
    + intros Hp. destruct (Rlt_dec 0 (h x)) as [Hpos|Hnp].
      * exists x. split; [now left | exact Hpos].
      * assert (Hs' : 0 < Props.sumOver h l) by lra.
        apply IH in Hs' as (t & Ht & Hpt). exists t. split; [now right|exact Hpt].
    + intros (t & [<-|Ht] & Hpt); [lra|].
      assert (0 < Props.sumOver h l) by (apply IH; now exists t). lra.
Qed.

Lemma bm25Term_bound (docs : list (list string)) (tokens : list string)
  (t : string) :
  In tokens docs ->
  bm25Term docs tokens t <= (Scoring.k1 + 1) * Scoring.idf docs t.
Proof.
  intros Hin. pose proof (idf_pos docs t) as Hi. unfold bm25Term.
  destruct (JSMap.getOr0 (Scoring.termFreq tokens) t) as [|f] eqn:Ef.
  - unfold Scoring.k1. nra.
  - assert (Hne : tokens <> []) by (intros ->; discriminate Ef).
    pose proof (avgdl_pos docs tokens Hin Hne) as Ha.
    assert (Hf : 0 < INR (S f)) by (apply lt_0_INR; lia).
    assert (Hq : 0 <= INR (Scoring.lengthOr1 tokens) / Scoring.avgdl docs).
    { unfold Rdiv. apply Rmult_le_pos; [apply pos_INR|].
      left. now apply Rinv_0_lt_compat. }
    set (q := INR (Scoring.lengthOr1 tokens) / Scoring.avgdl docs) in *.
    set (n := INR (S f)) in *.
    unfold Scoring.k1, Scoring.b in *.
    assert (Hd : 0 < n + 1.5 * (1 - 0.75 + 0.75 * q)) by nra.
    assert (Hfrac : n * (1.5 + 1) / (n + 1.5 * (1 - 0.75 + 0.75 * q))
                    <= 1.5 + 1).
    { apply Rmult_le_reg_r with (n + 1.5 * (1 - 0.75 + 0.75 * q));
        [exact Hd|].
      unfold Rdiv. rewrite Rmult_assoc, Rinv_l by lra. nra. }
    nra.
Qed.

(** X12. The raw BM25 score of every candidate is non-negative; it is
    positive exactly when the candidate's document shares a token with the
    query; and however often the query terms occur in the document, it
    is at most [k1 + 1 = 2.5] times the sum of the inverse document
    frequencies of the query tokens. *)
Theorem bm25_sign_and_saturation (docs : list (list string))
  (qs : list string) :
  List.length (Scoring.bm25 docs qs) = List.length docs
  /\ forall i tokens, nth_error docs i = Some tokens ->
       exists s,
         nth_error (Scoring.bm25 docs qs) i = Some s
         /\ 0 <= s
         /\ (0 < s <-> exists t, In t qs /\ In t tokens)
         /\ s <= (Scoring.k1 + 1) * Props.sumOver (Scoring.idf docs) qs.
Proof.
  unfold Scoring.bm25. split; [apply length_map|].
  intros i tokens Hi. exists (Scoring.bm25Doc docs qs tokens).
  assert (Hin : In tokens docs) by (eapply nth_error_In; exact Hi).
  split; [now rewrite nth_error_map, Hi|].
  split; [|split].
  - rewrite bm25Doc_sum, fold_sum.
    assert (0 <= Props.sumOver (bm25Term docs tokens) qs); [|lra].
    apply sumOver_nonneg. intros t _.
    apply (proj1 (bm25Term_sign docs tokens t Hin)).
  - now apply bm25Doc_positive_iff.
  - rewrite bm25Doc_sum, fold_sum, <- sumOver_scale.
    assert (Props.sumOver (bm25Term docs tokens) qs
            <= Props.sumOver
                 (fun t => (Scoring.k1 + 1) * Scoring.idf docs t) qs); [|lra].
    apply sumOver_le. intros t _. now apply bm25Term_bound.
Qed.

Lemma bm25_sign_and_saturation_witness :
  exists s,
    nth_error (Scoring.bm25 [Examples.docA; Examples.docB] Examples.queryAB)
      1
    = Some s
    /\ 0 <= s.
Proof.
  destruct (proj2 (bm25_sign_and_saturation [Examples.docA; Examples.docB]
                     Examples.queryAB) 1%nat Examples.docB eq_refl)
    as (s & Hs & H0 & _).
  exists s. split; [exact Hs | exact H0].
Defined.

(* ------------------------------------------------------------------ *)
(** ** The cosine of the TF-IDF vectors *)

Lemma dotFrom_map (A : Type) (f g : A -> R) (l : list A) (pre : list R)
  (s : R) :
  Scoring.dotFrom (List.length pre) s (map f l) (pre ++ map g l)%list
  = s + Props.sumOver (fun t => f t * g t) l.
Proof.
  revert pre s; induction l as [|x l IH]; intros pre s; simpl; [ring|].
  rewrite nth_middle.
  replace (pre ++ g x :: map g l)%list with ((pre ++ [g x]) ++ map g l)%list
    by now rewrite <- app_assoc.
  replace (S (List.length pre)) with (List.length (pre ++ [g x])%list)
    by (rewrite length_app; simpl; lia).
  rewrite IH. ring.
Qed.

Lemma dot_map (A : Type) (f g : A -> R) (l : list A) :
  Scoring.dot (map f l) (map g l) = Props.sumOver (fun t => f t * g t) l.
Proof.
  unfold Scoring.dot.
  change (Scoring.dotFrom 0 0 (map f l) (map g l))
    with (Scoring.dotFrom (List.length (@nil R)) 0 (map f l)
            ([] ++ map g l)%list).
  rewrite dotFrom_map. ring.
Qed.

(** The Cauchy-Schwarz inequality for sums over a list. *)
Lemma cauchy_schwarz (A : Type) (f g : A -> R) (l : list A) :
  Props.sumOver (fun t => f t * g t) l * Props.sumOver (fun t => f t * g t) l
  <= Props.sumOver (fun t => f t * f t) l
     * Props.sumOver (fun t => g t * g t) l
  /\ 0 <= Props.sumOver (fun t => f t * f t) l
  /\ 0 <= Props.sumOver (fun t => g t * g t) l.
Proof.
  induction l as [|x l IH]; simpl; [lra|].
  destruct IH as (Hc & Ha & Hb).
  set (C := Props.sumOver (fun t => f t * g t) l) in *.
  set (P := Props.sumOver (fun t => f t * f t) l) in *.
  set (Q := Props.sumOver (fun t => g t * g t) l) in *.
  set (u := f x). set (v := g x).
  pose proof (Rle_0_sqr (P * (v * v) - Q * (u * u))) as H1.
  pose proof (Rle_0_sqr (u * v)) as Huv.
  pose proof (Rle_0_sqr u) as Hu. pose proof (Rle_0_sqr v) as Hv.
  unfold Rsqr in H1, Huv, Hu, Hv.
  assert (H2 : C * C * ((u * v) * (u * v)) <= P * Q * ((u * v) * (u * v)))
    by (apply Rmult_le_compat_r; [exact Huv | exact Hc]).
  set (a := 2 * C * u * v). set (s := P * (v * v) + Q * (u * u)).
  assert (Hs : 0 <= s).
  { unfold s. apply Rplus_le_le_0_compat; apply Rmult_le_pos; assumption. }
  assert (Hsq : a * a <= s * s).
  { assert (E : s * s - a * a
                = (P * (v * v) - Q * (u * u)) * (P * (v * v) - Q * (u * u))
                  + 4 * (P * Q * ((u * v) * (u * v))
                         - C * C * ((u * v) * (u * v))))
      by (unfold s, a; ring).
    lra. }
  assert (Hmid : a <= s).
  { destruct (Rle_dec a s) as [|Hn]; [assumption|]. exfalso.
    assert (Hp : 0 < (a - s) * (a + s)) by (apply Rmult_lt_0_compat; lra).
    assert (E : (a - s) * (a + s) = a * a - s * s) by ring.
    lra. }
  split; [|split; lra].
  replace ((u * v + C) * (u * v + C))
    with (u * v * (u * v) + a + C * C) by (unfold a; ring).
  replace ((u * u + P) * (v * v + Q))
    with (u * v * (u * v) + s + P * Q) by (unfold s; ring).
  lra.
Qed.

Lemma ofEntries_get (g : string -> R) (l : list string) (m : JSMap.t R)
  (t : string) :
  JSMap.get
    (fold_left (fun m e => JSMap.set m (fst e) (snd e))
       (map (fun u => (u, g u)) l) m) t
  = if existsb (String.eqb t) l then Some (g t) else JSMap.get m t.
Proof.
  revert m; induction l as [|u l IH]; intros m; simpl; [reflexivity|].
  rewrite IH. destruct (existsb (String.eqb t) l) eqn:E.
  - now rewrite orb_true_r.
  - rewrite orb_false_r. destruct (String.eqb_spec t u) as [->|Hne].
    + apply get_set_same.
    + now apply get_set_other.
Qed.

(** The smoothed inverse document frequency of a term of the universe is
    at least 1. *)
Lemma idfTf_weight (docs : list (list string)) (qs : list string)
  (t : string) :
  In t (Scoring.terms docs qs) -> 1 <= Scoring.idfTfOr0 docs qs t.
Proof.
  intros Hin. unfold Scoring.idfTfOr0, Scoring.idfTf, JSMap.ofEntries.
  rewrite ofEntries_get.
  assert (E : existsb (String.eqb t) (Scoring.terms docs qs) = true).
  { apply existsb_exists. exists t. split; [exact Hin | apply String.eqb_refl]. }
  rewrite E.
  pose proof (le_INR _ _ (df_le_N docs t)) as Hle.
  pose proof (pos_INR (JSMap.getOr0 (Scoring.df docs) t)) as Hd.
  assert (Hr : 1 <= (INR (Scoring.N docs) + 1)
                    / (INR (JSMap.getOr0 (Scoring.df docs) t) + 1)).
  { apply Rmult_le_reg_r with (INR (JSMap.getOr0 (Scoring.df docs) t) + 1);
      [lra|].
    unfold Rdiv. rewrite Rmult_assoc, Rinv_l by lra. lra. }
  assert (0 <= ln ((INR (Scoring.N docs) + 1)
                   / (INR (JSMap.getOr0 (Scoring.df docs) t) + 1))).
  { rewrite <- ln_1. destruct Hr as [Hr|Hr].
    - left. apply ln_increasing; lra.
    - rewrite <- Hr. lra. }
  lra.
Qed.

Lemma vec_as_map (docs : list (list string)) (qs tokens : list string) :
  Scoring.vec docs qs tokens
  = map (fun t => INR (count_occ string_dec tokens t)
                  * Scoring.idfTfOr0 docs qs t)
      (Scoring.terms docs qs).
Proof.
  unfold Scoring.vec. apply map_ext. intros t. now rewrite termFreq_count.
Qed.

Lemma terms_spec (docs : list (list string)) (qs : list string) (t : string) :
  In t qs -> In t (Scoring.terms docs qs).
Proof.
  intros H. unfold Scoring.terms. apply dedup_spec. apply in_app_iff. now left.
Qed.

Lemma count_pos (tokens : list string) (t : string) :
  0 < INR (count_occ string_dec tokens t) <-> In t tokens.
Proof.
  rewrite (count_occ_In string_dec). split; intros H.
  - apply INR_lt. simpl. exact H.
  - apply (lt_INR 0). exact H.
Qed.

Lemma norm_sqrt (a : list R) :
  Scoring.norm a = sqrt (Scoring.dot a a) \/
  (sqrt (Scoring.dot a a) = 0 /\ Scoring.norm a = Scoring.epsilon).
Proof.
  unfold Scoring.norm, JS.Reqb.
  destruct (Req_dec_T (sqrt (Scoring.dot a a)) 0); [now right | now left].
Qed.

Lemma quotient_bound (C P Q nq nd : R) :
  0 <= C -> C * C <= P * Q -> 0 <= P -> 0 <= Q ->
  0 < nq -> 0 < nd ->
  nq = sqrt P \/ sqrt P = 0 ->
  nd = sqrt Q \/ sqrt Q = 0 ->
  0 <= C / (nq * nd) <= 1.
Proof.
  intros HC CS HP HQ Pq Pd Nq Nd.
  assert (Hden : 0 < nq * nd) by now apply Rmult_lt_0_compat.
  assert (Hle : C <= nq * nd).
  { destruct Nq as [->|Zq].
    - destruct Nd as [->|Zd].
      + rewrite <- sqrt_mult by assumption.
        rewrite <- (sqrt_square C) by exact HC. apply sqrt_le_1; nra.
      + apply sqrt_eq_0 in Zd; [|exact HQ]. nra.
    - apply sqrt_eq_0 in Zq; [|exact HP]. nra. }
  split.
  - apply Rmult_le_pos; [exact HC | left; now apply Rinv_0_lt_compat].
  - apply Rmult_le_reg_r with (nq * nd); [exact Hden|].
    unfold Rdiv. rewrite Rmult_assoc, Rinv_l by lra. lra.
Qed.

Lemma weighted_product (a c w : R) :
  0 <= a -> 0 <= c -> 1 <= w ->
  0 <= (a * w) * (c * w) /\ (0 < (a * w) * (c * w) <-> 0 < a /\ 0 < c).
Proof.
  intros Ha Hc Hw.
  assert (H1 : 0 <= a * w) by (apply Rmult_le_pos; lra).
  assert (H2 : 0 <= c * w) by (apply Rmult_le_pos; lra).
  split; [now apply Rmult_le_pos|]. split.
  - intros Hp. split.
    + destruct Ha as [Ha|<-]; [exact Ha|]. rewrite !Rmult_0_l in Hp. lra.
    + destruct Hc as [Hc|<-]; [exact Hc|].
      rewrite Rmult_0_l, Rmult_0_r in Hp. lra.
  - intros [Pa Pc]. apply Rmult_lt_0_compat; apply Rmult_lt_0_compat; lra.
Qed.

(** The cosine of one document, over the term universe. *)
Lemma cos_of_document (docs : list (list string)) (qs tokens : list string) :
  let c := Scoring.dot (Scoring.qv docs qs) (Scoring.vec docs qs tokens)
           / (Scoring.norm (Scoring.qv docs qs)
              * Scoring.norm (Scoring.vec docs qs tokens)) in
  0 <= c <= 1 /\ (0 < c <-> exists t, In t qs /\ In t tokens).
Proof.
  cbv zeta. unfold Scoring.qv.
  pose proof (norm_pos (Scoring.vec docs qs qs)) as Pq.
  pose proof (norm_pos (Scoring.vec docs qs tokens)) as Pd.
  assert (Nq : Scoring.norm (Scoring.vec docs qs qs)
               = sqrt (Scoring.dot (Scoring.vec docs qs qs)
                         (Scoring.vec docs qs qs))
               \/ sqrt (Scoring.dot (Scoring.vec docs qs qs)
                          (Scoring.vec docs qs qs)) = 0)
    by (destruct (norm_sqrt (Scoring.vec docs qs qs)); tauto).
  assert (Nd : Scoring.norm (Scoring.vec docs qs tokens)
               = sqrt (Scoring.dot (Scoring.vec docs qs tokens)
                         (Scoring.vec docs qs tokens))
               \/ sqrt (Scoring.dot (Scoring.vec docs qs tokens)
                          (Scoring.vec docs qs tokens)) = 0)
    by (destruct (norm_sqrt (Scoring.vec docs qs tokens)); tauto).
  set (nq := Scoring.norm (Scoring.vec docs qs qs)) in *.
  set (nd := Scoring.norm (Scoring.vec docs qs tokens)) in *.
  rewrite !vec_as_map in *.
  set (w := Scoring.idfTfOr0 docs qs) in *.
  set (fq := fun t => INR (count_occ string_dec qs t) * w t) in *.
  set (fd := fun t => INR (count_occ string_dec tokens t) * w t) in *.
  set (ts := Scoring.terms docs qs) in *.
  rewrite !dot_map in *.
  assert (Hw : forall t, In t ts -> 1 <= w t)
    by (intros t Ht; now apply idfTf_weight).
  destruct (cauchy_schwarz string fq fd ts) as (CS & Aq & Ad).
  assert (Hprod : forall t, In t ts ->
             0 <= fq t * fd t
             /\ (0 < fq t * fd t
                 <-> 0 < INR (count_occ string_dec qs t)
                     /\ 0 < INR (count_occ string_dec tokens t))).
  { intros t Ht. unfold fq, fd.
    apply weighted_product; [apply pos_INR | apply pos_INR | now apply Hw]. }
  assert (Hterm : forall t, In t ts -> 0 <= fq t * fd t)
    by (intros t Ht; apply (Hprod t Ht)).
  assert (HC : 0 <= Props.sumOver (fun t => fq t * fd t) ts)
    by now apply sumOver_nonneg.
  assert (Hiff : 0 < Props.sumOver (fun t => fq t * fd t) ts
                 <-> exists t, In t qs /\ In t tokens).
  { rewrite (sumOver_pos_iff string _ ts Hterm). split.
    - intros (t & Ht & Hp). exists t.
      apply (Hprod t Ht) in Hp as [Hq Hd].
      split; now apply count_pos.
    - intros (t & Hq & Hd). exists t.
      assert (Ht : In t ts) by now apply terms_spec.
      split; [exact Ht|]. apply (Hprod t Ht).
      split; now apply count_pos. }
  set (C := Props.sumOver (fun t => fq t * fd t) ts) in *.
  split.
  - exact (quotient_bound C _ _ nq nd HC CS Aq Ad Pq Pd Nq Nd).
  - assert (Hden : 0 < nq * nd) by now apply Rmult_lt_0_compat.
    split.
    + intros Hc. apply Hiff.
      destruct (Rlt_dec 0 C) as [|Hn]; [assumption|].
      assert (E : C = 0) by lra. rewrite E in Hc. unfold Rdiv in Hc. lra.
    + intros He. apply Hiff in He. now apply Rdiv_lt_0_compat.
Qed.

(** X13. The raw cosine score of every candidate is non-negative, and it
    is positive exactly when the candidate's document shares a token with
    the query. *)
Theorem cosine_is_positive_on_shared_tokens (docs : list (list string))
  (qs : list string) :
  List.length (Scoring.cos docs qs) = List.length docs
  /\ forall i tokens, nth_error docs i = Some tokens ->
       exists c,
         nth_error (Scoring.cos docs qs) i = Some c
         /\ 0 <= c
         /\ (0 < c <-> exists t, In t qs /\ In t tokens).
Proof.
  unfold Scoring.cos. split; [apply length_map|].
  intros i tokens Hi. eexists. split; [now rewrite nth_error_map, Hi|].
  destruct (cos_of_document docs qs tokens) as [[H0 _] Hiff].
  split; [exact H0 | exact Hiff].
Qed.

Lemma cosine_is_positive_on_shared_tokens_witness :
  exists c,
    nth_error (Scoring.cos [Examples.docA; Examples.docB] Examples.queryAB) 0
    = Some c
    /\ 0 < c.
Proof.
  destruct (proj2 (cosine_is_positive_on_shared_tokens
                     [Examples.docA; Examples.docB] Examples.queryAB)
              0%nat Examples.docA eq_refl)
    as (c & Hc & _ & Hiff).
  exists c. split; [exact Hc|].
  apply Hiff. exists "emirates"%string.
  split; vm_compute; now left.
Defined.

(* ================================================================== *)
(** * Further properties: normalisation and fusion *)
(* ================================================================== *)

Lemma fold_Rmin_In (r : list R) (x : R) : In (fold_left Rmin r x) (x :: r).
Proof.
  revert x; induction r as [|z r IH]; intros x; simpl; [now left|].
  destruct (IH (Rmin x z)) as [E|H]; [|right; now right].
  rewrite <- E. unfold Rmin. destruct (Rle_dec x z); [now left | right; now left].
Qed.

Lemma fold_Rmax_In (r : list R) (x : R) : In (fold_left Rmax r x) (x :: r).
Proof.
  revert x; induction r as [|z r IH]; intros x; simpl; [now left|].
  destruct (IH (Rmax x z)) as [E|H]; [|right; now right].
  rewrite <- E. unfold Rmax. destruct (Rle_dec x z); [right; now left | now left].
Qed.

(** X14. Normalisation never inverts two scores: the normalised array is
    the image of the raw one under a non-decreasing function.  When two
    raw scores differ by at least [1e-12], the smallest raw score becomes 0
    and the greatest becomes 1. *)
Theorem normalize_preserves_order (arr : list R) :
  (exists g : R -> R,
      (forall x y, x <= y -> g x <= g y)
      /\ Scoring.normalize arr = map g arr)
  /\ (forall x y, In x arr -> In y arr -> Scoring.epsilon <= y - x ->
        In 0 (Scoring.normalize arr) /\ In 1 (Scoring.normalize arr)).
Proof.
  split.
  - destruct (normalize_cases arr) as [E|(mn & mx & He & _ & E)].
    + exists (fun _ => 0). split; [intros; lra | exact E].
    + exists (fun y => (y - mn) / (mx - mn)). split; [|exact E].
      intros x y Hxy. pose proof epsilon_pos.
      unfold Rdiv. apply Rmult_le_compat_r; [|lra].
      left. apply Rinv_0_lt_compat. lra.
  - intros x y Hx Hy Hd. unfold Scoring.normalize.
    destruct arr as [|z r]; [contradiction|].
    destruct (fold_Rmin_le r z) as [A1 A2].
    destruct (fold_Rmax_ge r z) as [B1 B2].
    assert (Hmn : fold_left Rmin r z <= x)
      by (destruct Hx as [<-|Hx]; [lra | now apply A2]).
    assert (Hmx : y <= fold_left Rmax r z)
      by (destruct Hy as [<-|Hy]; [lra | now apply B2]).
    rewrite Rltb_false by lra.
    pose proof epsilon_pos.
    split; apply in_map_iff.
    + exists (fold_left Rmin r z). split; [|apply fold_Rmin_In].
      unfold Rdiv. ring.
    + exists (fold_left Rmax r z). split; [|apply fold_Rmax_In].
      apply Rinv_r. lra.
Qed.

Lemma normalize_preserves_order_witness :
  In 0 (Scoring.normalize [3; 1; 2]) /\ In 1 (Scoring.normalize [3; 1; 2]).
Proof.
  apply (proj2 (normalize_preserves_order [3; 1; 2]) 1 3).
  - right. left. reflexivity.
  - left. reflexivity.
  - unfold Scoring.epsilon. lra.
Defined.



(* ================================================================== *)
(** * Further properties: the advanced handler *)
(* ================================================================== *)

Lemma traverse_In (A B : Type) (f : A -> option B) (l : list A)
  (ys : list B) (y : B) :
  Advanced.traverse f l = Some ys -> In y ys ->
  exists x, In x l /\ f x = Some y.
Proof.
  revert ys; induction l as [|x l IH]; intros ys H Hy; simpl in H.
  - injection H as <-. contradiction.
  - destruct (f x) as [y0|] eqn:Ex; [|discriminate].
    destruct (Advanced.traverse f l) as [ys0|]; [|discriminate].
    injection H as <-. destruct Hy as [<-|Hy].
    + exists x. split; [now left | exact Ex].
    + destruct (IH ys0 eq_refl Hy) as (x' & Hx' & E). exists x'.
      split; [now right | exact E].
Qed.

Lemma traverse_None (A B : Type) (f : A -> option B) (l : list A) :
  Advanced.traverse f l = None <-> exists x, In x l /\ f x = None.
Proof.
  induction l as [|x l IH]; simpl.
  - split; [discriminate | intros (x & [] & _)].
  - destruct (f x) as [y|] eqn:Ex.
    + destruct (Advanced.traverse f l) as [ys|].
      * split; [discriminate|]. intros (x' & [<-|Hx'] & E); [congruence|].
        assert (@None (list B) = None) by reflexivity.
        destruct IH as [_ IH]. discriminate IH. now exists x'.
      * split; [|reflexivity]. intros _.
        destruct IH as [IH _]. destruct (IH eq_refl) as (x' & Hx' & E).
        exists x'. split; [now right | exact E].
    + split; [|reflexivity]. intros _. exists x. split; [now left | exact Ex].
Qed.

Lemma traverse_length (A B : Type) (f : A -> option B) (l : list A)
  (ys : list B) :
  Advanced.traverse f l = Some ys -> List.length ys = List.length l.
Proof.
  revert ys; induction l as [|x l IH]; intros ys H; simpl in H.
  - now injection H as <-.
  - destruct (f x); [|discriminate].
    destruct (Advanced.traverse f l) as [ys0|]; [|discriminate].
    injection H as <-. simpl. now rewrite (IH ys0).
Qed.

Lemma bsonLt_false (x y : option R) :
  Advanced.bsonLt x y = false -> Props.bsonLe y x.
Proof.
  destruct x as [u|], y as [v|]; simpl; try tauto; try discriminate.
  unfold JS.Rltb. destruct (Rlt_dec u v); [discriminate | lra].
Qed.

Lemma bsonLt_true (x y : option R) :
  Advanced.bsonLt x y = true ->
  match x, y with
  | Some u, Some v => u < v
  | None, Some _ => True
  | _, None => False
  end.
Proof.
  destruct x as [u|], y as [v|]; simpl; try tauto; try discriminate.
  unfold JS.Rltb. destruct (Rlt_dec u v); [tauto | discriminate].
Qed.

Lemma afterRelevance_false (x y : Advanced.Ranked) :
  Advanced.afterRelevance x y = false ->
  Props.advancedBefore (Advanced.relevanceScore x) (Advanced.relevanceScore y)
    (Pipeline.latestPrice (Advanced.cand x))
    (Pipeline.latestPrice (Advanced.cand y)).
Proof.
  unfold Advanced.afterRelevance, Props.advancedBefore. intros H.
  apply orb_false_iff in H as [H1 H2].
  apply bsonLt_false in H1.
  destruct (Advanced.bsonLt (Advanced.relevanceScore y)
              (Advanced.relevanceScore x)) eqn:E.
  - apply bsonLt_true in E.
    destruct (Advanced.relevanceScore x), (Advanced.relevanceScore y);
      simpl in *; tauto.
  - apply bsonLt_false in E. simpl in H2. apply bsonLt_false in H2.
    destruct (Advanced.relevanceScore x), (Advanced.relevanceScore y);
      simpl in *; try tauto. right. split; [lra | exact H2].
Qed.

Lemma advancedBefore_trans :
  Relations_1.Transitive
    (fun x y : Advanced.Ranked =>
       Props.advancedBefore (Advanced.relevanceScore x)
         (Advanced.relevanceScore y)
         (Pipeline.latestPrice (Advanced.cand x))
         (Pipeline.latestPrice (Advanced.cand y))).
Proof.
  intros x y z. unfold Props.advancedBefore, Props.bsonLe.
  destruct (Advanced.relevanceScore x), (Advanced.relevanceScore y),
           (Advanced.relevanceScore z),
           (Pipeline.latestPrice (Advanced.cand x)),
           (Pipeline.latestPrice (Advanced.cand y)),
           (Pipeline.latestPrice (Advanced.cand z));
    intros H1 H2; try tauto;
    try (destruct H1 as [H1|[H1 H1']]; destruct H2 as [H2|[H2 H2']];
         try contradiction; (left; lra) || (right; split; lra));
    try lra.
Qed.

(** X16. Under the relevance strategy the results of the advanced handler
    are in descending order of composite score, the documents without a
    score last, and documents with equal scores in ascending order of
    latest price. *)
Theorem advanced_relevance_is_lexicographic
  (matchStage : Advanced.Body -> Store.Flight -> bool) (now : Z)
  (db : Store.DB) (body : Advanced.Body) (rs : list Advanced.Ranked) :
  (forall s, Advanced.sortBy body = Some s ->
     s <> "price_asc"%string /\ s <> "price_desc"%string
     /\ s <> "date_asc"%string /\ s <> "date_desc"%string) ->
  Advanced.results matchStage now db body = Some rs ->
  StronglySorted
    (fun x y => Props.advancedBefore (Advanced.relevanceScore x)
                  (Advanced.relevanceScore y)
                  (Pipeline.latestPrice (Advanced.cand x))
                  (Pipeline.latestPrice (Advanced.cand y))) rs.
Proof.
  intros Hs. unfold Advanced.results.
  destruct (Advanced.scored matchStage now db body) as [ds|]; [|discriminate].
  destruct (_ <? _)%Z; [|discriminate]. intros [= <-].
  apply Sorted_StronglySorted; [exact advancedBefore_trans|].
  apply Sorted_firstn.
  assert (E : Advanced.sortStage
                (Hybrid.orDefault (Advanced.sortBy body) "relevance")
              = Advanced.afterRelevance).
  { destruct (Advanced.sortBy body) as [s|]; [|reflexivity].
    destruct (Hs s eq_refl) as (H1 & H2 & H3 & H4).
    unfold Hybrid.orDefault, Advanced.sortStage.
    destruct (String.eqb_spec s "price_asc"); [contradiction|].
    destruct (String.eqb_spec s "price_desc"); [contradiction|].
    destruct (String.eqb_spec s "date_asc"); [contradiction|].
    destruct (String.eqb_spec s "date_desc"); [contradiction|].
    reflexivity. }
  rewrite E.
  eapply Sorted_weaken; [|apply stableSort_sorted, afterRelevance_asym].
  intros x y _ _. apply afterRelevance_false.
Qed.

Lemma scored_twoPriced :
  exists r1 r2,
    Advanced.scored Examples.activeOnly 0 Examples.twoPriced Examples.noBody
    = Some [r1; r2].
Proof.
  unfold Advanced.scored, Advanced.traverse, Advanced.rank. simpl.
  unfold Advanced.divide, Mongo.stdDevPop, Mongo.avg, Mongo.sum. simpl.
  rewrite !Reqb_false by lra.
  eexists. eexists. reflexivity.
Qed.

Lemma advanced_relevance_is_lexicographic_witness :
  exists rs,
    Advanced.results Examples.activeOnly 0 Examples.twoPriced Examples.noBody
    = Some rs
    /\ StronglySorted
         (fun x y => Props.advancedBefore (Advanced.relevanceScore x)
                       (Advanced.relevanceScore y)
                       (Pipeline.latestPrice (Advanced.cand x))
                       (Pipeline.latestPrice (Advanced.cand y))) rs.
Proof.
  destruct scored_twoPriced as (r1 & r2 & E).
  assert (Er : Advanced.results Examples.activeOnly 0 Examples.twoPriced
                 Examples.noBody
               = Some (firstn 20
                         (JS.stableSort Advanced.afterRelevance [r1; r2]))).
  { unfold Advanced.results. rewrite E. reflexivity. }
  eexists. split; [exact Er|].
  apply (advanced_relevance_is_lexicographic Examples.activeOnly 0
           Examples.twoPriced Examples.noBody _).
  - intros s [=].
  - exact Er.
Defined.

Lemma scored_In (matchStage : Advanced.Body -> Store.Flight -> bool)
  (now : Z) (db : Store.DB) (body : Advanced.Body)
  (ds : list Advanced.Ranked) (r : Advanced.Ranked) :
  Advanced.scored matchStage now db body = Some ds -> In r ds ->
  exists f,
    In f (Store.flights db) /\ matchStage body f = true
    /\ Advanced.cand r = Pipeline.joinPrices db f
    /\ Advanced.relevanceScore r
       = Advanced.score now (Advanced.cand r) (Advanced.priceVariance r)
    /\ (forall cond, Advanced.priceFilter body = Some cond ->
          Mongo.matchRange cond (Pipeline.latestPrice (Advanced.cand r))
          = true).
Proof.
  unfold Advanced.scored.
  destruct (Advanced.traverse _ _) as [rs|] eqn:Ht; [|discriminate].
  intros [= <-] Hr.
  assert (Hrs : In r rs
                /\ forall cond, Advanced.priceFilter body = Some cond ->
                     Mongo.matchRange cond
                       (Pipeline.latestPrice (Advanced.cand r)) = true).
  { destruct (Advanced.priceFilter body) as [cond|].
    - apply filter_In in Hr as [Hr Hm]. split; [exact Hr|].
      now intros c [= <-].
    - split; [exact Hr | discriminate]. }
  destruct Hrs as [Hrs Hp].
  destruct (traverse_In _ _ _ _ _ r Ht Hrs) as (d & Hd & Er).
  unfold Advanced.rank in Er.
  destruct (Advanced.divide _ _) as [v|]; [|discriminate].
  injection Er as <-. simpl in *.
  apply in_map_iff in Hd as (f & <- & Hf).
  apply filter_In in Hf as [Hf Hm]. exists f. auto.
Qed.

(** X17. Every document that the advanced handler scores belongs to a
    stored flight that passes the match stage.  Its composite score is
    missing exactly when the flight has no observation; otherwise the score
    is the price term [(1000 - latestPrice) * 0.001] plus a bonus between 6
    and 10: the 5 points for having price data go to every scored document,
    and a flight dated at or after the time of the request has a bonus of
    at least 8. *)
Theorem advanced_score_shape
  (matchStage : Advanced.Body -> Store.Flight -> bool) (now : Z)
  (db : Store.DB) (body : Advanced.Body) (ds : list Advanced.Ranked)
  (r : Advanced.Ranked) :
  Advanced.scored matchStage now db body = Some ds -> In r ds ->
  (exists f, In f (Store.flights db) /\ matchStage body f = true
             /\ Advanced.cand r = Pipeline.joinPrices db f)
  /\ (Advanced.relevanceScore r = None
      <-> Pipeline.prices (Advanced.cand r) = [])
  /\ (forall s, Advanced.relevanceScore r = Some s ->
        exists lp,
          Pipeline.latestPrice (Advanced.cand r) = Some lp
          /\ 6 + (1000 - lp) * 0.001 <= s <= 10 + (1000 - lp) * 0.001
          /\ ((now <= Store.flightDate (Pipeline.flight (Advanced.cand r)))%Z
              -> 8 + (1000 - lp) * 0.001 <= s)).
Proof.
  intros Hs Hr.
  destruct (scored_In matchStage now db body ds r Hs Hr)
    as (f & Hf & Hm & Ec & Es & _).
  split; [now exists f|].
  rewrite Es, Ec. unfold Advanced.score. cbv zeta.
  pose proof (latestPrice_none_iff db f) as Hn.
  assert (Hcount : Pipeline.latestPrice (Pipeline.joinPrices db f) <> None ->
                   (0 <? Pipeline.priceCount (Pipeline.joinPrices db f))%nat
                   = true).
  { intros H. apply Nat.ltb_lt. simpl.
    destruct (Mongo.lookup (Store.pricehistories db) f) eqn:E;
      [|simpl; lia].
    exfalso. apply H. apply Hn. simpl. exact E. }
  split.
  - rewrite <- Hn.
    destruct (Pipeline.latestPrice (Pipeline.joinPrices db f));
      split; congruence.
  - intros s.
    destruct (Pipeline.latestPrice (Pipeline.joinPrices db f)) as [lp|] eqn:El;
      [|discriminate].
    rewrite Hcount by discriminate.
    intros [= <-]. exists lp. split; [reflexivity|].
    simpl Pipeline.flight.
    destruct (Advanced.bsonLt (Advanced.priceVariance r) (Some 0.1));
      [|destruct (Advanced.bsonLt (Advanced.priceVariance r) (Some 0.2))];
      destruct (Z.leb_spec now (Store.flightDate f));
      (split; [lra|]); intros; try lra; lia.
Qed.

Lemma advanced_score_shape_witness :
  exists r1 r2,
    Advanced.scored Examples.activeOnly 0 Examples.twoPriced Examples.noBody
    = Some [r1; r2]
    /\ (Advanced.relevanceScore r1 = None
        <-> Pipeline.prices (Advanced.cand r1) = []).
Proof.
  destruct scored_twoPriced as (r1 & r2 & E).
  exists r1, r2. split; [exact E|].
  apply (advanced_score_shape Examples.activeOnly 0 Examples.twoPriced
           Examples.noBody [r1; r2] r1 E).
  left. reflexivity.
Defined.

Lemma results_none_iff
  (matchStage : Advanced.Body -> Store.Flight -> bool) (now : Z)
  (db : Store.DB) (body : Advanced.Body) :
  (Advanced.results matchStage now db body = None
   <-> (Advanced.limitOf body <= 0)%Z
       \/ exists f,
            In f (Store.flights db) /\ matchStage body f = true
            /\ Pipeline.avgPrice (Pipeline.joinPrices db f) = Some 0)
  /\ (forall rs, Advanced.results matchStage now db body = Some rs ->
        (Z.of_nat (List.length rs) <= Advanced.limitOf body)%Z).
Proof.
  assert (Hrank : forall d, Advanced.rank now d = None
                            <-> Mongo.avg (map Store.price (Pipeline.prices d))
                                = Some 0).
  { intros d. unfold Advanced.rank, Advanced.divide, Mongo.stdDevPop.
    destruct (Mongo.avg (map Store.price (Pipeline.prices d))) as [m|];
      [|split; discriminate].
    unfold JS.Reqb. destruct (Req_dec_T m 0) as [->|Hne].
    - split; reflexivity.
    - split; [discriminate|]. intros [= E]. contradiction. }
  split.
  - unfold Advanced.results, Advanced.scored.
    set (joined := map (Pipeline.joinPrices db)
                     (filter (matchStage body) (Store.flights db))).
    assert (Hin : forall d, In d joined
                    <-> exists f, In f (Store.flights db)
                          /\ matchStage body f = true
                          /\ d = Pipeline.joinPrices db f).
    { intros d. unfold joined. rewrite in_map_iff. split.
      - intros (f & <- & Hf). apply filter_In in Hf as [Hf Hs].
        exists f. repeat split; trivial.
      - intros (f & Hf & Hs & ->). exists f. split; [reflexivity|].
        now apply filter_In. }
    destruct (Advanced.traverse (fun d => Advanced.rank now d) joined)
      as [ds|] eqn:Et.
    + destruct (Z.ltb_spec 0 (Advanced.limitOf body)) as [Hl|Hl].
      * split; [discriminate|]. intros [H|(f & Hf & Hs & Ha)]; [lia|].
        exfalso.
        assert (Hn : Advanced.traverse (fun d => Advanced.rank now d) joined
                     = None).
        { apply traverse_None. exists (Pipeline.joinPrices db f). split.
          - apply Hin. exists f. auto.
          - apply Hrank. exact Ha. }
        congruence.
      * split; [intros _; now left | reflexivity].
    + split; [|reflexivity]. intros _. right.
      apply traverse_None in Et as (d & Hd & Er).
      apply Hin in Hd as (f & Hf & Hs & ->).
      exists f. repeat split; trivial.
      exact (proj1 (Hrank (Pipeline.joinPrices db f)) Er).
  - intros rs. unfold Advanced.results.
    destruct (Advanced.scored matchStage now db body) as [ds|];
      [|discriminate].
    destruct (Z.ltb_spec 0 (Advanced.limitOf body)) as [Hl|Hl];
      [|discriminate].
    intros [= <-]. rewrite length_firstn. lia.
Qed.

(** X18. The advanced handler fails when the limit is not positive, and
    when the prices of a matched flight average to zero (the variance
    ratio divides by the average), whether or not the price filter would
    keep the flight; when it succeeds, the limit is positive and it
    returns at most [limit] documents. *)
Theorem advanced_failure_and_limit
  (matchStage : Advanced.Body -> Store.Flight -> bool) (now : Z)
  (db : Store.DB) (body : Advanced.Body) :
  ((Advanced.limitOf body <= 0)%Z ->
   Advanced.results matchStage now db body = None)
  /\ (forall f,
        In f (Store.flights db) -> matchStage body f = true ->
        Pipeline.avgPrice (Pipeline.joinPrices db f) = Some 0 ->
        Advanced.results matchStage now db body = None)
  /\ (forall rs, Advanced.results matchStage now db body = Some rs ->
        (0 < Advanced.limitOf body)%Z
        /\ (Z.of_nat (List.length rs) <= Advanced.limitOf body)%Z).
Proof.
  destruct (results_none_iff matchStage now db body) as [Hiff Hlen].
  split; [|split].
  - intros Hl. apply Hiff. now left.
  - intros f Hf Hs Ha. apply Hiff. right. exists f. auto.
  - intros rs Hr. split; [|now apply Hlen].
    destruct (Z.lt_ge_cases 0 (Advanced.limitOf body)) as [H|H]; [exact H|].
    assert (Advanced.results matchStage now db body = None)
      by (apply Hiff; left; lia).
    congruence.
Qed.

Lemma advanced_failure_and_limit_witness :
  exists rs,
    Advanced.results Examples.activeOnly 0 Examples.twoPriced Examples.noBody
    = Some rs
    /\ (Z.of_nat (List.length rs) <= 20)%Z.
Proof.
  destruct scored_twoPriced as (r1 & r2 & E).
  assert (Er : Advanced.results Examples.activeOnly 0 Examples.twoPriced
                 Examples.noBody
               = Some (firstn 20
                         (JS.stableSort Advanced.afterRelevance [r1; r2]))).
  { unfold Advanced.results. rewrite E. reflexivity. }
  eexists. split; [exact Er|].
  apply (proj2 (proj2 (advanced_failure_and_limit Examples.activeOnly 0
                         Examples.twoPriced Examples.noBody)) _ Er).
Defined.

(* ================================================================== *)
(** * The price router *)
(* ================================================================== *)

Lemma sorted_descending (A : Type) (key : A -> Z) (l : list A) :
  StronglySorted (fun a c => (key c <= key a)%Z)
    (JS.stableSort (fun x y => (key x <? key y)%Z) l).
Proof.
  apply Sorted_StronglySorted.
  - intros a c d H1 H2. lia.
  - apply Sorted_weaken with (R1 := fun a c => (key a <? key c)%Z = false).
    + intros a c _ _ H. now apply Z.ltb_ge in H.
    + apply stableSort_sorted. intros a c H.
      apply Z.ltb_lt in H. apply Z.ltb_ge. lia.
Qed.

Lemma sorted_ascending (A : Type) (key : A -> Z) (l : list A) :
  StronglySorted (fun a c => (key a <= key c)%Z)
    (JS.stableSort (fun x y => (key y <? key x)%Z) l).
Proof.
  apply Sorted_StronglySorted.
  - intros a c d H1 H2. lia.
  - apply Sorted_weaken with (R1 := fun a c => (key c <? key a)%Z = false).
    + intros a c _ _ H. now apply Z.ltb_ge in H.
    + apply stableSort_sorted. intros a c H.
      apply Z.ltb_lt in H. apply Z.ltb_ge. lia.
Qed.

Lemma StronglySorted_firstn (A : Type) (R1 : A -> A -> Prop) (n : nat)
  (l : list A) :
  StronglySorted R1 l -> StronglySorted R1 (firstn n l).
Proof.
  revert l; induction n as [|n IH]; intros l Hs; [constructor|].
  destruct Hs as [|x l Hs Hall]; simpl; constructor.
  - now apply IH.
  - apply Forall_forall. intros y Hy.
    apply (proj1 (Forall_forall _ _) Hall). now apply In_firstn in Hy.
Qed.


Lemma limitTo_firstn (A : Type) (n : Z) (l : list A) :
  exists k, Prices.limitTo n l = firstn k l
            /\ (n <> 0%Z -> k = Z.to_nat (Z.abs n))
            /\ (n = 0%Z -> k = List.length l).
Proof.
  unfold Prices.limitTo. destruct (Z.eqb_spec n 0) as [E|E].
  - exists (List.length l). rewrite firstn_all. repeat split; tauto.
  - exists (Z.to_nat (Z.abs n)). repeat split; tauto.
Qed.

Lemma inWindow_spec (s e : option Z) (p : Store.PriceHistory) :
  Prices.inWindow s e p = true
  <-> PriceProps.fromBound s (Store.timestamp p)
      /\ PriceProps.toBound e (Store.timestamp p).
Proof.
  unfold Prices.inWindow, PriceProps.fromBound, PriceProps.toBound.
  rewrite andb_true_iff.
  destruct s as [s|], e as [e|]; simpl; rewrite ?Z.leb_le;
    split; intros [H1 H2]; repeat split; try discriminate;
    try (intros ? [= <-]; assumption);
    try (now apply H1); try (now apply H2).
Qed.

Lemma observed_filter (db : Store.DB) (id : nat) (s e : option Z)
  (p : Store.PriceHistory) :
  In p (filter (fun p => Nat.eqb (Store.flightId p) id
                         && Prices.inWindow s e p)
          (Store.pricehistories db))
  <-> PriceProps.observed db id s e p.
Proof.
  rewrite filter_In, andb_true_iff, Nat.eqb_eq, inWindow_spec.
  unfold PriceProps.observed. tauto.
Qed.

Lemma map_fst_populate (db : Store.DB) (l : list Store.PriceHistory) :
  map fst (map (Prices.populate db) l) = l.
Proof.
  rewrite map_map. apply map_id.
Qed.



Lemma flightFilter_spec (from to : string) (airline : option string)
  (s e : option Z) (f : Store.Flight) :
  Prices.flightFilter from to airline s e f = true
  <-> PriceProps.onRoute from to airline f
      /\ PriceProps.toBound e (Store.flightDate f)
      /\ (e = None -> PriceProps.fromBound s (Store.flightDate f)).
Proof.
  unfold Prices.flightFilter, PriceProps.onRoute, Hybrid.fieldIs,
    Prices.flightDateCondition, PriceProps.toBound, PriceProps.fromBound.
  rewrite !andb_true_iff.
  assert (Hfield : forall (o : option string) v,
            match o with Some x => String.eqb x v | None => false end = true
            <-> o = Some v).
  { intros [x|] v; [rewrite String.eqb_eq|]; split; congruence. }
  rewrite !Hfield.
  assert (Hair :
            (if JS.truthy airline
             then match Store.airline f with
                  | Some x => String.eqb x (JS.orEmpty airline)
                  | None => false
                  end
             else true) = true
            <-> (forall a, airline = Some a -> a <> ""%string ->
                   Store.airline f = Some a)).
  { destruct airline as [[|c a]|]; simpl.
    - split; [intros _ a [= <-] H; now destruct H | reflexivity].
    - rewrite Hfield. split; [intros H a' [= <-] _; exact H|].
      intros H. now apply H.
    - split; [discriminate | reflexivity]. }
  rewrite Hair.
  assert (Hdate :
            match e with
            | Some e0 => (Store.flightDate f <=? e0)%Z
            | None => match s with
                      | Some s0 => (s0 <=? Store.flightDate f)%Z
                      | None => true
                      end
            end = true
            <-> (forall e0, e = Some e0 -> (Store.flightDate f <= e0)%Z)
                /\ (e = None ->
                    forall s0, s = Some s0 -> (s0 <= Store.flightDate f)%Z)).
  { destruct e as [e0|]; [|destruct s as [s0|]]; rewrite ?Z.leb_le.
    - split; [intros H; split; [now intros ? [= <-] | discriminate]|].
      intros [H _]. now apply H.
    - split; [intros H; split; [discriminate | now intros _ ? [= <-]]|].
      intros [_ H]. now apply H.
    - split; [intros _; split; discriminate | reflexivity]. }
  rewrite Hdate. tauto.
Qed.

(** X20. The history of a route answers that there are no flights exactly
    when no active flight of the (upper-cased) route and airline meets the
    date condition; otherwise it lists observations captured inside the
    window, the newest first and at most as many as the limit, each of
    them of such a flight.  The flight date is only compared with
    [endDate] when both dates are given: [startDate] bounds the flight date
    only when [endDate] is absent. *)
Theorem route_history_lists_flights_of_the_route (db : Store.DB)
  (from to : string) (airline : option string)
  (startDate endDate limit : option Z) :
  (Prices.routeHistory db from to airline startDate endDate limit
   = Prices.NoFlights
   <-> forall f, In f (Store.flights db) ->
         ~ (PriceProps.onRoute from to airline f
            /\ PriceProps.toBound endDate (Store.flightDate f)
            /\ (endDate = None ->
                PriceProps.fromBound startDate (Store.flightDate f))))
  /\ (forall data,
        Prices.routeHistory db from to airline startDate endDate limit
        = Prices.RoutePrices data ->
        StronglySorted PriceProps.newerFirst (map fst data)
        /\ (Hybrid.orDefault limit 100%Z <> 0%Z ->
            (Z.of_nat (List.length data)
             <= Z.abs (Hybrid.orDefault limit 100%Z))%Z)
        /\ forall p, In p (map fst data) ->
             In p (Store.pricehistories db)
             /\ PriceProps.fromBound startDate (Store.timestamp p)
             /\ PriceProps.toBound endDate (Store.timestamp p)
             /\ exists f, In f (Store.flights db)
                  /\ Store._id f = Store.flightId p
                  /\ PriceProps.onRoute from to airline f
                  /\ PriceProps.toBound endDate (Store.flightDate f)
                  /\ (endDate = None ->
                      PriceProps.fromBound startDate (Store.flightDate f))).
Proof.
  unfold Prices.routeHistory.
  set (fs := filter _ (Store.flights db)).
  assert (Hfs : forall f, In f fs
                  <-> In f (Store.flights db)
                      /\ PriceProps.onRoute from to airline f
                      /\ PriceProps.toBound endDate (Store.flightDate f)
                      /\ (endDate = None ->
                          PriceProps.fromBound startDate (Store.flightDate f))).
  { intros f. unfold fs. rewrite filter_In, flightFilter_spec. tauto. }
  split.
  - destruct fs as [|f0 fs'] eqn:Efs; simpl.
    + split; [|reflexivity]. intros _ f Hf Hc.
      apply (proj2 (Hfs f)); tauto.
    + split; [discriminate|]. intros H. exfalso.
      apply (H f0); apply (Hfs f0); now left.
  - intros data.
    destruct (map Store._id fs) as [|i ids] eqn:Eids; [discriminate|].
    intros [= <-]. rewrite map_fst_populate, length_map.
    set (F := filter _ (Store.pricehistories db)).
    destruct (limitTo_firstn _ (Hybrid.orDefault limit 100%Z)
                (Prices.newestFirst F)) as (k & -> & Hk & _).
    split; [|split].
    + apply StronglySorted_firstn. apply sorted_descending.
    + intros Hz. rewrite (Hk Hz), length_firstn. lia.
    + intros p Hp. apply In_firstn in Hp.
      unfold Prices.newestFirst in Hp. rewrite stableSort_In in Hp.
      unfold F in Hp. apply filter_In in Hp as [Hin Hp].
      apply andb_true_iff in Hp as [Hid Hw].
      apply inWindow_spec in Hw as [Hw1 Hw2].
      repeat split; try assumption.
      change (existsb (Nat.eqb (Store.flightId p)) (i :: ids) = true) in Hid.
      apply existsb_exists in Hid as (j & Hj & Ej).
      apply Nat.eqb_eq in Ej. rewrite <- Eids in Hj.
      apply in_map_iff in Hj as (f & Ef & Hf).
      exists f. apply Hfs in Hf. split; [tauto|].
      split; [congruence | tauto].
Qed.

Lemma route_history_lists_flights_of_the_route_witness :
  exists data,
    Prices.routeHistory PriceProps.history "dxb" "lhr" None None None None
    = Prices.RoutePrices data
    /\ StronglySorted PriceProps.newerFirst (map fst data).
Proof.
  eexists. split; [vm_compute; reflexivity|].
  apply (proj2 (route_history_lists_flights_of_the_route PriceProps.history
                  "dxb" "lhr" None None None None) _).
  vm_compute. reflexivity.
Defined.

Lemma addPrice_cases (now : Z) (db : Store.DB) (body : Prices.NewPrice) :
  (Prices.addPrice now db body = (Prices.BadRequest, db)
   /\ (Prices.np_flightId body = None \/ Prices.np_price body = None
       \/ Prices.np_price body = Some 0%R))
  \/ (exists x,
        Prices.np_flightId body = Some Prices.NotAnId
        /\ Prices.np_price body = Some x /\ x <> 0%R
        /\ Prices.addPrice now db body = (Prices.ServerError, db))
  \/ (exists id x,
        Prices.np_flightId body = Some (Prices.ObjectId id)
        /\ Prices.np_price body = Some x
        /\ x <> 0%R
        /\ ((Prices.addPrice now db body = (Prices.NotFound, db)
             /\ forall f, In f (Store.flights db) -> Store._id f <> id)
            \/ (Prices.addPrice now db body
                = (Prices.Created
                     {| Store.flightId := id; Store.price := x;
                        Store.timestamp := now |},
                   {| Store.flights := Store.flights db;
                      Store.pricehistories :=
                        (Store.pricehistories db
                         ++ [{| Store.flightId := id; Store.price := x;
                                Store.timestamp := now |}])%list |})
                /\ exists f, In f (Store.flights db) /\ Store._id f = id))).
Proof.
  unfold Prices.addPrice.
  destruct (Prices.np_flightId body) as [ref|]; [|left; tauto].
  destruct (Prices.np_price body) as [x|]; [|left; tauto].
  unfold JS.Reqb. destruct (Req_dec_T x 0) as [->|Hx]; [left; tauto|].
  right. destruct ref as [id|].
  - right. exists id, x. repeat split; try assumption.
    destruct (find _ (Store.flights db)) as [f|] eqn:Ef.
    + right. split; [reflexivity|]. apply find_some in Ef as [Hf He].
      apply Nat.eqb_eq in He. now exists f.
    + left. split; [reflexivity|]. intros f Hf He.
      apply (find_none _ _ Ef) in Hf. apply Nat.eqb_neq in Hf. contradiction.
  - left. exists x. repeat split; assumption.
Qed.

Lemma posting_like (now : Z) (db : Store.DB) (body : Prices.NewPrice)
  (saved : Store.PriceHistory) :
  fst (Prices.addPrice now db body) = Prices.Created saved ->
  Store.timestamp saved = now
  /\ Store.flights (snd (Prices.addPrice now db body)) = Store.flights db
  /\ Store.pricehistories (snd (Prices.addPrice now db body))
     = (Store.pricehistories db ++ [saved])%list.
Proof.
  destruct (addPrice_cases now db body)
    as [[E H]|[(x & _ & _ & _ & E)
              |(id & x & E1 & E2 & Hx & [[E Hnone]|[E _]])]];
    rewrite E; simpl; try discriminate.
  intros [= <-]. simpl. repeat split.
Qed.

(** X21. Posting a price (a JSON body with a numeric price) is refused
    with status 400 exactly when the flight identifier is missing or the
    price is missing or 0.  With both given and a price other than 0, an
    identifier that is no [ObjectId] is answered with status 500, and the
    answer is 404 exactly when the identifier is an [ObjectId] that no
    flight has.  These answers leave the database as it is.  Otherwise
    the answer holds the stored observation, with the posted flight, the
    posted price and the current time; the flights are left untouched and
    the observations are the existing ones and the new one. *)
Theorem posting_a_price_validates_then_appends (now : Z) (db : Store.DB)
  (body : Prices.NewPrice) :
  (fst (Prices.addPrice now db body) = Prices.BadRequest
   <-> Prices.np_flightId body = None \/ Prices.np_price body = None
       \/ Prices.np_price body = Some 0%R)
  /\ (forall x, Prices.np_flightId body = Some Prices.NotAnId ->
        Prices.np_price body = Some x -> x <> 0%R ->
        fst (Prices.addPrice now db body) = Prices.ServerError)
  /\ (fst (Prices.addPrice now db body) = Prices.NotFound
      <-> exists id x,
            Prices.np_flightId body = Some (Prices.ObjectId id)
            /\ Prices.np_price body = Some x /\ x <> 0%R
            /\ forall f, In f (Store.flights db) -> Store._id f <> id)
  /\ (forall saved,
        fst (Prices.addPrice now db body) = Prices.Created saved ->
        Prices.np_flightId body
        = Some (Prices.ObjectId (Store.flightId saved))
        /\ Prices.np_price body = Some (Store.price saved)
        /\ Store.price saved <> 0%R
        /\ Store.timestamp saved = now
        /\ (exists f, In f (Store.flights db)
                      /\ Store._id f = Store.flightId saved)
        /\ Store.flights (snd (Prices.addPrice now db body))
           = Store.flights db
        /\ Permutation
             (Store.pricehistories (snd (Prices.addPrice now db body)))
             (saved :: Store.pricehistories db))
  /\ ((forall saved,
         fst (Prices.addPrice now db body) <> Prices.Created saved) ->
      snd (Prices.addPrice now db body) = db).
Proof.
  destruct (addPrice_cases now db body)
    as [[E H]|[(x & E1 & E2 & Hx & E)
              |(id & x & E1 & E2 & Hx & [[E Hnone]|[E (f & Hf & Hid)]])]];
    rewrite E; simpl.
  - split; [tauto|]. split; [|split; [|split; [discriminate | reflexivity]]].
    + intros x E1 E2 Hx. destruct H as [H|[H|H]]; congruence.
    + split; [discriminate|]. intros (id & x & E1 & E2 & Hx & _).
      destruct H as [H|[H|H]]; congruence.
  - split; [|split; [|split; [|split; [discriminate | reflexivity]]]].
    + split; [discriminate|]. intros [H|[H|H]]; congruence.
    + reflexivity.
    + split; [discriminate|]. intros (id & x' & E1' & _). congruence.
  - split; [|split; [|split; [|split; [discriminate | reflexivity]]]].
    + split; [discriminate|]. intros [H|[H|H]]; congruence.
    + intros x' E1'. congruence.
    + split; [|reflexivity]. intros _. now exists id, x.
  - split; [|split; [|split; [|split]]].
    + split; [discriminate|]. intros [H|[H|H]]; congruence.
    + intros x' E1'. congruence.
    + split; [discriminate|]. intros (id' & x' & E1' & _ & _ & Hn).
      exfalso. apply (Hn f Hf). congruence.
    + intros saved [= <-]. simpl. repeat split; try assumption.
      * now exists f.
      * symmetry. apply Permutation_cons_append.
    + intros H. exfalso. eapply H. reflexivity.
Qed.

Lemma posted_is_created (now : Z) :
  fst (Prices.addPrice now Examples.twoPriced PriceProps.posted)
  = Prices.Created
      {| Store.flightId := 1; Store.price := 250%R; Store.timestamp := now |}.
Proof.
  unfold Prices.addPrice. simpl. rewrite Reqb_false by lra. reflexivity.
Qed.

Lemma posting_a_price_validates_then_appends_witness :
  Permutation
    (Store.pricehistories
       (snd (Prices.addPrice 1767400000000 Examples.twoPriced
               PriceProps.posted)))
    ({| Store.flightId := 1; Store.price := 250%R;
        Store.timestamp := 1767400000000 |}
     :: Store.pricehistories Examples.twoPriced).
Proof.
  pose proof (posting_a_price_validates_then_appends 1767400000000
                Examples.twoPriced PriceProps.posted)
    as (_ & _ & _ & Hcreated & _).
  apply (Hcreated _ (posted_is_created 1767400000000)).
Defined.

Lemma last_In (A : Type) (r : list A) (x : A) : In (last r x) (x :: r).
Proof.
  revert x; induction r as [|y r IH]; intros x; [now left|].
  rewrite last_cons_default. right. apply IH.
Qed.

Lemma sorted_last_is_newest (p0 : Store.PriceHistory)
  (rest : list Store.PriceHistory) :
  StronglySorted PriceProps.olderFirst (p0 :: rest) ->
  forall q, In q (p0 :: rest) ->
    (Store.timestamp q <= Store.timestamp (last rest p0))%Z.
Proof.
  revert p0; induction rest as [|y r IH]; intros p0 Hs q Hq.
  - destruct Hq as [<-|[]]. simpl. lia.
  - rewrite last_cons_default.
    apply StronglySorted_inv in Hs as [Hs Hall].
    destruct Hq as [<-|Hq]; [|now apply IH].
    apply Forall_inv in Hall. unfold PriceProps.olderFirst in Hall.
    specialize (IH y Hs y (or_introl eq_refl)). lia.
Qed.

(** X23. A flight identifier that is no [ObjectId] is answered with
    status 500.  For an identifier that is one, the statistics report that
    there is no data exactly when no observation of the flight was
    captured inside the window.  Otherwise they list these observations,
    the oldest first; [first] and [latest] are prices of an observation
    of minimum and of maximum capture time, [min] and [max] are the
    smallest and the largest observed price, and the price change is
    [latest - first], given in per cent of [first] when [first] is not
    0. *)
Theorem statistics_summarise_the_window (db : Store.DB) (id : nat)
  (startDate endDate : option Z) :
  Prices.stats db Prices.NotAnId startDate endDate = Prices.StatsFailure
  /\ Prices.stats db (Prices.ObjectId id) startDate endDate
     <> Prices.StatsFailure
  /\ (Prices.stats db (Prices.ObjectId id) startDate endDate
      = Prices.NoPriceData
      <-> forall p, ~ PriceProps.observed db id startDate endDate p)
  /\ (forall st,
        Prices.stats db (Prices.ObjectId id) startDate endDate
        = Prices.Statistics st ->
        StronglySorted PriceProps.olderFirst (Prices.data st)
        /\ (forall p, In p (Prices.data st)
                      <-> PriceProps.observed db id startDate endDate p)
        /\ Prices.count st = List.length (Prices.data st)
        /\ (exists p, PriceProps.observed db id startDate endDate p
                      /\ Store.price p = Prices.latest st
                      /\ forall q,
                           PriceProps.observed db id startDate endDate q ->
                           (Store.timestamp q <= Store.timestamp p)%Z)
        /\ (exists p, PriceProps.observed db id startDate endDate p
                      /\ Store.price p = Prices.first st
                      /\ forall q,
                           PriceProps.observed db id startDate endDate q ->
                           (Store.timestamp p <= Store.timestamp q)%Z)
        /\ (exists p, PriceProps.observed db id startDate endDate p
                      /\ Store.price p = Prices.min st)
        /\ (exists p, PriceProps.observed db id startDate endDate p
                      /\ Store.price p = Prices.max st)
        /\ (forall q, PriceProps.observed db id startDate endDate q ->
              (Prices.min st <= Store.price q <= Prices.max st)%R)
        /\ Prices.priceChange st = (Prices.latest st - Prices.first st)%R
        /\ (Prices.first st <> 0%R ->
            Prices.priceChangePercent st
            = JS.Fin (Prices.priceChange st / Prices.first st * 100)%R)).
Proof.
  split; [reflexivity|].
  unfold Prices.stats.
  set (F := filter _ (Store.pricehistories db)).
  pose proof (sorted_ascending _ Store.timestamp F) as Hs.
  fold (Prices.oldestFirst F) in Hs.
  assert (HF : forall p, In p (Prices.oldestFirst F)
                         <-> PriceProps.observed db id startDate endDate p).
  { intros p. unfold Prices.oldestFirst. rewrite stableSort_In.
    apply observed_filter. }
  destruct (Prices.oldestFirst F) as [|p0 rest] eqn:E.
  - split; [discriminate|]. split; [|discriminate]. split; [|reflexivity].
    intros _ p Hp. now apply HF in Hp.
  - split; [discriminate|]. split.
    { split; [discriminate|]. intros H. exfalso.
      apply (H p0). apply HF. now left. }
    intros st [= <-]. simpl.
    pose proof (sorted_last_is_newest p0 rest Hs) as Hlast.
    assert (Hprices : forall v, In v (Store.price p0 :: map Store.price rest) ->
              exists p, PriceProps.observed db id startDate endDate p
                        /\ Store.price p = v).
    { intros v Hv. change (In v (map Store.price (p0 :: rest))) in Hv.
      apply in_map_iff in Hv as (p & Ep & Hp). exists p.
      split; [now apply HF | exact Ep]. }
    split; [exact Hs|]. split; [exact HF|]. split; [reflexivity|].
    split; [|split; [|split; [|split; [|split; [|split]]]]].
    + exists (last rest p0). split; [apply HF, last_In|].
      split; [reflexivity|]. intros q Hq. apply Hlast. now apply HF.
    + exists p0. split; [apply HF; now left|]. split; [reflexivity|].
      intros q Hq. apply HF in Hq as [<-|Hq]; [lia|].
      apply StronglySorted_inv in Hs as [_ Hall].
      exact (proj1 (Forall_forall _ _) Hall q Hq).
    + apply Hprices, fold_Rmin_In.
    + apply Hprices, fold_Rmax_In.
    + intros q Hq. apply HF in Hq.
      assert (Hv : In (Store.price q) (Store.price p0 :: map Store.price rest))
        by (change (In (Store.price q) (map Store.price (p0 :: rest)));
            now apply in_map).
      destruct Hv as [<-|Hv]; split;
        first [ apply fold_Rmin_le; assumption
              | apply fold_Rmax_ge; assumption
              | apply (proj1 (fold_Rmin_le _ _))
              | apply (proj1 (fold_Rmax_ge _ _)) ].
    + reflexivity.
    + intros Hz. unfold Prices.percentChange.
      now rewrite Reqb_false by exact Hz.
Qed.

Lemma statistics_summarise_the_window_witness :
  exists st p,
    Prices.stats PriceProps.history (Prices.ObjectId 1) None None
    = Prices.Statistics st
    /\ In p (Store.pricehistories PriceProps.history)
    /\ Store.price p = Prices.latest st
    /\ (1767398400000 <= Store.timestamp p)%Z.
Proof.
  pose proof (statistics_summarise_the_window PriceProps.history 1 None None)
    as (_ & Hfail & Hnone & Hsome).
  assert (Hobs : PriceProps.observed PriceProps.history 1 None None
                   {| Store.flightId := 1; Store.price := 500%R;
                      Store.timestamp := 1767398400000 |}).
  { unfold PriceProps.observed, PriceProps.fromBound, PriceProps.toBound.
    simpl. repeat split; try discriminate. tauto. }
  destruct (Prices.stats PriceProps.history (Prices.ObjectId 1) None None)
    as [| |st] eqn:E.
  - now destruct Hfail.
  - exfalso. exact (proj1 Hnone eq_refl _ Hobs).
  - destruct (Hsome st eq_refl) as (_ & _ & _ & (p & Hp & Ep & Hmax) & _).
    exists st, p. split; [reflexivity|].
    split; [apply Hp|]. split; [exact Ep|].
    exact (Hmax _ Hobs).
Defined.

Lemma filter_perm (A : Type) (g : A -> bool) (l l' : list A) :
  Permutation l l' -> Permutation (filter g l) (filter g l').
Proof.
  induction 1 as [|x l l' H IH|x y l|l l' l'' H1 IH1 H2 IH2]; simpl.
  - constructor.
  - destruct (g x); [now constructor | exact IH].
  - destruct (g x), (g y); try reflexivity. apply perm_swap.
  - now transitivity (filter g l').
Qed.

(** X22. After a price was posted with success, and in whatever order the
    collection lists its documents afterwards, the search pipelines join
    one observation more to the flight.  When all stored observations of
    the flight are older than the current time, the statistics of the
    flight report the posted price as the latest price, and the history
    of the flight starts with the posted observation. *)
Theorem posted_price_becomes_the_latest (now : Z) (db db' : Store.DB)
  (body : Prices.NewPrice) (saved : Store.PriceHistory) :
  fst (Prices.addPrice now db body) = Prices.Created saved ->
  Store.flights db' = Store.flights db ->
  Permutation (Store.pricehistories db') (saved :: Store.pricehistories db) ->
  (forall f, Store._id f = Store.flightId saved ->
     Pipeline.priceCount (Pipeline.joinPrices db' f)
     = S (Pipeline.priceCount (Pipeline.joinPrices db f)))
  /\ ((forall p, In p (Store.pricehistories db) ->
         Store.flightId p = Store.flightId saved ->
         (Store.timestamp p < now)%Z) ->
      (exists st,
         Prices.stats db' (Prices.ObjectId (Store.flightId saved)) None None
         = Prices.Statistics st
         /\ Prices.latest st = Store.price saved)
      /\ forall limit, exists rest,
           map fst (Prices.flightHistory db' (Store.flightId saved)
                      None None limit)
           = saved :: rest).
Proof.
  intros Hc Efl Hperm.
  destruct (posting_like now db body saved Hc) as (Ets & _ & _).
  split.
  - intros f Hid. unfold Pipeline.joinPrices. simpl. unfold Mongo.lookup.
    rewrite (Permutation_length
               (filter_perm _ (fun p => Nat.eqb (Store.flightId p)
                                          (Store._id f)) _ _ Hperm)).
    simpl. now rewrite Hid, Nat.eqb_refl.
  - intros Hold.
    set (F := filter (fun p => Nat.eqb (Store.flightId p)
                                 (Store.flightId saved)
                               && Prices.inWindow None None p)
                (Store.pricehistories db')).
    assert (HF : forall q, In q F ->
                   q = saved \/ (Store.timestamp q < Store.timestamp saved)%Z).
    { intros q Hq. apply filter_In in Hq as [Hq Hm].
      apply andb_true_iff in Hm as [Hm _]. apply Nat.eqb_eq in Hm.
      apply (Permutation_in _ Hperm) in Hq as [<-|Hq]; [now left|].
      right. rewrite Ets. now apply Hold. }
    assert (Hin : In saved F).
    { apply filter_In. split.
      - apply (Permutation_in _ (Permutation_sym Hperm)). now left.
      - now rewrite Nat.eqb_refl. }
    split.
    + unfold Prices.stats. fold F.
      pose proof (sorted_ascending _ Store.timestamp F) as Hs.
      fold (Prices.oldestFirst F) in Hs.
      assert (HS : forall q, In q (Prices.oldestFirst F) <-> In q F)
        by (intros q; apply stableSort_In).
      destruct (Prices.oldestFirst F) as [|p0 rest] eqn:E.
      * exfalso. now apply HS in Hin.
      * eexists. split; [reflexivity|]. simpl Prices.latest.
        pose proof (sorted_last_is_newest p0 rest Hs saved
                      (proj2 (HS saved) Hin)) as Hle.
        destruct (HF (last rest p0)) as [->|Hlt];
          [apply HS, last_In | reflexivity | lia].
    + intros limit. unfold Prices.flightHistory.
      rewrite map_fst_populate. fold F.
      pose proof (sorted_descending _ Store.timestamp F) as Hs.
      fold (Prices.newestFirst F) in Hs.
      assert (HS : forall q, In q (Prices.newestFirst F) <-> In q F)
        by (intros q; apply stableSort_In).
      destruct (Prices.newestFirst F) as [|x r] eqn:E.
      * exfalso. now apply HS in Hin.
      * assert (Ex : x = saved).
        { destruct (HF x) as [->|Hlt]; [apply HS; now left | reflexivity|].
          exfalso. apply HS in Hin. destruct Hin as [->|Hin]; [lia|].
          apply StronglySorted_inv in Hs as [_ Hall].
          pose proof (proj1 (Forall_forall _ _) Hall saved Hin) as Hle.
          cbv beta in Hle. lia. }
        subst x. unfold Prices.limitTo.
        destruct (Z.eqb_spec (Hybrid.orDefault limit 100%Z) 0) as [_|Hz];
          [now eexists|].
        destruct (Z.to_nat (Z.abs (Hybrid.orDefault limit 100%Z)))
          as [|k] eqn:Ek; [lia|].
        simpl. now eexists.
Qed.

Lemma posted_price_becomes_the_latest_witness :
  exists st,
    Prices.stats
      (snd (Prices.addPrice 1767400000000 Examples.twoPriced
              PriceProps.posted))
      (Prices.ObjectId 1) None None
    = Prices.Statistics st
    /\ Prices.latest st = 250%R.
Proof.
  pose proof (posted_is_created 1767400000000) as E.
  destruct (posting_like _ _ _ _ E) as (_ & Efl & Eph).
  apply (proj2 (posted_price_becomes_the_latest _ _
                  (snd (Prices.addPrice 1767400000000 Examples.twoPriced
                          PriceProps.posted)) _ _ E Efl
                  (eq_ind_r (fun l => Permutation l _)
                     (Permutation_sym (Permutation_cons_append _ _)) Eph))).
  intros p [<-|[<-|[]]] _; simpl; lia.
Defined.

Lemma splitOnHyphen_free (s : string) :
  PriceProps.hyphenFree s -> Prices.splitOnHyphen s = [s].
Proof.
  induction s as [|c s IH]; intros H; [reflexivity|].
  simpl. rewrite (H c) by now left.
  rewrite IH; [reflexivity|]. intros d Hd. apply H. now right.
Qed.

Lemma splitOnHyphen_append (a c : string) :
  PriceProps.hyphenFree a ->
  Prices.splitOnHyphen (a ++ String "-" c) = a :: Prices.splitOnHyphen c.
Proof.
  induction a as [|d a IH]; intros H; [reflexivity|].
  simpl. rewrite (H d) by now left.
  rewrite IH; [reflexivity|]. intros e He. apply H. now right.
Qed.

Lemma splitOnHyphen_single (s : string) :
  (exists x, Prices.splitOnHyphen s = [x]) <-> PriceProps.hyphenFree s.
Proof.
  split.
  - induction s as [|c s IH]; [intros _ d []|].
    simpl. destruct (JS.isHyphen c) eqn:Ec.
    + intros [x E]. destruct s; simpl in E; [discriminate|].
      destruct (JS.isHyphen a); [discriminate|].
      destruct (Prices.splitOnHyphen s) as [|? ?]; discriminate.
    + destruct (Prices.splitOnHyphen s) as [|p ps] eqn:Es.
      * destruct s; simpl in Es; [discriminate|].
        destruct (JS.isHyphen a); [discriminate|].
        destruct (Prices.splitOnHyphen s); discriminate.
      * intros [x [= _ ->]]. intros d [<-|Hd]; [exact Ec|].
        apply IH; [now exists p | exact Hd].
  - intros H. exists s. now apply splitOnHyphen_free.
Qed.

Lemma isHyphen_char (c : ascii) : JS.isHyphen c = true -> c = "-"%char.
Proof.
  unfold JS.isHyphen, JS.code. intros H. apply Nat.eqb_eq in H.
  rewrite <- (ascii_nat_embedding c), H. reflexivity.
Qed.

Lemma hyphenFree_cons (c : ascii) (s : string) :
  JS.isHyphen c = false -> PriceProps.hyphenFree s ->
  PriceProps.hyphenFree (String c s).
Proof. intros Hc Hs d [<-|Hd]; [exact Hc | now apply Hs]. Qed.

Lemma splitOnHyphen_inv (s a : string) (rest : list string) :
  Prices.splitOnHyphen s = a :: rest ->
  PriceProps.hyphenFree a
  /\ ((rest = [] /\ s = a)
      \/ exists c, s = (a ++ String "-" c)%string
                   /\ Prices.splitOnHyphen c = rest).
Proof.
  revert a rest; induction s as [|c s IH]; intros a rest.
  - intros [= <- <-]. split; [intros d []|]. now left.
  - simpl. destruct (JS.isHyphen c) eqn:Ec.
    + intros [= <- <-]. split; [intros d []|]. right.
      exists s. apply isHyphen_char in Ec. now subst c.
    + destruct (Prices.splitOnHyphen s) as [|p ps] eqn:Es.
      * intros [= <- <-]. exfalso.
        destruct s; simpl in Es; [discriminate|].
        destruct (JS.isHyphen a); [discriminate|].
        destruct (Prices.splitOnHyphen s); discriminate.
      * intros [= <- <-].
        destruct (IH p ps eq_refl) as [Hp [[-> ->]|(c' & -> & Ec')]].
        -- split; [now apply hyphenFree_cons|]. now left.
        -- split; [now apply hyphenFree_cons|]. right. now exists c'.
Qed.

Lemma splitOnHyphen_names (r from to : string) :
  (exists rest, Prices.splitOnHyphen r = from :: to :: rest)
  <-> PriceProps.names r from to.
Proof.
  split.
  - intros [rest E].
    apply splitOnHyphen_inv in E as [Hf [[[=] _]|(c & -> & E)]].
    apply splitOnHyphen_inv in E as [Ht [[_ ->]|(c' & -> & _)]].
    + repeat split; try assumption. now left.
    + repeat split; try assumption. right. now exists c'.
  - intros (Hf & Ht & [->|[tail ->]]).
    + exists []. change (from ++ "-" ++ to)%string
        with (from ++ String "-" to)%string.
      rewrite splitOnHyphen_append by exact Hf.
      now rewrite splitOnHyphen_free.
    + exists (Prices.splitOnHyphen tail).
      change (from ++ "-" ++ to ++ "-" ++ tail)%string
        with (from ++ String "-" (to ++ String "-" tail))%string.
      rewrite splitOnHyphen_append by exact Hf.
      now rewrite splitOnHyphen_append.
Qed.

Lemma routeMatch_spec (route : option string) :
  match Prices.routeMatch route with
  | None => exists r, route = Some r /\ r <> ""%string
                      /\ PriceProps.hyphenFree r
  | Some onRoute =>
      (forall r, route = Some r -> r <> ""%string ->
         ~ PriceProps.hyphenFree r)
      /\ forall x, onRoute x = true <-> PriceProps.routeAsked route (snd x)
  end.
Proof.
  unfold Prices.routeMatch, PriceProps.routeAsked.
  destruct route as [[|c r]|]; simpl JS.truthy; cbv iota.
  - split; [intros r [= <-] H; now destruct H|]. intros x. split; [now left | reflexivity].
  - simpl JS.orEmpty.
    destruct (Prices.splitOnHyphen (String c r)) as [|from [|to rest]] eqn:E.
    + exfalso. simpl in E. destruct (JS.isHyphen c); [discriminate|].
      destruct (Prices.splitOnHyphen r); discriminate.
    + exists (String c r). split; [reflexivity|]. split; [discriminate|].
      apply splitOnHyphen_single. now exists from.
    + split.
      * intros r' [= <-] _ H. apply splitOnHyphen_single in H as [x Hx].
        congruence.
      * intros x. rewrite andb_true_iff. unfold Hybrid.fieldIs.
        split.
        -- intros [H1 H2]. right. exists from, to.
           split; [apply splitOnHyphen_names; now exists rest|].
           destruct (Store.route_from (snd x)) as [a|]; [|discriminate].
           destruct (Store.route_to (snd x)) as [b|]; [|discriminate].
           apply String.eqb_eq in H1, H2. now subst.
        -- intros [[=]|(from' & to' & Hn & -> & ->)].
           apply splitOnHyphen_names in Hn as [rest' Hn].
           rewrite Hn in E. injection E as -> -> _.
           now rewrite !String.eqb_refl.
  - split; [discriminate|]. intros x. split; [trivial | reflexivity].
Qed.

Lemma airlineMatch_spec (airline : option string)
  (x : Store.PriceHistory * Store.Flight) :
  Prices.airlineMatch airline x = true
  <-> (forall a, airline = Some a -> a <> ""%string ->
         Store.airline (snd x) = Some a).
Proof.
  unfold Prices.airlineMatch, Hybrid.fieldIs.
  destruct airline as [[|c a]|]; simpl.
  - split; [intros _ a [= <-] H; now destruct H | reflexivity].
  - destruct (Store.airline (snd x)) as [s|].
    + rewrite String.eqb_eq. split.
      * intros -> a' [= <-] _. reflexivity.
      * intros H. specialize (H _ eq_refl). injection H; [auto | discriminate].
    + split; [discriminate|]. intros H.
      specialize (H _ eq_refl). discriminate H. discriminate.
  - split; [discriminate | reflexivity].
Qed.

Lemma withFlight_spec (db : Store.DB) (p : Store.PriceHistory)
  (f : Store.Flight) :
  In (p, f) (Prices.withFlight db)
  <-> In p (Store.pricehistories db) /\ In f (Store.flights db)
      /\ Store._id f = Store.flightId p.
Proof.
  unfold Prices.withFlight. rewrite in_flat_map. split.
  - intros (p' & Hp & Hin). apply in_map_iff in Hin as (f' & [= -> ->] & Hf).
    apply filter_In in Hf as [Hf He]. apply Nat.eqb_eq in He. tauto.
  - intros (Hp & Hf & He). exists p. split; [exact Hp|].
    apply in_map_iff. exists f. split; [reflexivity|].
    apply filter_In. split; [exact Hf | now apply Nat.eqb_eq].
Qed.

Lemma seen_spec (k : nat) (seen : list nat) :
  existsb (Nat.eqb k) seen = true <-> In k seen.
Proof.
  rewrite existsb_exists. split.
  - intros (j & Hj & E). apply Nat.eqb_eq in E. now subst.
  - intros H. exists k. split; [exact H | apply Nat.eqb_refl].
Qed.

Lemma firstPerFlight_In (seen : list nat)
  (l : list (Store.PriceHistory * Store.Flight))
  (x : Store.PriceHistory * Store.Flight) :
  In x (Prices.firstPerFlight seen l) ->
  In x l /\ ~ In (Store.flightId (fst x)) seen.
Proof.
  revert seen; induction l as [|a l IH]; intros seen; [intros []|].
  simpl. destruct (existsb _ seen) eqn:E.
  - intros H. apply IH in H. tauto.
  - intros [<-|H].
    + split; [now left|]. intros Hin. apply seen_spec in Hin. congruence.
    + apply IH in H as [H1 H2]. split; [now right|].
      intros Hin. apply H2. now right.
Qed.

Lemma firstPerFlight_NoDup (seen : list nat)
  (l : list (Store.PriceHistory * Store.Flight)) :
  NoDup (map (fun x => Store.flightId (fst x)) (Prices.firstPerFlight seen l)).
Proof.
  revert seen; induction l as [|a l IH]; intros seen; [constructor|].
  simpl. destruct (existsb _ seen); [apply IH|].
  simpl. constructor; [|apply IH].
  intros Hin. apply in_map_iff in Hin as (y & Ey & Hy).
  apply firstPerFlight_In in Hy as [_ Hy]. apply Hy. left. now symmetry.
Qed.

Lemma firstPerFlight_complete (seen : list nat)
  (l : list (Store.PriceHistory * Store.Flight))
  (x : Store.PriceHistory * Store.Flight) :
  In x l -> ~ In (Store.flightId (fst x)) seen ->
  exists y, In y (Prices.firstPerFlight seen l)
            /\ Store.flightId (fst y) = Store.flightId (fst x).
Proof.
  revert seen; induction l as [|a l IH]; intros seen; [intros []|].
  simpl. destruct (existsb _ seen) eqn:E.
  - intros [->|H] Hn.
    + apply seen_spec in E. contradiction.
    + now apply IH.
  - intros [->|H] Hn.
    + exists x. split; [now left | reflexivity].
    + destruct (Nat.eq_dec (Store.flightId (fst a)) (Store.flightId (fst x)))
        as [Ek|Ek].
      * exists a. split; [now left | exact Ek].
      * destruct (IH (Store.flightId (fst a) :: seen) H) as (y & Hy & Ey).
        { intros [Hin|Hin]; [contradiction | contradiction]. }
        exists y. split; [now right | exact Ey].
Qed.

Lemma firstPerFlight_first (R1 : Store.PriceHistory * Store.Flight ->
                                 Store.PriceHistory * Store.Flight -> Prop)
  (seen : list nat) (l : list (Store.PriceHistory * Store.Flight)) :
  (forall a, R1 a a) -> StronglySorted R1 l ->
  forall x y, In x (Prices.firstPerFlight seen l) -> In y l ->
    Store.flightId (fst y) = Store.flightId (fst x) -> R1 x y.
Proof.
  intros Hrefl. revert seen; induction l as [|a l IH]; intros seen Hs x y;
    [intros []|].
  apply StronglySorted_inv in Hs as [Hs Hall].
  simpl Prices.firstPerFlight. destruct (existsb _ seen) eqn:E.
  - intros Hx [<-|Hy] Ek.
    + apply firstPerFlight_In in Hx as [_ Hx]. apply seen_spec in E.
      rewrite Ek in E. contradiction.
    + exact (IH seen Hs x y Hx Hy Ek).
  - intros [<-|Hx] [<-|Hy] Ek.
    + apply Hrefl.
    + exact (proj1 (Forall_forall _ _) Hall y Hy).
    + apply firstPerFlight_In in Hx as [_ Hx]. exfalso. apply Hx. now left.
    + exact (IH _ Hs x y Hx Hy Ek).
Qed.

(** X24. The latest prices answer with status 500 exactly when a
    non-empty route without a hyphen is asked for.  Otherwise they hold
    one document per flight identifier, in ascending order of flight date;
    each one joins an observation with its active flight, of the airline
    and on the route asked for, and no stored observation of the same
    flight was captured later; every such flight that has an observation
    occurs. *)
Theorem latest_prices_hold_the_newest_observation (db : Store.DB)
  (route airline : option string) :
  (Prices.latestPrices db route airline = None
   <-> exists r, route = Some r /\ r <> ""%string /\ PriceProps.hyphenFree r)
  /\ (forall rs, Prices.latestPrices db route airline = Some rs ->
        NoDup (map (fun x => Store.flightId (fst x)) rs)
        /\ StronglySorted
             (fun x y => (Store.flightDate (snd x)
                          <= Store.flightDate (snd y))%Z) rs
        /\ (forall p f, In (p, f) rs ->
              In p (Store.pricehistories db) /\ In f (Store.flights db)
              /\ Store._id f = Store.flightId p
              /\ PriceProps.listed airline f
              /\ PriceProps.routeAsked route f
              /\ forall q, In q (Store.pricehistories db) ->
                   Store.flightId q = Store.flightId p ->
                   (Store.timestamp q <= Store.timestamp p)%Z)
        /\ (forall f q, In f (Store.flights db) ->
              PriceProps.listed airline f ->
              PriceProps.routeAsked route f ->
              In q (Store.pricehistories db) ->
              Store.flightId q = Store._id f ->
              exists x, In x rs /\ Store.flightId (fst x) = Store._id f)).
Proof.
  unfold Prices.latestPrices.
  pose proof (routeMatch_spec route) as Hr.
  destruct (Prices.routeMatch route) as [onRoute|].
  - destruct Hr as [Hfree Hon]. split.
    { split; [discriminate|]. intros (r & -> & Hne & Hf).
      exfalso. exact (Hfree r eq_refl Hne Hf). }
    intros rs [= <-].
    set (M := filter (Prices.airlineMatch airline) _).
    assert (HM : forall p f, In (p, f) M
              <-> In p (Store.pricehistories db) /\ In f (Store.flights db)
                  /\ Store._id f = Store.flightId p
                  /\ PriceProps.listed airline f
                  /\ PriceProps.routeAsked route f).
    { intros p f. unfold M. rewrite !filter_In, withFlight_spec,
        airlineMatch_spec, Hon. unfold PriceProps.listed. simpl. tauto. }
    set (S1 := JS.stableSort _ M).
    pose proof (sorted_descending _ (fun x => Store.timestamp (fst x)) M)
      as Hsorted.
    fold S1 in Hsorted.
    assert (HS : forall x, In x S1 <-> In x M)
      by (intros x; apply stableSort_In).
    split; [|split; [|split]].
    + eapply Permutation_NoDup; [|apply (firstPerFlight_NoDup [] S1)].
      apply Permutation_map. symmetry. apply stableSort_perm.
    + apply (sorted_ascending _ (fun x => Store.flightDate (snd x))).
    + intros p f Hin. apply stableSort_In in Hin.
      pose proof (firstPerFlight_In _ _ _ Hin) as [Hin1 _].
      apply HS in Hin1. pose proof (proj1 (HM p f) Hin1)
        as (Hp & Hf & Hid & Hl & Hra).
      repeat split; try assumption; try apply Hl.
      intros q Hq Ek.
      assert (HqM : In (q, f) S1).
      { apply HS, HM. repeat split; try assumption; try apply Hl.
        congruence. }
      exact (firstPerFlight_first
               (fun a c => (Store.timestamp (fst c)
                            <= Store.timestamp (fst a))%Z)
               [] S1 (fun a => Z.le_refl _) Hsorted (p, f) (q, f) Hin HqM Ek).
    + intros f q Hf Hl Hra Hq Ek.
      assert (HqM : In (q, f) S1).
      { apply HS, HM. repeat split; try assumption; try apply Hl.
        now symmetry. }
      destruct (firstPerFlight_complete [] S1 (q, f) HqM (fun H => H))
        as (y & Hy & Ey).
      exists y. split; [now apply stableSort_In|].
      simpl in Ey. congruence.
  - split; [|discriminate]. split; [|reflexivity]. intros _. exact Hr.
Qed.

Lemma latest_prices_hold_the_newest_observation_witness :
  exists rs,
    Prices.latestPrices PriceProps.history (Some "dxb-lhr"%string) None
    = Some rs
    /\ NoDup (map (fun x => Store.flightId (fst x)) rs).
Proof.
  eexists. split; [vm_compute; reflexivity|].
  apply (proj2 (latest_prices_hold_the_newest_observation PriceProps.history
                  (Some "dxb-lhr"%string) None) _).
  vm_compute. reflexivity.
Defined.

(* ================================================================== *)
(** * Search suggestions *)
(* ================================================================== *)

Lemma distinctBy_In (A : Type) (eqb : A -> A -> bool) (seen l : list A)
  (x : A) :
  In x (Suggestions.distinctBy eqb seen l) -> In x l.
Proof.
  revert seen; induction l as [|a l IH]; intros seen; [intros []|].
  simpl. destruct (existsb _ seen).
  - intros H. right. now apply (IH seen).
  - intros [<-|H]; [now left | right; now apply (IH _ H)].
Qed.

Lemma distinctBy_NoDup (A : Type) (eqb : A -> A -> bool) (seen l : list A) :
  (forall a, eqb a a = true) ->
  NoDup (Suggestions.distinctBy eqb seen l)
  /\ forall x, In x (Suggestions.distinctBy eqb seen l) -> ~ In x seen.
Proof.
  intros Hrefl. revert seen; induction l as [|a l IH]; intros seen.
  - split; [constructor | intros x []].
  - simpl. destruct (existsb _ seen) eqn:E; [apply IH|].
    destruct (IH (a :: seen)) as [Hnd Hns]. split.
    + constructor; [|exact Hnd]. intros Hin. apply (Hns a Hin). now left.
    + intros x [<-|Hx].
      * intros Hin. assert (existsb (eqb a) seen = true); [|congruence].
        apply existsb_exists. exists a. split; [exact Hin | apply Hrefl].
      * intros Hin. apply (Hns x Hx). now right.
Qed.

Lemma optEqb_refl (a : option string) : Suggestions.optEqb a a = true.
Proof. destruct a; [apply String.eqb_refl | reflexivity]. Qed.

Lemma strings_In (l : list (option string)) (s : string) :
  In s (Suggestions.strings l) <-> In (Some s) l.
Proof.
  unfold Suggestions.strings. rewrite in_flat_map. split.
  - intros (o & Ho & Hs).
    destruct o as [a|]; [destruct Hs as [<-|[]]; exact Ho | destruct Hs].
  - intros H. exists (Some s). split; [exact H | now left].
Qed.

Lemma strings_NoDup (l : list (option string)) :
  NoDup l -> NoDup (Suggestions.strings l).
Proof.
  induction 1 as [|[a|] l Hn Hnd IH]; simpl; [constructor| |exact IH].
  constructor; [|exact IH]. intros Hin. apply Hn. now apply strings_In.
Qed.

Lemma NoDup_firstn (A : Type) (n : nat) (l : list A) :
  NoDup l -> NoDup (firstn n l).
Proof.
  revert l; induction n as [|n IH]; intros l H; [constructor|].
  destruct H as [|x l Hx H]; simpl; constructor; [|now apply IH].
  intros Hin. apply Hx. now apply In_firstn in Hin.
Qed.

(** X25. The suggestions are empty, whatever the expression, when [q] is
    missing or shorter than two characters; otherwise the handler fails
    exactly when [q] is not a regular expression.  A list of suggestions
    consists of at most ten routes followed by at most ten airlines, so the
    final cut at twenty removes nothing; the airlines are pairwise
    distinct; every route is the route of an active flight whose origin or
    destination matches, every airline that of an active flight, and it
    matches. *)
Theorem suggestions_come_from_active_flights
  (RegExp_i : string -> option (string -> bool)) (db : Store.DB)
  (q type : option string) :
  (JS.truthy q = false \/ (String.length (JS.orEmpty q) < 2)%nat ->
   Suggestions.suggestions RegExp_i db q type = Some [])
  /\ (forall s, q = Some s -> (2 <= String.length s)%nat ->
        (Suggestions.suggestions RegExp_i db q type = None
         <-> RegExp_i s = None))
  /\ (forall rs, Suggestions.suggestions RegExp_i db q type = Some rs ->
        rs = [] \/
        exists test rts als,
          RegExp_i (JS.orEmpty q) = Some test
          /\ rs = (map Suggestions.routeSuggestion rts
                   ++ map Suggestions.airlineSuggestion als)%list
          /\ (List.length rts <= 10)%nat /\ (List.length als <= 10)%nat
          /\ NoDup rts /\ NoDup als
          /\ (forall g, In g rts ->
                (Hybrid.fieldMatches test (fst g) = true
                 \/ Hybrid.fieldMatches test (snd g) = true)
                /\ exists f, In f (Store.flights db)
                     /\ Store.isActive f = true
                     /\ Store.route_from f = fst g
                     /\ Store.route_to f = snd g)
          /\ (forall a, In a als ->
                test a = true
                /\ exists f, In f (Store.flights db)
                     /\ Store.isActive f = true
                     /\ Store.airline f = Some a)).
Proof.
  unfold Suggestions.suggestions.
  split; [|split].
  - intros [H|H].
    + now rewrite H.
    + apply Nat.ltb_lt in H. rewrite H. now rewrite orb_true_r.
  - intros s -> Hlen. simpl JS.truthy. simpl JS.orEmpty.
    destruct s as [|c s]; [simpl in Hlen; lia|]. simpl negb.
    destruct (Nat.ltb_spec (String.length (String c s)) 2) as [?|_]; [lia|].
    simpl orb. cbv iota.
    destruct (RegExp_i (String c s)); split; congruence.
  - intros rs.
    destruct (negb (JS.truthy q) || _)%bool; [intros [= <-]; now left|].
    destruct (RegExp_i (JS.orEmpty q)) as [test|]; [|discriminate].
    cbv zeta. intros [= <-]. right.
    set (t := Hybrid.orDefault type "all"%string).
    set (rts := if (String.eqb t "all" || String.eqb t "routes")%bool
                then Suggestions.routes db test else []).
    set (als := if (String.eqb t "all" || String.eqb t "airlines")%bool
                then Suggestions.airlines db test else []).
    assert (Er : (if (String.eqb t "all" || String.eqb t "routes")%bool
                  then map Suggestions.routeSuggestion
                         (Suggestions.routes db test)
                  else [])
                 = map Suggestions.routeSuggestion rts)
      by (unfold rts;
          destruct (String.eqb t "all" || String.eqb t "routes")%bool;
          reflexivity).
    assert (Ea : (if (String.eqb t "all" || String.eqb t "airlines")%bool
                  then map Suggestions.airlineSuggestion
                         (Suggestions.airlines db test)
                  else [])
                 = map Suggestions.airlineSuggestion als)
      by (unfold als;
          destruct (String.eqb t "all" || String.eqb t "airlines")%bool;
          reflexivity).
    rewrite Er, Ea.
    assert (Hr : (List.length rts <= 10)%nat
                 /\ NoDup rts
                 /\ forall g, In g rts ->
                      (Hybrid.fieldMatches test (fst g) = true
                       \/ Hybrid.fieldMatches test (snd g) = true)
                      /\ exists f, In f (Store.flights db)
                           /\ Store.isActive f = true
                           /\ Store.route_from f = fst g
                           /\ Store.route_to f = snd g).
    { unfold rts.
      destruct (String.eqb t "all" || String.eqb t "routes")%bool;
        [|split; [simpl; lia | split; [constructor | intros g []]]].
      unfold Suggestions.routes. split; [rewrite length_firstn; lia|].
      split.
      - apply NoDup_firstn, NoDup_filter.
        apply (distinctBy_NoDup _ Suggestions.pairEqb []).
        intros a. unfold Suggestions.pairEqb. now rewrite !optEqb_refl.
      - intros g Hg. apply In_firstn in Hg. apply filter_In in Hg as [Hg Hm].
        apply orb_true_iff in Hm. split; [exact Hm|].
        apply distinctBy_In in Hg. apply in_map_iff in Hg as (f & <- & Hf).
        apply filter_In in Hf as [Hf Ha]. now exists f. }
    assert (Ha : (List.length als <= 10)%nat
                 /\ NoDup als
                 /\ forall a, In a als ->
                      test a = true
                      /\ exists f, In f (Store.flights db)
                           /\ Store.isActive f = true
                           /\ Store.airline f = Some a).
    { unfold als.
      destruct (String.eqb t "all" || String.eqb t "airlines")%bool;
        [|split; [simpl; lia | split; [constructor | intros g []]]].
      unfold Suggestions.airlines. split; [rewrite length_firstn; lia|].
      split.
      - apply NoDup_firstn, strings_NoDup.
        apply (distinctBy_NoDup _ Suggestions.optEqb []). exact optEqb_refl.
      - intros a Hin. apply In_firstn in Hin. apply strings_In in Hin.
        apply distinctBy_In in Hin. apply in_map_iff in Hin as (f & Ef & Hf).
        apply filter_In in Hf as [Hf Hm].
        apply andb_true_iff in Hm as [Hact Hm].
        rewrite Ef in Hm. simpl in Hm. split; [exact Hm|]. now exists f. }
    destruct Hr as (Hr1 & Hr2 & Hr3). destruct Ha as (Ha1 & Ha2 & Ha3).
    exists test, rts, als.
    split; [reflexivity|]. split; [|tauto].
    rewrite slice_window by lia. simpl skipn.
    apply firstn_all2. rewrite length_app, !length_map. lia.
Qed.

Lemma suggestions_come_from_active_flights_witness :
  Suggestions.suggestions Hybrid.literalRegExp Examples.twoPriced
    (Some "e"%string) None
  = Some [].
Proof.
  apply (proj1 (suggestions_come_from_active_flights Hybrid.literalRegExp
                  Examples.twoPriced (Some "e"%string) None)).
  right. simpl. lia.
Defined.

(* ================================================================== *)
(** * The match stage of the advanced search *)
(* ================================================================== *)

Lemma fieldIs_spec (o : option string) (v : string) :
  Hybrid.fieldIs o v = true <-> o = Some v.
Proof.
  unfold Hybrid.fieldIs. destruct o as [s|]; [rewrite String.eqb_eq|];
    split; congruence.
Qed.

Lemma matchStage_spec (body : Advanced.Body) (f : Store.Flight) :
  AdvancedFilter.matchStage body f = true <-> AdvancedFilter.asked body f.
Proof.
  unfold AdvancedFilter.matchStage, AdvancedFilter.asked.
  rewrite !andb_true_iff.
  assert (H1 :
    match Advanced.routes body with
    | Some (r :: rs) =>
        existsb
          (fun route =>
             Hybrid.fieldIs (Store.route_from f) (JS.toUpperCase (fst route))
             && Hybrid.fieldIs (Store.route_to f)
                  (JS.toUpperCase (snd route)))
          (r :: rs)
    | _ => true
    end = true
    <-> (forall rs, Advanced.routes body = Some rs -> rs <> [] ->
           exists route, In route rs
             /\ Store.route_from f = Some (JS.toUpperCase (fst route))
             /\ Store.route_to f = Some (JS.toUpperCase (snd route)))).
  { destruct (Advanced.routes body) as [[|r rs]|].
    - split; [intros _ rs [= <-] H; now destruct H | reflexivity].
    - rewrite existsb_exists. split.
      + intros (route & Hin & Hm) rs' [= <-] _.
        apply andb_true_iff in Hm as [Ha Hb].
        apply fieldIs_spec in Ha, Hb. now exists route.
      + intros H. destruct (H _ eq_refl) as (route & Hin & Ha & Hb);
          [discriminate|].
        exists route. split; [exact Hin|].
        apply andb_true_iff. now rewrite !fieldIs_spec.
    - split; [discriminate | reflexivity]. }
  assert (H2 :
    match Advanced.airlines body with
    | Some (a :: l) => existsb (Hybrid.fieldIs (Store.airline f)) (a :: l)
    | _ => true
    end = true
    <-> (forall l, Advanced.airlines body = Some l -> l <> [] ->
           exists a, In a l /\ Store.airline f = Some a)).
  { destruct (Advanced.airlines body) as [[|a l]|].
    - split; [intros _ l [= <-] H; now destruct H | reflexivity].
    - rewrite existsb_exists. split.
      + intros (x & Hin & Hm) l' [= <-] _.
        apply fieldIs_spec in Hm. now exists x.
      + intros H. destruct (H _ eq_refl) as (x & Hin & Hx); [discriminate|].
        exists x. split; [exact Hin | now apply fieldIs_spec].
    - split; [discriminate | reflexivity]. }
  assert (H3 :
    (if JS.truthy (Advanced.flightClass body)
     then Hybrid.fieldIs (Store.class f)
            (JS.orEmpty (Advanced.flightClass body))
     else true) = true
    <-> (forall c, Advanced.flightClass body = Some c -> c <> ""%string ->
           Store.class f = Some c)).
  { destruct (Advanced.flightClass body) as [[|c s]|]; simpl.
    - split; [intros _ c [= <-] H; now destruct H | reflexivity].
    - rewrite fieldIs_spec. split; [intros H c' [= <-] _; exact H|].
      intros H. now apply H.
    - split; [discriminate | reflexivity]. }
  assert (H4 :
    match Advanced.dateRange body with
    | Some (None, None) => false
    | Some (start, finish) =>
        Mongo.optAll (fun s => (s <=? Store.flightDate f)%Z) start
        && Mongo.optAll (fun e => (Store.flightDate f <=? e)%Z) finish
    | None => true
    end = true
    <-> (forall start finish,
           Advanced.dateRange body = Some (start, finish) ->
           (start <> None \/ finish <> None)
           /\ (forall s, start = Some s -> (s <= Store.flightDate f)%Z)
           /\ (forall e, finish = Some e -> (Store.flightDate f <= e)%Z))).
  { destruct (Advanced.dateRange body) as [[start finish]|].
    - assert (E : match start, finish with
                  | None, None => false
                  | _, _ =>
                      Mongo.optAll (fun s => (s <=? Store.flightDate f)%Z)
                        start
                      && Mongo.optAll (fun e => (Store.flightDate f <=? e)%Z)
                           finish
                  end = true
                  <-> (start <> None \/ finish <> None)
                      /\ (forall s, start = Some s ->
                            (s <= Store.flightDate f)%Z)
                      /\ (forall e, finish = Some e ->
                            (Store.flightDate f <= e)%Z)).
      { destruct start as [s|], finish as [e|]; simpl;
          repeat match goal with
                 | |- context [(?a <=? ?c)%Z] => destruct (Z.leb_spec a c)
                 end; simpl;
          (split;
           [ intros Hx; try discriminate Hx;
             repeat split; try (left; discriminate);
             try (right; discriminate); try discriminate;
             intros ? [= <-]; lia
           | intros (Hd & Ha & Hb);
             try specialize (Ha _ eq_refl); try specialize (Hb _ eq_refl);
             try reflexivity; try lia;
             destruct Hd as [Hd|Hd]; now destruct Hd ]). }
      destruct start as [s|], finish as [e|];
        (split;
         [ intros H s' e' [= <- <-]; now apply E
         | intros H; apply E; now apply H ]).
    - split; [discriminate | reflexivity]. }
  rewrite H1, H2, H3, H4. tauto.
Qed.

Lemma traverse_complete (A B : Type) (f : A -> option B) (l : list A)
  (out : list B) :
  Advanced.traverse f l = Some out ->
  forall a, In a l -> exists c, In c out /\ f a = Some c.
Proof.
  revert out; induction l as [|x l IH]; intros out; [intros _ a []|].
  simpl. destruct (f x) as [y|] eqn:Ex; [|discriminate].
  destruct (Advanced.traverse f l) as [ys|]; [|discriminate].
  intros [= <-] a [<-|Ha].
  - exists y. split; [now left | exact Ex].
  - destruct (IH ys eq_refl a Ha) as (c & Hc & Ec).
    exists c. split; [now right | exact Ec].
Qed.

(** X26. Every result of the advanced search belongs to a stored flight
    that is active and meets what the body asks: one of the routes
    (compared in upper case) and one of the airlines when the array is
    given and not empty, the class when it is a non-empty string, and the
    bounds of the date range that are given, of which there is at least
    one when the body has a date range (a range without bounds matches no
    flight).  When the search succeeds
    and returns fewer results than the limit, every such flight that
    passes the price filter is among them. *)
Theorem advanced_results_meet_the_body (now : Z) (db : Store.DB)
  (body : Advanced.Body) (rs : list Advanced.Ranked) :
  Advanced.results AdvancedFilter.matchStage now db body = Some rs ->
  (forall r, In r rs ->
     exists f, In f (Store.flights db)
       /\ Advanced.cand r = Pipeline.joinPrices db f
       /\ AdvancedFilter.asked body f)
  /\ ((Z.of_nat (List.length rs) < Advanced.limitOf body)%Z ->
      forall f, In f (Store.flights db) -> AdvancedFilter.asked body f ->
        (forall cond, Advanced.priceFilter body = Some cond ->
           Mongo.matchRange cond
             (Pipeline.latestPrice (Pipeline.joinPrices db f)) = true) ->
        exists r, In r rs /\ Advanced.cand r = Pipeline.joinPrices db f).
Proof.
  unfold Advanced.results.
  destruct (Advanced.scored AdvancedFilter.matchStage now db body)
    as [ds|] eqn:Es; [|discriminate].
  destruct (Z.ltb_spec 0 (Advanced.limitOf body)) as [Hl|_]; [|discriminate].
  intros [= <-]. split.
  - intros r Hr. apply In_firstn in Hr. apply stableSort_In in Hr.
    destruct (scored_In _ _ _ _ _ _ Es Hr) as (f & Hf & Hm & Ec & _).
    exists f. split; [exact Hf|]. split; [exact Ec|].
    now apply matchStage_spec.
  - intros Hlen f Hf Ha Hp.
    rewrite length_firstn in Hlen.
    rewrite firstn_all2 by lia.
    unfold Advanced.scored in Es.
    destruct (Advanced.traverse _ _) as [rs|] eqn:Et; [|discriminate].
    injection Es as <-.
    assert (Hj : In (Pipeline.joinPrices db f)
                   (map (Pipeline.joinPrices db)
                      (filter (AdvancedFilter.matchStage body)
                         (Store.flights db)))).
    { apply in_map, filter_In. split; [exact Hf|].
      now apply matchStage_spec. }
    destruct (traverse_complete _ _ _ _ _ Et _ Hj) as (r & Hr & Er).
    assert (Ec : Advanced.cand r = Pipeline.joinPrices db f).
    { unfold Advanced.rank in Er.
      destruct (Advanced.divide _ _); [|discriminate].
      now injection Er as <-. }
    exists r. split; [|exact Ec].
    apply stableSort_In.
    destruct (Advanced.priceFilter body) as [cond|]; [|exact Hr].
    apply filter_In. split; [exact Hr|]. rewrite Ec. now apply Hp.
Qed.

Lemma scored_twoPriced_asked :
  exists r1 r2,
    Advanced.scored AdvancedFilter.matchStage 0 Examples.twoPriced
      Examples.noBody
    = Some [r1; r2].
Proof.
  unfold Advanced.scored, Advanced.traverse, Advanced.rank. simpl.
  unfold Advanced.divide, Mongo.stdDevPop, Mongo.avg, Mongo.sum. simpl.
  rewrite !Reqb_false by lra.
  eexists. eexists. reflexivity.
Qed.

Lemma advanced_results_meet_the_body_witness :
  exists rs,
    Advanced.results AdvancedFilter.matchStage 0 Examples.twoPriced
      Examples.noBody
    = Some rs
    /\ forall r, In r rs ->
         exists f, In f (Store.flights Examples.twoPriced)
           /\ Advanced.cand r = Pipeline.joinPrices Examples.twoPriced f
           /\ AdvancedFilter.asked Examples.noBody f.
Proof.
  destruct scored_twoPriced_asked as (r1 & r2 & E).
  assert (Er : Advanced.results AdvancedFilter.matchStage 0 Examples.twoPriced
                 Examples.noBody
               = Some (firstn 20
                         (JS.stableSort Advanced.afterRelevance [r1; r2]))).
  { unfold Advanced.results. rewrite E. reflexivity. }
  eexists. split; [exact Er|].
  apply (proj1 (advanced_results_meet_the_body 0 Examples.twoPriced
                  Examples.noBody _ Er)).
Defined.

(* ================================================================== *)
(** * Tokens of joined fields *)
(* ================================================================== *)

Lemma wordsFrom_space (cur a c : string) :
  Spec.wordsFrom cur (a ++ String " " c)%string
  = (Spec.wordsFrom cur a ++ Spec.wordsFrom "" c)%list.
Proof.
  revert cur; induction a as [|d a IH]; intros cur; simpl.
  - destruct (JS.nonEmpty cur); reflexivity.
  - destruct (JS.isSpace d); [|apply IH].
    destruct (JS.nonEmpty cur); simpl; now rewrite IH.
Qed.

Lemma tokenize_space (a c : string) :
  Scoring.tokenize (a ++ String " " c)%string
  = (Scoring.tokenize a ++ Scoring.tokenize c)%list.
Proof.
  rewrite !tokenize_words, !blankOutside_replace.
  unfold JS.replaceOutsideClass. rewrite mapChars_append.
  apply wordsFrom_space.
Qed.

Lemma tokenize_join (l : list string) :
  Scoring.tokenize (JS.join " " l) = List.concat (map Scoring.tokenize l).
Proof.
  induction l as [|x [|y l] IH]; [reflexivity| |].
  - simpl. now rewrite app_nil_r.
  - change (JS.join " " (x :: y :: l))
      with (x ++ String " " (JS.join " " (y :: l)))%string.
    rewrite tokenize_space, IH. reflexivity.
Qed.

Lemma tokenChar_not_space (c : ascii) :
  Spec.tokenChar c = true -> JS.isSpace c = false.
Proof.
  destruct c as [b0 b1 b2 b3 b4 b5 b6 b7].
  destruct b0, b1, b2, b3, b4, b5, b6, b7; vm_compute; congruence.
Qed.

Lemma tokenChar_inClass (c : ascii) :
  Spec.tokenChar c = true -> JS.inClass c = true.
Proof.
  unfold Spec.tokenChar, JS.inClass.
  destruct (JS.isLower c), (JS.isDigit c), (JS.isSpace c), (JS.isHyphen c);
    simpl; congruence.
Qed.

Lemma wordsFrom_token (cur t : string) :
  forallb Spec.tokenChar (list_ascii_of_string t) = true ->
  JS.nonEmpty (cur ++ t)%string = true ->
  Spec.wordsFrom cur t = [(cur ++ t)%string].
Proof.
  revert cur; induction t as [|c t IH]; intros cur Hc Hne; simpl.
  - rewrite append_empty_r in *. now rewrite Hne.
  - simpl in Hc. apply andb_true_iff in Hc as [Hc Ht].
    rewrite (tokenChar_not_space c Hc).
    rewrite IH; [now rewrite append_snoc | exact Ht |].
    rewrite append_snoc. exact Hne.
Qed.

Lemma tokenize_token (t : string) :
  Spec.wellFormedToken t = true -> Scoring.tokenize t = [t].
Proof.
  unfold Spec.wellFormedToken. intros H.
  apply andb_true_iff in H as [Hne Hc].
  rewrite tokenize_words.
  assert (E : Spec.blankOutside t = t).
  { clear Hne. induction t as [|c t IH]; [reflexivity|].
    simpl in Hc. apply andb_true_iff in Hc as [Hc Ht].
    simpl. rewrite (IH Ht).
    apply tokenChar_inClass in Hc. unfold JS.inClass in Hc.
    now rewrite Hc. }
  rewrite E. now apply wordsFrom_token.
Qed.

(** X27. Joining fields with a blank never merges or splits tokens: the
    tokens of a candidate are the tokens of its airline, origin,
    destination, aircraft and class, in this order; the tokens of a joined
    array are the tokens of its elements; and tokenising the tokens of a
    string, joined with blanks, gives the same tokens again. *)
Theorem document_tokens_are_the_field_tokens :
  (forall l, Scoring.tokenize (JS.join " " l)
             = List.concat (map Scoring.tokenize l))
  /\ (forall d, Scoring.tokenize (Hybrid.textOf d)
        = (Scoring.tokenize
             (JS.toLowerCase
                (JS.orEmpty (Store.airline (Pipeline.flight d))))
           ++ Scoring.tokenize
                (JS.toLowerCase
                   (JS.orEmpty (Store.route_from (Pipeline.flight d))))
           ++ Scoring.tokenize
                (JS.toLowerCase
                   (JS.orEmpty (Store.route_to (Pipeline.flight d))))
           ++ Scoring.tokenize
                (JS.toLowerCase
                   (JS.orEmpty (Store.aircraft (Pipeline.flight d))))
           ++ Scoring.tokenize
                (JS.toLowerCase
                   (JS.orEmpty (Store.class (Pipeline.flight d)))))%list)
  /\ (forall s, Scoring.tokenize (JS.join " " (Scoring.tokenize s))
                = Scoring.tokenize s).
Proof.
  split; [exact tokenize_join|]. split.
  - intros d. unfold Hybrid.textOf, Hybrid.fieldsOf, JS.toLowerCase.
    change (JS.join " " [?a; ?b; ?c; ?e; ?f])
      with (a ++ String " " (b ++ String " " (c ++ String " "
              (e ++ String " " f))))%string.
    assert (E : forall a c,
              JS.mapChars JS.lowerChar (a ++ String " " c)%string
              = (JS.mapChars JS.lowerChar a
                 ++ String " " (JS.mapChars JS.lowerChar c))%string)
      by (intros a c; now rewrite mapChars_append).
    now rewrite !E, !tokenize_space.
  - intros s. rewrite tokenize_join.
    assert (H : forall t, In t (Scoring.tokenize s) ->
                  Scoring.tokenize t = [t])
      by (intros t Ht; apply tokenize_token; now apply tokenize_wellFormed in Ht).
    induction (Scoring.tokenize s) as [|t l IH]; [reflexivity|].
    simpl. rewrite (H t) by now left.
    simpl. f_equal. apply IH. intros u Hu. apply H. now right.
Qed.
